(** * Pipeline engine: a shallow embedding of [src/pipeline/engine.py]
    and [src/pipeline/renderer.py], and the properties of the scheduler.

    Conventions of the embedding
    - a Python [str] is a [string] (its UTF-8 bytes: byte-wise
      lexicographic order is code-point order, the order of [sorted]);
    - a Python [int] is a [Z], a [len()] or a counter that starts at 0
      is a [nat];
    - a Python [float] is a binary64 [float] with the IEEE operations of
      the kernel, so rounding is the interpreter's; the numbers of a
      configuration ([execution_time], [failure_rate]) are floats;
    - a [dict] is an association list with unique keys in insertion
      order (the order [items()] walks), a [set] of names is a
      duplicate-free list that is only ever walked through [sorted];
    - a method that mutates [self] takes the object and returns the new
      one; a call that can raise returns an [outcome]. *)

From Stdlib Require Import ZArith List String Ascii Bool Lia Floats
  DecimalString Sorting.Sorted Sorting.Permutation.
Import ListNotations.

Local Open Scope string_scope.
Local Open Scope list_scope.

Set Implicit Arguments.

(** ** Exceptions *)

Inductive exn : Type :=
| OverflowError   (* int too large to convert to float *)
| KeyError        (* dict lookup or set.remove of an absent name *)
| Diverged.       (* the loop budget of the model ran out: never raised,
                     see [while_remaining_converges] *)

Inductive outcome (A : Type) : Type :=
| Returned (a : A)
| Raised (e : exn).
Arguments Raised {A} e.

Definition bind {A B : Type} (m : outcome A) (k : A -> outcome B) : outcome B :=
  match m with
  | Returned a => k a
  | Raised e => Raised e
  end.

Notation "x <- m ;; k" := (bind m (fun x => k))
  (at level 61, m at next level, right associativity).
Notation "' p <- m ;; k" := (bind m (fun x => let p := x in k))
  (at level 61, p pattern, m at next level, right associativity).

(** ** Python values *)

Module Py.

(** [float(z)] for an [int]: round to nearest even, [OverflowError]
    when the rounded value is beyond the largest double. *)
Definition int_to_float (z : Z) : outcome float :=
  match binary_normalize prec emax z 0 false with
  | S754_infinity _ => Raised OverflowError
  | sf => Returned (SF2Prim sf)
  end.

(** [float(n)] for a length or a counter: at most [sys.maxsize], so
    the conversion cannot overflow. *)
Definition nat_to_float (n : nat) : float :=
  PrimFloat.of_uint63 (Uint63.of_Z (Z.of_nat n)).

(** [str(z)] *)
Definition str (z : Z) : string := NilZero.string_of_int (Z.to_int z).

(** [sep.join(xs)] *)
Definition join (sep : string) (xs : list string) : string :=
  String.concat sep xs.

(** *** dict *)
Definition dict (V : Type) : Type := list (string * V).

Section Dict.
Variable V : Type.

Fixpoint get (k : string) (d : dict V) : option V :=
  match d with
  | [] => None
  | (k', v) :: r => if String.eqb k' k then Some v else get k r
  end.

Definition mem (k : string) (d : dict V) : bool :=
  match get k d with Some _ => true | None => false end.

(** [d[k] = v]: a present key keeps its position. *)
Fixpoint set (k : string) (v : V) (d : dict V) : dict V :=
  match d with
  | [] => [(k, v)]
  | (k', v') :: r =>
      if String.eqb k' k then (k, v) :: r else (k', v') :: set k v r
  end.

Definition keys (d : dict V) : list string := map fst d.

(** [d[k]] *)
Definition getitem (k : string) (d : dict V) : outcome V :=
  match get k d with
  | Some v => Returned v
  | None => Raised KeyError
  end.
End Dict.

(** *** set of names *)
Definition contains (x : string) (s : list string) : bool :=
  existsb (String.eqb x) s.

Definition set_add (x : string) (s : list string) : list string :=
  if contains x s then s else s ++ [x].

Definition discard (x : string) (s : list string) : list string :=
  filter (fun y => negb (String.eqb x y)) s.

(** [s.remove(x)] raises [KeyError] when [x] is absent. *)
Definition set_remove (x : string) (s : list string) : outcome (list string) :=
  if contains x s then Returned (discard x s) else Raised KeyError.

(** *** sorted: on distinct names every comparison sort agrees, here
    by insertion. *)
Fixpoint insert (x : string) (l : list string) : list string :=
  match l with
  | [] => [x]
  | y :: r => if String.leb x y then x :: l else y :: insert x r
  end.

Definition sorted (l : list string) : list string :=
  fold_right insert [] l.

End Py.

(** ** Data model (engine.py, lines 14-73) *)

Inductive TaskStatus : Type := PENDING | RUNNING | COMPLETED | FAILED.

Definition TaskStatus_eqb (a b : TaskStatus) : bool :=
  match a, b with
  | PENDING, PENDING | RUNNING, RUNNING
  | COMPLETED, COMPLETED | FAILED, FAILED => true
  | _, _ => false
  end.

Record TaskResult : Type := mkTaskResult {
  task_name : string;
  status : TaskStatus;
  start_time : option float;
  end_time : option float;
  error : option string;
  duration : float
}.

(** The field [status] of the dataclass [Task] is [task_status] here,
    the name [status] being the field of [TaskResult]. *)
Record Task : Type := mkTask {
  name : string;
  dependencies : list string;
  execution_time : float;
  failure_rate : float;
  task_status : TaskStatus
}.

(** One record of the dead letter queue; [dlq_context] is the optional
    fourth key of the dictionary. *)
Record DLQEntry : Type := mkDLQEntry {
  dlq_task : string;
  dlq_reason : string;
  dlq_timestamp : float;
  dlq_context : option (Py.dict string)
}.

Record ExecutionContext : Type := mkExecutionContext {
  seed : Z;
  task_results : Py.dict TaskResult;
  execution_order : list string;
  dlq : list DLQEntry
}.

Definition is_task_completed (self : ExecutionContext) (n : string) : bool :=
  match Py.get n self.(task_results) with
  | Some result => TaskStatus_eqb result.(status) COMPLETED
  | None => false
  end.

Definition is_task_failed (self : ExecutionContext) (n : string) : bool :=
  match Py.get n self.(task_results) with
  | Some result => TaskStatus_eqb result.(status) FAILED
  | None => false
  end.

Definition can_execute_task (self : ExecutionContext) (task : Task) : bool :=
  forallb (fun dep => Py.mem dep self.(task_results) && is_task_completed self dep)
          task.(dependencies).

Definition clone (self : ExecutionContext) : ExecutionContext :=
  mkExecutionContext self.(seed) self.(task_results)
                     self.(execution_order) self.(dlq).

(** ** DLQSystem (lines 92-117) *)

Record DLQSystem : Type := mkDLQSystem {
  failures : list DLQEntry;
  dlq_seed : Z;
  counter : nat
}.

Definition DLQSystem_init (seed : Z) : DLQSystem := mkDLQSystem [] seed 0.

(** The literal [0.001]. *)
Definition epsilon : float := 0x1.0624dd2f1a9fcp-10%float.

(** [self.seed + self.counter * 0.001] *)
Definition deterministic_timestamp (seed : Z) (counter : nat) : outcome float :=
  let step := PrimFloat.mul (Py.nat_to_float counter) epsilon in
  s <- Py.int_to_float seed ;;
  Returned (PrimFloat.add s step).

Definition add_failure (self : DLQSystem) (task reason : string)
    (context : option (Py.dict string)) : outcome DLQSystem :=
  ts <- deterministic_timestamp self.(dlq_seed) self.(counter) ;;
  let record :=
    mkDLQEntry task reason ts
      (match context with
       | Some (_ :: _ as c) => Some c
       | _ => None
       end) in
  Returned (mkDLQSystem (self.(failures) ++ [record]) self.(dlq_seed)
                        (S self.(counter))).

Definition get_failures (self : DLQSystem) : list DLQEntry := self.(failures).

(** ** Renderer (renderer.py)

    The engine only ever calls the three hooks of its renderer; a hook
    either returns or raises an [Exception], and in both cases may have
    changed the renderer's own state. (What is raised is an instance of
    [Exception], the class the call sites catch; a [KeyboardInterrupt]
    or [SystemExit] is not one and is outside the model.) *)

Inductive hook_result (R : Type) : Type :=
| Done (r : R)     (* the hook returned *)
| Threw (r : R).   (* the hook raised an Exception *)

Class Renderer (R : Type) : Type := {
  task_started : string -> R -> hook_result R;
  task_completed : string -> R -> hook_result R;
  task_failed : string -> R -> hook_result R
}.

(** [try: hook(...) except Exception: pass] *)
Definition absorb {R : Type} (h : hook_result R) : R :=
  match h with
  | Done r => r
  | Threw r => r
  end.

(** [ConsoleRenderer]: [stdout] is the lines written so far, and
    [stdout_broken] says that [print] raises (a closed stream). *)
Record ConsoleRenderer : Type := mkConsoleRenderer {
  enabled : bool;
  fail_on_task : option string;
  stdout : list string;
  stdout_broken : bool
}.

Definition ConsoleRenderer_init : ConsoleRenderer :=
  mkConsoleRenderer true None [] false.

Definition console_hook (tag : string) (task_name : string)
    (self : ConsoleRenderer) : hook_result ConsoleRenderer :=
  let hit := match self.(fail_on_task) with
             | Some n => String.eqb n task_name
             | None => false
             end in
  if hit then Threw self
  else if self.(enabled) then
    if self.(stdout_broken)
    then Done (mkConsoleRenderer false self.(fail_on_task) self.(stdout)
                                 self.(stdout_broken))
    else Done (mkConsoleRenderer self.(enabled) self.(fail_on_task)
                 (self.(stdout) ++ [("[" ++ tag ++ "] " ++ task_name)%string])
                 self.(stdout_broken))
  else Done self.

#[export] Instance ConsoleRenderer_Renderer : Renderer ConsoleRenderer := {
  task_started := console_hook "STARTED";
  task_completed := console_hook "COMPLETED";
  task_failed := console_hook "FAILED"
}.

Definition disable (self : ConsoleRenderer) : ConsoleRenderer :=
  mkConsoleRenderer false self.(fail_on_task) self.(stdout) self.(stdout_broken).

(** ** Configuration and report *)

Record TaskConfig : Type := mkTaskConfig {
  cfg_name : string;
  cfg_dependencies : option (list string);
  cfg_execution_time : option float;
  cfg_failure_rate : option float
}.

Record Config : Type := mkConfig {
  cfg_seed : option Z;
  cfg_tasks : option (list TaskConfig)
}.

(** [d.get(key, default)] *)
Definition get_default {A : Type} (o : option A) (default : A) : A :=
  match o with
  | Some a => a
  | None => default
  end.

Record Summary : Type := mkSummary {
  total_tasks : nat;
  completed_count : nat;   (* summary["completed_tasks"] *)
  failed_count : nat;      (* summary["failed_tasks"] *)
  dlq_count : nat;
  total_duration : float
}.

Record Report : Type := mkReport {
  summary : Summary;
  completed_tasks : list string;
  failed_tasks : list string;
  report_dlq : list DLQEntry;               (* "dlq" *)
  report_execution_order : list string;     (* "execution_order" *)
  task_durations : Py.dict float
}.

(** The reasons the scheduler writes. *)
Definition missing_reason (missing_deps : list string) : string :=
  ("Missing dependencies: " ++ Py.join ", " missing_deps)%string.

Definition failed_reason (failed_deps : list string) : string :=
  ("Failed dependencies: " ++ Py.join ", " failed_deps)%string.

Definition circular_reason : string :=
  "Circular dependency or unresolvable dependencies".

(** Monadic [for x in xs: body]. *)
Fixpoint for_each {S : Type} (body : string -> S -> outcome S)
    (xs : list string) (s : S) : outcome S :=
  match xs with
  | [] => Returned s
  | x :: r => s' <- body x s ;; for_each body r s'
  end.

(** ** The interpreter process

    [hash] is the interpreter's built-in [hash] on [str]; CPython salts
    it per process unless PYTHONHASHSEED is fixed, so it belongs to the
    process, not to the program. [Random] is [random.Random]:
    [Random_new x] is [random.Random(x)] and [random] is one call of
    [.random()], returning the draw and the advanced generator. *)

Class Interpreter : Type := {
  hash : string -> Z;
  Random : Type;
  Random_new : Z -> Random;
  random : Random -> float * Random
}.

(** The contract of [random.Random.random]: a draw lies in [[0, 1)]. *)
Definition unit_interval (x : float) : Prop :=
  PrimFloat.leb 0%float x = true /\ PrimFloat.ltb x 1%float = true.

Definition random_in_unit_interval (py : Interpreter) : Prop :=
  forall g : Random, unit_interval (fst (random g)).

(** ** The engine *)

Section Engine.

Context {py : Interpreter}.

(** *** DeterministicRandom (lines 76-89) *)

Record DeterministicRandom : Type := mkDeterministicRandom {
  rnd_seed : Z;
  states : Py.dict Random
}.

Definition DeterministicRandom_init (seed : Z) : DeterministicRandom :=
  mkDeterministicRandom seed [].

(** Returns the generator stored under [context] together with the
    object, which has gained the entry when it was absent. *)
Definition get_rng (self : DeterministicRandom) (context : string)
    : Random * DeterministicRandom :=
  match Py.get context self.(states) with
  | Some g => (g, self)
  | None =>
      let context_seed := ((self.(rnd_seed) + hash context) mod 2 ^ 32)%Z in
      let g := Random_new context_seed in
      (g, mkDeterministicRandom self.(rnd_seed)
                                (Py.set context g self.(states)))
  end.

(** [get_rng(context).random()]: the generator is shared with the
    table, so the table holds the advanced generator afterwards. *)
Definition draw (self : DeterministicRandom) (context : string)
    : float * DeterministicRandom :=
  let '(g, self1) := get_rng self context in
  let '(x, g') := random g in
  (x, mkDeterministicRandom self1.(rnd_seed)
                            (Py.set context g' self1.(states))).

(** *** PipelineEngine (lines 120-162) *)

Record PipelineEngine : Type := mkPipelineEngine {
  tasks : Py.dict Task;
  dlq_system : option DLQSystem;
  random_generator : option DeterministicRandom
}.

Definition PipelineEngine_init : PipelineEngine :=
  mkPipelineEngine [] None None.

Definition add_task (self : PipelineEngine) (task : Task) : PipelineEngine :=
  mkPipelineEngine (Py.set task.(name) task self.(tasks))
                   self.(dlq_system) self.(random_generator).

Definition task_of_config (task_config : TaskConfig) : Task :=
  mkTask task_config.(cfg_name)
         (get_default task_config.(cfg_dependencies) [])
         (get_default task_config.(cfg_execution_time) 1%float)
         (get_default task_config.(cfg_failure_rate) 0%float)
         PENDING.

Definition _parse_config (self : PipelineEngine) (config : Config)
    : PipelineEngine :=
  fold_left (fun e task_config => add_task e (task_of_config task_config))
            (get_default config.(cfg_tasks) []) self.

(** *** _execute_task (lines 265-290)

    With a numeric [failure_rate] nothing in the [try] block raises,
    so the [except] branch is not entered. *)
Definition _execute_task (rg : DeterministicRandom) (task : Task)
    (context : ExecutionContext) : TaskResult * DeterministicRandom :=
  let start := 0%float in
  let '(x, rg') := draw rg (Py.str context.(seed) ++ ":" ++ task.(name))%string in
  let success := PrimFloat.ltb task.(failure_rate) x in
  (mkTaskResult task.(name)
                (if success then COMPLETED else FAILED)
                (Some start)
                (Some (PrimFloat.add start task.(execution_time)))
                (if success then None
                 else Some "Task failed due to configured failure rate")
                task.(execution_time),
   rg').

(** *** The scheduler (lines 164-263)

    The private methods are entered from [run] only, after it has
    assigned [self.dlq_system] and [self.random_generator]; the
    scheduler state holds the two assigned objects next to the locals
    of [_execute_tasks]. [self.tasks] is not written by the scheduler
    and is passed along. *)

Variable R : Type.
Context {renderer_hooks : Renderer R}.

Record Sched : Type := mkSched {
  current_context : ExecutionContext;
  sched_dlq : DLQSystem;               (* self.dlq_system *)
  sched_random : DeterministicRandom;  (* self.random_generator *)
  remaining_tasks : list string;
  processed_tasks : list string;
  executable_tasks : list string;
  sched_renderer : option R
}.

(** Body of the loop over [task.dependencies] (lines 186-194), on the
    triple [(can_execute, missing_deps, failed_deps)]. *)
Definition check_dependency (tasks : Py.dict Task) (ctx : ExecutionContext)
    (acc : bool * list string * list string) (dep : string)
    : bool * list string * list string :=
  let '(can_execute, missing_deps, failed_deps) := acc in
  if negb (Py.mem dep tasks) then
    (false, missing_deps ++ [dep], failed_deps)
  else if negb (is_task_completed ctx dep) then
    (false, missing_deps,
     if is_task_failed ctx dep then failed_deps ++ [dep] else failed_deps)
  else acc.

Definition check_dependencies (tasks : Py.dict Task) (ctx : ExecutionContext)
    (deps : list string) : bool * list string * list string :=
  fold_left (check_dependency tasks ctx) deps (true, [], []).

(** [add_failure], [processed_tasks.add], [remaining_tasks.remove] *)
Definition dead_letter (task_name reason : string) (st : Sched)
    : outcome Sched :=
  d <- add_failure st.(sched_dlq) task_name reason None ;;
  let processed := Py.set_add task_name st.(processed_tasks) in
  remaining <- Py.set_remove task_name st.(remaining_tasks) ;;
  Returned (mkSched st.(current_context) d st.(sched_random) remaining
                    processed st.(executable_tasks) st.(sched_renderer)).

(** Body of the classification loop (lines 178-216). *)
Definition classify_task (tasks : Py.dict Task) (task_name : string)
    (st : Sched) : outcome Sched :=
  task <- Py.getitem task_name tasks ;;
  let '(can_execute, missing_deps, failed_deps) :=
    check_dependencies tasks st.(current_context) task.(dependencies) in
  match missing_deps, failed_deps with
  | _ :: _, _ => dead_letter task_name (missing_reason missing_deps) st
  | [], _ :: _ => dead_letter task_name (failed_reason failed_deps) st
  | [], [] =>
      if can_execute then
        Returned (mkSched st.(current_context) st.(sched_dlq)
                    st.(sched_random) st.(remaining_tasks)
                    st.(processed_tasks)
                    (st.(executable_tasks) ++ [task_name]) st.(sched_renderer))
      else Returned st
  end.

(** Body of the deadlock loop (lines 221-226). *)
Definition dead_letter_stuck (task_name : string) (st : Sched)
    : outcome Sched :=
  d <- add_failure st.(sched_dlq) task_name circular_reason None ;;
  Returned (mkSched st.(current_context) d st.(sched_random)
                    st.(remaining_tasks)
                    (Py.set_add task_name st.(processed_tasks))
                    st.(executable_tasks) st.(sched_renderer)).

(** [if renderer: try: hook(task_name) except Exception: pass] *)
Definition notify (hook : string -> R -> hook_result R) (task_name : string)
    (renderer : option R) : option R :=
  match renderer with
  | Some r => Some (absorb (hook task_name r))
  | None => None
  end.

(** Body of the execution loop (lines 230-259). *)
Definition run_task (tasks : Py.dict Task) (task_name : string)
    (st : Sched) : outcome Sched :=
  task <- Py.getitem task_name tasks ;;
  let processed := Py.set_add task_name st.(processed_tasks) in
  remaining <- Py.set_remove task_name st.(remaining_tasks) ;;
  let renderer1 := notify task_started task_name st.(sched_renderer) in
  let '(task_result, rg) :=
    _execute_task st.(sched_random) task st.(current_context) in
  let ctx := st.(current_context) in
  let ctx' :=
    mkExecutionContext ctx.(seed)
      (Py.set task_name task_result ctx.(task_results))
      (ctx.(execution_order) ++ [task_name]) ctx.(dlq) in
  let renderer2 :=
    if TaskStatus_eqb task_result.(status) COMPLETED
    then notify task_completed task_name renderer1
    else notify task_failed task_name renderer1 in
  Returned (mkSched ctx' st.(sched_dlq) rg remaining processed
                    st.(executable_tasks) renderer2).

(** [executable_tasks = []] (line 176) *)
Definition start_round (st : Sched) : Sched :=
  mkSched st.(current_context) st.(sched_dlq) st.(sched_random)
          st.(remaining_tasks) st.(processed_tasks) []
          st.(sched_renderer).

(** The classification loop of one pass (lines 176-216). *)
Definition classification (tasks : Py.dict Task) (st : Sched)
    : outcome Sched :=
  for_each (classify_task tasks) (Py.sorted st.(remaining_tasks))
           (start_round st).

(** One pass of the [while] body (lines 175-259): [inl] when the
    pass ends in [break], [inr] when the loop goes round again. *)
Definition round (tasks : Py.dict Task) (st : Sched)
    : outcome (Sched + Sched) :=
  st1 <- classification tasks st ;;
  match st1.(executable_tasks) with
  | [] =>
      st2 <- for_each dead_letter_stuck (Py.sorted st1.(remaining_tasks)) st1 ;;
      Returned (inl st2)
  | _ :: _ =>
      st2 <- for_each (run_task tasks) (Py.sorted st1.(executable_tasks)) st1 ;;
      Returned (inr st2)
  end.

(** [while remaining_tasks: ...], with a budget of passes. A pass
    that does not break removes a name from [remaining_tasks], so
    [while_budget] passes are enough ([while_remaining_converges],
    [run_returns]). *)
Fixpoint while_remaining (tasks : Py.dict Task) (budget : nat) (st : Sched)
    : outcome Sched :=
  match st.(remaining_tasks) with
  | [] => Returned st
  | _ :: _ =>
      match budget with
      | O => Raised Diverged
      | S budget' =>
          r <- round tasks st ;;
          match r with
          | inl st' => Returned st'
          | inr st' => while_remaining tasks budget' st'
          end
      end
  end.

Definition while_budget (st : Sched) : nat := List.length st.(remaining_tasks).

Definition _execute_tasks (tasks : Py.dict Task) (d : DLQSystem)
    (rg : DeterministicRandom) (context : ExecutionContext)
    (renderer : option R) : outcome Sched :=
  let st := mkSched (clone context) d rg (Py.keys tasks) [] [] renderer in
  st' <- while_remaining tasks (while_budget st) st ;;
  let ctx := st'.(current_context) in
  Returned (mkSched
              (mkExecutionContext ctx.(seed) ctx.(task_results)
                 ctx.(execution_order) (get_failures st'.(sched_dlq)))
              st'.(sched_dlq) st'.(sched_random) st'.(remaining_tasks)
              st'.(processed_tasks) st'.(executable_tasks) st'.(sched_renderer)).

(** *** _generate_result (lines 292-321) *)
Definition names_with_status (s : TaskStatus) (results : Py.dict TaskResult)
    : list string :=
  map fst (filter (fun item => TaskStatus_eqb (snd item).(status) s) results).

Definition _generate_result (self : PipelineEngine)
    (context : ExecutionContext) (total_duration : float) : Report :=
  let completed := names_with_status COMPLETED context.(task_results) in
  let failed := names_with_status FAILED context.(task_results) in
  let durations :=
    fold_left (fun d item => Py.set (fst item) (snd item).(duration) d)
              context.(task_results) [] in
  mkReport
    (mkSummary (List.length self.(tasks)) (List.length completed)
               (List.length failed) (List.length context.(dlq))
               total_duration)
    completed failed context.(dlq) context.(execution_order) durations.

(** *** run (lines 130-151) *)
Definition default_seed : Z := 42.

(** The literal [0.1]. *)
Definition tick : float := 0x1.999999999999ap-4%float.

Definition run (self : PipelineEngine) (config : Config)
    (renderer : option R) : outcome (Report * PipelineEngine * option R) :=
  let start_time := 0%float in
  let seed := get_default config.(cfg_seed) default_seed in
  let rg := DeterministicRandom_init seed in
  let d := DLQSystem_init seed in
  let self1 := _parse_config (mkPipelineEngine self.(tasks) (Some d) (Some rg))
                             config in
  let context := mkExecutionContext seed [] [] [] in
  st <- _execute_tasks self1.(tasks) d rg context renderer ;;
  let final_context := st.(current_context) in
  let end_time :=
    PrimFloat.mul (Py.nat_to_float (List.length final_context.(execution_order)))
                  tick in
  let self2 := mkPipelineEngine self1.(tasks) (Some st.(sched_dlq))
                                (Some st.(sched_random)) in
  Returned (_generate_result self2 final_context
                             (PrimFloat.sub end_time start_time),
            self2, st.(sched_renderer)).

End Engine.

Arguments dead_letter_stuck {py R} task_name st.
Arguments start_round {py R} st.

(** ** Vocabulary of the properties

    What the loop over the dependencies computes, in closed form
    ([check_dependencies_spec]). *)

Definition missing_dependencies (tasks : Py.dict Task) (task : Task)
    : list string :=
  filter (fun dep => negb (Py.mem dep tasks)) task.(dependencies).

Definition failed_dependencies (tasks : Py.dict Task) (ctx : ExecutionContext)
    (task : Task) : list string :=
  filter (fun dep => Py.mem dep tasks && negb (is_task_completed ctx dep)
                     && is_task_failed ctx dep)
         task.(dependencies).

Definition dependencies_completed (tasks : Py.dict Task)
    (ctx : ExecutionContext) (task : Task) : bool :=
  forallb (fun dep => Py.mem dep tasks && is_task_completed ctx dep)
          task.(dependencies).

(** The order of [sorted] on names. *)
Definition name_le (x y : string) : Prop := String.leb x y = true.

(** The names recorded in a dead letter queue, in insertion order. *)
Definition dlq_names (entries : list DLQEntry) : list string :=
  map dlq_task entries.

(** The [n]-th entry of a queue carries the timestamp computed from the
    seed and [n]. *)
Definition stamped (seed : Z) (entries : list DLQEntry) : Prop :=
  forall n e, nth_error entries n = Some e ->
    deterministic_timestamp seed n = Returned e.(dlq_timestamp).

Section Vocabulary.

Context {py : Interpreter} {R : Type} {renderer_hooks : Renderer R}.

Variable T : Py.dict Task.

(** What [dead_letter] leaves behind. *)
Definition dead_lettered (x reason : string) (st st' : Sched R) : Prop :=
  exists ts,
    deterministic_timestamp st.(sched_dlq).(dlq_seed)
                            st.(sched_dlq).(counter) = Returned ts /\
    In x st.(remaining_tasks) /\
    st' = mkSched st.(current_context)
            (mkDLQSystem
               (st.(sched_dlq).(failures) ++ [mkDLQEntry x reason ts None])
               st.(sched_dlq).(dlq_seed) (S st.(sched_dlq).(counter)))
            st.(sched_random) (Py.discard x st.(remaining_tasks))
            (Py.set_add x st.(processed_tasks)) st.(executable_tasks)
            st.(sched_renderer).

Definition add_executable (x : string) (st : Sched R) : Sched R :=
  mkSched st.(current_context) st.(sched_dlq) st.(sched_random)
          st.(remaining_tasks) st.(processed_tasks)
          (st.(executable_tasks) ++ [x]) st.(sched_renderer).

(** The four ways out of the body of the classification loop. *)
Inductive classified (x : string) (st st' : Sched R) : Prop :=
| classified_missing task :
    Py.get x T = Some task ->
    missing_dependencies T task <> [] ->
    dead_lettered x (missing_reason (missing_dependencies T task)) st st' ->
    classified x st st'
| classified_failed task :
    Py.get x T = Some task ->
    missing_dependencies T task = [] ->
    failed_dependencies T st.(current_context) task <> [] ->
    dead_lettered x
      (failed_reason (failed_dependencies T st.(current_context) task))
      st st' ->
    classified x st st'
| classified_executable task :
    Py.get x T = Some task ->
    missing_dependencies T task = [] ->
    failed_dependencies T st.(current_context) task = [] ->
    dependencies_completed T st.(current_context) task = true ->
    st' = add_executable x st ->
    classified x st st'
| classified_pending task :
    Py.get x T = Some task ->
    missing_dependencies T task = [] ->
    failed_dependencies T st.(current_context) task = [] ->
    dependencies_completed T st.(current_context) task = false ->
    st' = st ->
    classified x st st'.

(** What the body of the execution loop leaves behind. *)
Definition executed_task (x : string) (st st' : Sched R) : Prop :=
  exists task result rg rd,
    Py.get x T = Some task /\
    In x st.(remaining_tasks) /\
    _execute_task st.(sched_random) task st.(current_context) = (result, rg) /\
    st' = mkSched
            (mkExecutionContext st.(current_context).(seed)
               (Py.set x result st.(current_context).(task_results))
               (st.(current_context).(execution_order) ++ [x])
               st.(current_context).(dlq))
            st.(sched_dlq) rg (Py.discard x st.(remaining_tasks))
            (Py.set_add x st.(processed_tasks)) st.(executable_tasks) rd.

(** The state in which [_execute_tasks] enters its loop. *)
Definition initial_state (d : DLQSystem) (rg : DeterministicRandom)
    (context : ExecutionContext) (renderer : option R) : Sched R :=
  mkSched (clone context) d rg (Py.keys T) [] [] renderer.

(** The states in which the [while] test is evaluated, from [st0] on. *)
Inductive loop_head (st0 : Sched R) : Sched R -> Prop :=
| loop_head_first : loop_head st0 st0
| loop_head_next st st' :
    loop_head st0 st -> round T st = Returned (inr st') -> loop_head st0 st'.

(** [visits body xs s x t]: [for x in xs: body] started in [s] enters
    its body for [x] in state [t]. *)
Inductive visits {S : Type} (body : string -> S -> outcome S)
    : list string -> S -> string -> S -> Prop :=
| visits_head x xs s : visits body (x :: xs) s x s
| visits_tail x xs s s' y t :
    body x s = Returned s' -> visits body xs s' y t ->
    visits body (x :: xs) s y t.

(** [task_begins st0 x t]: in the run of the loop from [st0], the
    execution loop reaches task [x], the scheduler being in state [t]
    (lines 231-244: the task is about to be executed). *)
Definition task_begins (st0 : Sched R) (x : string) (t : Sched R) : Prop :=
  exists st st1,
    loop_head st0 st /\
    classification T st = Returned st1 /\
    st1.(executable_tasks) <> [] /\
    visits (run_task T) (Py.sorted st1.(executable_tasks)) st1 x t.

Definition executed (st : Sched R) : list string :=
  st.(current_context).(execution_order).

Definition dead_names (st : Sched R) : list string :=
  dlq_names st.(sched_dlq).(failures).

(** Every task of the store is in exactly one of: executed, dead
    lettered, remaining; and the results are those of the executed. *)
Record store_partition (st : Sched R) : Prop := {
  partition_names :
    Permutation (executed st ++ dead_names st ++ st.(remaining_tasks))
                (Py.keys T);
  partition_results :
    Py.keys st.(current_context).(task_results) = executed st
}.

(** Every dependency of [x] is a task of the store that is COMPLETED
    in [ctx]. *)
Definition gated (ctx : ExecutionContext) (x : string) : Prop :=
  forall task, Py.get x T = Some task ->
  forall dep, In dep task.(dependencies) ->
    In dep (Py.keys T) /\ is_task_completed ctx dep = true.

(** The tasks of the frontier that are still to run are gated. *)
Definition frontier_gated (st : Sched R) : Prop :=
  forall x, In x st.(executable_tasks) -> In x st.(remaining_tasks) ->
    gated st.(current_context) x.

(** The queue of seed [s]: its counter is the number of its entries. *)
Definition dlq_ok (s : Z) (d : DLQSystem) : Prop :=
  d.(dlq_seed) = s /\ d.(counter) = List.length d.(failures) /\
  stamped s d.(failures).

(** The invariant of the [while] loop of a run with seed [s]. *)
Record scheduler_inv (s : Z) (st : Sched R) : Prop := {
  inv_partition : store_partition st;
  inv_gated : frontier_gated st;
  inv_dlq : dlq_ok s st.(sched_dlq)
}.

End Vocabulary.

(** ** Vocabulary of a run *)

Section RunVocabulary.

Context {py : Interpreter} {R : Type}.

Variable self : PipelineEngine.
Variable config : Config.

(** The seed and the task store of the run. *)
Definition run_seed : Z := get_default config.(cfg_seed) default_seed.
Definition run_store : Py.dict Task := (_parse_config self config).(tasks).

Definition run_initial (renderer : option R) : Sched R :=
  initial_state run_store (DLQSystem_init run_seed)
                (DeterministicRandom_init run_seed)
                (mkExecutionContext run_seed [] [] []) renderer.

(** What the report shows of the last state of the loop. *)
Definition reports (rep : Report) (st : Sched R) : Prop :=
  rep.(report_execution_order) = executed st /\
  rep.(report_dlq) = st.(sched_dlq).(failures) /\
  rep.(completed_tasks) =
    names_with_status COMPLETED st.(current_context).(task_results) /\
  rep.(failed_tasks) =
    names_with_status FAILED st.(current_context).(task_results) /\
  rep.(summary).(total_tasks) = List.length run_store /\
  rep.(summary).(dlq_count) = List.length st.(sched_dlq).(failures).

End RunVocabulary.

(** The report of a run, or the exception it raised. *)
Definition report_of {py : Interpreter} {R : Type}
    (o : outcome (Report * PipelineEngine * option R)) : outcome Report :=
  match o with
  | Returned (rep, _, _) => Returned rep
  | Raised e => Raised e
  end.

(** The configuration with the seed of [c2] and the tasks of [c1]
    followed by those of [c2]. *)
Definition accumulated (c1 c2 : Config) : Config :=
  mkConfig c2.(cfg_seed)
           (Some (get_default c1.(cfg_tasks) [] ++ get_default c2.(cfg_tasks) [])).

(** ** Sample interpreters and configurations *)

Module Sample.

(** A process whose [str] hash is the salt plus the length, and whose
    generators draw 0.25 from an even state and 0.75 from an odd one. *)
Definition salted (salt : Z) : Interpreter := {|
  hash := fun key => (salt + Z.of_nat (String.length key))%Z;
  Random := Z;
  Random_new := fun x => x;
  random := fun g => (if Z.even g then 0.25%float else 0.75%float, (g + 1)%Z)
|}.

(** A process whose generators draw 0.0. *)
Definition zero_draw : Interpreter := {|
  hash := fun key => Z.of_nat (String.length key);
  Random := unit;
  Random_new := fun _ => tt;
  random := fun g => (0%float, g)
|}.

Definition task (n : string) (deps : list string) (rate : float)
    : TaskConfig :=
  mkTaskConfig n (Some deps) (Some 0.5%float) (Some rate).

(** One task that fails on half of the draws. *)
Definition coin_flip : Config :=
  mkConfig (Some 42%Z) (Some [task "a" [] 0.5%float]).

(** One task that is configured never to fail. *)
Definition sure_thing : Config :=
  mkConfig (Some 42%Z) (Some [task "a" [] 0%float]).

(** The example of the specification, and more: a success, a
    stochastic failure, a missing dependency next to a failed one, a
    failed dependency, a cycle. *)
Definition pipeline : Config :=
  mkConfig (Some 999%Z)
    (Some [task "task_a" [] 0%float;
           task "task_b" ["task_a"] 1%float;
           task "task_c" ["ghost"; "task_b"] 0%float;
           task "task_d" ["task_b"] 0%float;
           task "x" ["y"] 0%float;
           task "y" ["x"] 0%float]).

(** Two tasks that wait for undeclared ones, under a seed the size of
    a clock reading in nanoseconds. *)
Definition clock_seeded : Config :=
  mkConfig (Some 1700000000000000000%Z)
    (Some [task "p" ["ghost"] 0%float; task "q" ["phantom"] 0%float]).

(** A task that always fails, and a task that waits for it. *)
Definition doomed : Config :=
  mkConfig (Some 5%Z)
    (Some [task "z" [] 1%float; task "w" ["z"] 0%float]).

(** A scheduler state over the store of [pipeline] in which ["task_b"]
    has failed while ["task_c"] is still in the working set. *)
Definition task_c_pending : Sched (py := salted 0) ConsoleRenderer :=
  mkSched
    (mkExecutionContext 999
       [("task_a", mkTaskResult "task_a" COMPLETED (Some 0%float)
                     (Some 0.5%float) None 0.5%float);
        ("task_b", mkTaskResult "task_b" FAILED (Some 0%float)
                     (Some 0.5%float)
                     (Some "Task failed due to configured failure rate")
                     0.5%float)]
       ["task_a"; "task_b"] [])
    (DLQSystem_init 999) (DeterministicRandom_init 999)
    ["task_c"; "task_d"; "x"; "y"] ["task_a"; "task_b"] [] None.

(** A second configuration for an engine that has already run. *)
Definition small : Config :=
  mkConfig (Some 7%Z) (Some [task "solo" [] 0%float]).

(** Tasks whose failure rates leave nothing to the draws. *)
Definition certain : Config :=
  mkConfig (Some 42%Z)
    (Some [task "a" [] (-1)%float; task "b" ["a"] 2%float;
           task "c" ["a"] nan]).

(** The tasks of [pipeline], declared in the opposite order. *)
Definition pipeline_reversed : Config :=
  mkConfig pipeline.(cfg_seed)
           (Some (rev (get_default pipeline.(cfg_tasks) []))).

(** A seed beyond the largest double, with a task that waits for an
    undeclared one, and without. *)
Definition beyond_float : Config :=
  mkConfig (Some (2 ^ 1024)%Z)
    (Some [task "p" ["ghost"] 0%float; task "q" [] 0%float]).

Definition beyond_float_free : Config :=
  mkConfig (Some (2 ^ 1024)%Z) (Some [task "q" [] 0%float]).

(** A task that waits for an undeclared one, and a task that waits
    for it in turn: no cycle. *)
Definition chain : Config :=
  mkConfig (Some 3%Z)
    (Some [task "u" ["ghost"] 0%float; task "v" ["u"] 0%float]).

End Sample.

(** * Properties *)

(** ** The error monad *)

Lemma bind_Returned {A B : Type} (m : outcome A) (k : A -> outcome B) (b : B) :
  bind m k = Returned b -> exists a, m = Returned a /\ k a = Returned b.
Proof.
  destruct m as [a|e]; simpl; intros E; [exists a; auto | discriminate].
Qed.

(** Unfolds one monadic binding of a hypothesis [H : ... = Returned _]. *)
Ltac bind_inv H :=
  let a := fresh "a" in
  let Ha := fresh "Ha" in
  apply bind_Returned in H; destruct H as (a & Ha & H).


(** Invariant rule of [for_each]: [I todo s] speaks of the names still
    to visit. *)
Lemma for_each_inv {S : Type} (body : string -> S -> outcome S)
    (I : list string -> S -> Prop) :
  (forall x xs s s', I (x :: xs) s -> body x s = Returned s' -> I xs s') ->
  forall xs s s', I xs s -> for_each body xs s = Returned s' -> I [] s'.
Proof.
  intros step xs. induction xs as [|x xs IH]; intros s s' HI E; simpl in E.
  - now inversion E; subst.
  - bind_inv E. eapply IH; [eapply step|]; eauto.
Qed.

(** ** Order of names *)

Lemma ascii_compare_lt_trans a b c :
  Ascii.compare a b = Lt -> Ascii.compare b c = Lt -> Ascii.compare a c = Lt.
Proof. unfold Ascii.compare. rewrite !N.compare_lt_iff. lia. Qed.

Lemma string_compare_refl s : String.compare s s = Eq.
Proof.
  induction s as [|a s IH]; simpl; auto.
  unfold Ascii.compare. now rewrite N.compare_refl.
Qed.

Lemma string_compare_lt_trans s1 : forall s2 s3,
  String.compare s1 s2 = Lt -> String.compare s2 s3 = Lt ->
  String.compare s1 s3 = Lt.
Proof.
  induction s1 as [|a s1 IH]; intros [|b s2] [|c s3]; simpl; try congruence.
  destruct (Ascii.compare a b) eqn:Eab; try congruence;
    destruct (Ascii.compare b c) eqn:Ebc; try congruence; intros H1 H2.
  - apply Ascii.compare_eq_iff in Eab, Ebc. subst.
    assert (E : Ascii.compare c c = Eq)
      by (unfold Ascii.compare; apply N.compare_refl).
    rewrite E. eauto.
  - apply Ascii.compare_eq_iff in Eab. subst. now rewrite Ebc.
  - apply Ascii.compare_eq_iff in Ebc. subst. now rewrite Eab.
  - now rewrite (ascii_compare_lt_trans _ _ _ Eab Ebc).
Qed.

Lemma name_le_trans x y z : name_le x y -> name_le y z -> name_le x z.
Proof.
  unfold name_le, String.leb.
  destruct (String.compare x y) eqn:E12; try discriminate;
    destruct (String.compare y z) eqn:E23; try discriminate; intros _ _.
  - apply String.compare_eq_iff in E12, E23. subst.
    now rewrite string_compare_refl.
  - apply String.compare_eq_iff in E12. subst. now rewrite E23.
  - apply String.compare_eq_iff in E23. subst. now rewrite E12.
  - now rewrite (string_compare_lt_trans _ _ _ E12 E23).
Qed.

(** ** sorted *)

Lemma insert_perm x l : Permutation (Py.insert x l) (x :: l).
Proof.
  induction l as [|y l IH]; simpl; auto.
  destruct (String.leb x y); auto.
  rewrite IH. apply perm_swap.
Qed.

Lemma sorted_perm l : Permutation (Py.sorted l) l.
Proof.
  induction l as [|x l IH]; simpl; auto.
  rewrite insert_perm. now constructor.
Qed.

Lemma sorted_In x l : In x (Py.sorted l) <-> In x l.
Proof.
  split; apply Permutation_in; [|symmetry]; apply sorted_perm.
Qed.

Lemma sorted_NoDup l : NoDup l -> NoDup (Py.sorted l).
Proof.
  apply Permutation_NoDup. symmetry. apply sorted_perm.
Qed.


Lemma insert_sorted x l :
  StronglySorted name_le l -> StronglySorted name_le (Py.insert x l).
Proof.
  induction 1 as [|y l Hl IH Hy]; simpl.
  - repeat constructor.
  - destruct (String.leb x y) eqn:E.
    + constructor; [constructor; auto|].
      constructor; auto.
      eapply Forall_impl; [|exact Hy].
      intros z Hz. eapply name_le_trans; eauto.
    + constructor; auto.
      assert (Hyx : name_le y x).
      { destruct (String.leb_total x y) as [H|H]; [congruence | exact H]. }
      rewrite Forall_forall in *. intros z Hz.
      apply (Permutation_in _ (insert_perm x l)) in Hz.
      destruct Hz as [<-|Hz]; auto.
Qed.

Lemma sorted_sorted l : StronglySorted name_le (Py.sorted l).
Proof.
  induction l as [|x l IH]; simpl; [constructor | now apply insert_sorted].
Qed.

(** ** Sets of names *)

Lemma contains_In x s : Py.contains x s = true <-> In x s.
Proof.
  unfold Py.contains. rewrite existsb_exists. split.
  - intros (y & Hy & E). apply String.eqb_eq in E. now subst.
  - intros H. exists x. split; auto. apply String.eqb_refl.
Qed.

Lemma contains_false x s : Py.contains x s = false <-> ~ In x s.
Proof.
  rewrite <- contains_In. destruct (Py.contains x s); intuition congruence.
Qed.

Lemma discard_In x y s : In y (Py.discard x s) <-> In y s /\ y <> x.
Proof.
  unfold Py.discard. rewrite filter_In.
  destruct (String.eqb_spec x y); simpl; intuition congruence.
Qed.

Lemma discard_NoDup x s : NoDup s -> NoDup (Py.discard x s).
Proof. apply NoDup_filter. Qed.

Lemma discard_length x s :
  In x s -> List.length (Py.discard x s) < List.length s.
Proof.
  unfold Py.discard. induction s as [|y s IH]; simpl; [tauto|].
  intros [->|H].
  - rewrite String.eqb_refl. simpl.
    pose proof (filter_length_le (fun y0 => negb (String.eqb x y0)) s). lia.
  - specialize (IH H). destruct (negb (String.eqb x y)); simpl; lia.
Qed.

Lemma set_add_In x y s : In y (Py.set_add x s) <-> y = x \/ In y s.
Proof.
  unfold Py.set_add. destruct (Py.contains x s) eqn:E.
  - apply contains_In in E. intuition congruence.
  - rewrite in_app_iff. simpl. intuition congruence.
Qed.

Lemma set_remove_Returned x s s' :
  Py.set_remove x s = Returned s' -> In x s /\ s' = Py.discard x s.
Proof.
  unfold Py.set_remove. destruct (Py.contains x s) eqn:E; [|discriminate].
  intros H. inversion H. split; auto. now apply contains_In.
Qed.

Lemma set_remove_In x s :
  In x s -> Py.set_remove x s = Returned (Py.discard x s).
Proof.
  intros H. unfold Py.set_remove. apply contains_In in H. now rewrite H.
Qed.

(** ** dict *)

Lemma get_In_keys {V : Type} k (d : Py.dict V) :
  Py.mem k d = true <-> In k (Py.keys d).
Proof.
  unfold Py.mem. induction d as [|[k' v] d IH]; simpl.
  - intuition congruence.
  - destruct (String.eqb_spec k' k); [intuition|].
    rewrite IH. intuition congruence.
Qed.


Lemma get_Some_keys {V : Type} k (d : Py.dict V) v :
  Py.get k d = Some v -> In k (Py.keys d).
Proof.
  intros E. apply get_In_keys. unfold Py.mem. now rewrite E.
Qed.

Lemma get_set_same {V : Type} k (v : V) d : Py.get k (Py.set k v d) = Some v.
Proof.
  induction d as [|[k' v'] d IH]; simpl.
  - now rewrite String.eqb_refl.
  - destruct (String.eqb_spec k' k); simpl.
    + now rewrite String.eqb_refl.
    + destruct (String.eqb_spec k' k); [contradiction | exact IH].
Qed.

Lemma get_set_other {V : Type} k k' (v : V) d :
  k <> k' -> Py.get k' (Py.set k v d) = Py.get k' d.
Proof.
  intros N. induction d as [|[k0 v0] d IH]; simpl.
  - destruct (String.eqb_spec k k'); [contradiction | reflexivity].
  - destruct (String.eqb_spec k0 k); simpl.
    + subst. destruct (String.eqb_spec k k'); [contradiction | reflexivity].
    + destruct (String.eqb_spec k0 k'); auto.
Qed.


Lemma keys_set {V : Type} k (v : V) d :
  Py.keys (Py.set k v d) =
  if Py.mem k d then Py.keys d else Py.keys d ++ [k].
Proof.
  unfold Py.mem, Py.keys. induction d as [|[k0 v0] d IH]; simpl; auto.
  destruct (String.eqb_spec k0 k); simpl; [now subst|].
  rewrite IH. now destruct (Py.get k d).
Qed.

Lemma keys_set_NoDup {V : Type} k (v : V) d :
  NoDup (Py.keys d) -> NoDup (Py.keys (Py.set k v d)).
Proof.
  intros H. rewrite keys_set. destruct (Py.mem k d) eqn:E; auto.
  apply NoDup_app; auto.
  - repeat constructor. simpl. tauto.
  - intros x Hx [<-|[]]. apply get_In_keys in Hx. congruence.
Qed.

Lemma getitem_Returned {V : Type} k (d : Py.dict V) v :
  Py.getitem k d = Returned v <-> Py.get k d = Some v.
Proof.
  unfold Py.getitem. destruct (Py.get k d); split; intros E;
    inversion E; auto; discriminate.
Qed.

(** ** The scheduler, step by step *)

Section Scheduler.

Context {py : Interpreter} {R : Type} {renderer_hooks : Renderer R}.

Variable T : Py.dict Task.

Lemma check_dependencies_fold ctx deps : forall c m f,
  fold_left (check_dependency T ctx) deps (c, m, f) =
  (c && forallb (fun dep => Py.mem dep T && is_task_completed ctx dep) deps,
   m ++ filter (fun dep => negb (Py.mem dep T)) deps,
   f ++ filter (fun dep => Py.mem dep T && negb (is_task_completed ctx dep)
                           && is_task_failed ctx dep) deps).
Proof.
  induction deps as [|dep deps IH]; intros c m f; simpl.
  - now rewrite andb_true_r, !app_nil_r.
  - destruct (Py.mem dep T); simpl.
    + destruct (is_task_completed ctx dep); simpl.
      * apply IH.
      * rewrite IH. rewrite andb_false_r. simpl.
        destruct (is_task_failed ctx dep); simpl; auto.
        now rewrite <- app_assoc.
    + rewrite IH, andb_false_r. simpl. now rewrite <- app_assoc.
Qed.

Lemma check_dependencies_spec ctx task :
  check_dependencies T ctx task.(dependencies) =
  (dependencies_completed T ctx task, missing_dependencies T task,
   failed_dependencies T ctx task).
Proof.
  unfold check_dependencies. now rewrite check_dependencies_fold.
Qed.

Lemma add_failure_Returned d x reason d' :
  add_failure d x reason None = Returned d' ->
  exists ts,
    deterministic_timestamp d.(dlq_seed) d.(counter) = Returned ts /\
    d' = mkDLQSystem (d.(failures) ++ [mkDLQEntry x reason ts None])
                     d.(dlq_seed) (S d.(counter)).
Proof.
  unfold add_failure. intros E. bind_inv E. inversion E. eauto.
Qed.

Lemma dead_letter_Returned x reason (st st' : Sched R) :
  dead_letter x reason st = Returned st' -> dead_lettered x reason st st'.
Proof.
  unfold dead_letter. intros E. bind_inv E.
  apply add_failure_Returned in Ha. destruct Ha as (ts & Hts & ->).
  bind_inv E. apply set_remove_Returned in Ha. destruct Ha as [Hin ->].
  inversion E. exists ts. auto.
Qed.

Lemma classify_task_Returned x (st st' : Sched R) :
  classify_task T x st = Returned st' -> classified T x st st'.
Proof.
  unfold classify_task. intros E. bind_inv E.
  apply getitem_Returned in Ha. rename a into task.
  rewrite check_dependencies_spec in E.
  destruct (missing_dependencies T task) as [|m ms] eqn:Em.
  - destruct (failed_dependencies T (current_context st) task)
      as [|f fs] eqn:Ef.
    + destruct (dependencies_completed T (current_context st) task) eqn:Ec;
        inversion E; subst.
      * eapply classified_executable; eauto.
      * eapply classified_pending; eauto.
    + apply dead_letter_Returned in E.
      eapply classified_failed; eauto; rewrite Ef; [discriminate | exact E].
  - apply dead_letter_Returned in E.
    eapply classified_missing; eauto; rewrite Em; [discriminate | exact E].
Qed.

Lemma run_task_Returned x (st st' : Sched R) :
  run_task T x st = Returned st' -> executed_task T x st st'.
Proof.
  unfold run_task. intros E. bind_inv E. apply getitem_Returned in Ha.
  rename a into task. bind_inv E.
  apply set_remove_Returned in Ha0. destruct Ha0 as [Hin ->].
  destruct (_execute_task (sched_random st) task (current_context st))
    as [result rg] eqn:Ex.
  inversion E. exists task, result, rg. eexists. repeat split; eauto.
Qed.

End Scheduler.

(** ** The invariant rule of the scheduler loop *)

Section LoopInvariant.

Context {py : Interpreter} {R : Type} {renderer_hooks : Renderer R}.

Variable T : Py.dict Task.

Variable P : Sched R -> Prop.

Hypothesis P_start : forall st, P st -> P (start_round st).

Hypothesis P_classify : forall x st st',
  P st -> In x st.(remaining_tasks) -> ~ In x st.(executable_tasks) ->
  classified T x st st' -> P st'.

Hypothesis P_run : forall x st st',
  P st -> In x st.(executable_tasks) -> executed_task T x st st' -> P st'.

(** The names still to classify are remaining and not yet in the
    frontier; the frontier is a duplicate-free part of the remaining. *)
Definition classifying (n : nat) (todo : list string) (st : Sched R) : Prop :=
  P st /\ NoDup st.(remaining_tasks) /\ NoDup todo /\
  incl todo st.(remaining_tasks) /\
  NoDup st.(executable_tasks) /\
  incl st.(executable_tasks) st.(remaining_tasks) /\
  (forall y, In y todo -> ~ In y st.(executable_tasks)) /\
  List.length st.(remaining_tasks) <= n.

Lemma classifying_step n x xs (st st' : Sched R) :
  classifying n (x :: xs) st -> classify_task T x st = Returned st' ->
  classifying n xs st'.
Proof.
  intros (HP & Hrem & Htodo & Hin & Hexe & Hsub & Hfresh & Hlen) E.
  apply classify_task_Returned in E.
  assert (Hx : In x (remaining_tasks st)) by (apply Hin; now left).
  assert (Hnx : ~ In x (executable_tasks st)) by (apply Hfresh; now left).
  assert (HP' : P st') by (eapply P_classify; eauto).
  inversion Htodo as [|? ? Hxxs Hxs]; subst.
  assert (Hdead : forall reason, dead_lettered x reason st st' ->
                                 classifying n xs st').
  { intros reason (ts & _ & _ & ->). unfold classifying; simpl.
    repeat split; auto.
    - now apply discard_NoDup.
    - intros y Hy. apply discard_In. split; [apply Hin; now right|].
      intros ->. contradiction.
    - intros y Hy. apply discard_In. split; [now apply Hsub|].
      intros ->. contradiction.
    - intros y Hy. apply Hfresh. now right.
    - pose proof (discard_length x _ Hx). lia. }
  destruct E as [task _ _ D | task _ _ _ D | task _ _ _ _ -> | task _ _ _ _ ->];
    eauto.
  - unfold classifying; simpl. repeat split; auto.
    + intros y Hy. apply Hin. now right.
    + apply NoDup_app; auto.
      * repeat constructor. simpl. tauto.
      * intros y Hy [<-|[]]. contradiction.
    + intros y Hy. apply in_app_iff in Hy. destruct Hy as [Hy|[<-|[]]]; auto.
    + intros y Hy Hy'. apply in_app_iff in Hy'.
      destruct Hy' as [Hy'|[<-|[]]]; [|contradiction].
      eapply Hfresh; eauto. now right.
  - unfold classifying. repeat split; auto.
    + intros y Hy. apply Hin. now right.
    + intros y Hy. apply Hfresh. now right.
Qed.

Lemma classification_preserves (st st1 : Sched R) :
  NoDup st.(remaining_tasks) -> P st ->
  classification T st = Returned st1 ->
  P st1 /\ NoDup st1.(remaining_tasks) /\ NoDup st1.(executable_tasks) /\
  incl st1.(executable_tasks) st1.(remaining_tasks) /\
  List.length st1.(remaining_tasks) <= List.length st.(remaining_tasks).
Proof.
  intros Hrem HP E. unfold classification in E.
  apply (for_each_inv (classify_task T)
           (classifying (List.length st.(remaining_tasks)))
           (@classifying_step _)) in E.
  - destruct E as (? & ? & _ & _ & ? & ? & _ & ?). auto.
  - unfold classifying; simpl. repeat split; auto.
    + now apply sorted_NoDup.
    + intros y. apply sorted_In.
    + constructor.
    + intros y [].
Qed.

(** The names still to run are remaining, and each run removes one. *)
Definition running (n k : nat) (todo : list string) (st : Sched R) : Prop :=
  P st /\ NoDup st.(remaining_tasks) /\ NoDup todo /\
  incl todo st.(remaining_tasks) /\ incl todo st.(executable_tasks) /\
  List.length st.(remaining_tasks) + k <= n + List.length todo.

Lemma running_step n k x xs (st st' : Sched R) :
  running n k (x :: xs) st -> run_task T x st = Returned st' ->
  running n k xs st'.
Proof.
  intros (HP & Hrem & Htodo & Hin & Hexe & Hlen) E.
  apply run_task_Returned in E.
  assert (Hx : In x (executable_tasks st)) by (apply Hexe; now left).
  assert (HP' : P st') by (eapply P_run; eauto).
  inversion Htodo as [|? ? Hxxs Hxs]; subst.
  destruct E as (task & result & rg & rd & _ & Hxr & _ & ->).
  unfold running; simpl. repeat split; auto.
  - now apply discard_NoDup.
  - intros y Hy. apply discard_In. split; [apply Hin; now right|].
    intros ->. contradiction.
  - intros y Hy. apply Hexe. now right.
  - pose proof (discard_length x _ Hxr). simpl in Hlen. lia.
Qed.

Lemma execution_preserves (st1 st2 : Sched R) :
  P st1 -> NoDup st1.(remaining_tasks) -> NoDup st1.(executable_tasks) ->
  incl st1.(executable_tasks) st1.(remaining_tasks) ->
  for_each (run_task T) (Py.sorted st1.(executable_tasks)) st1 = Returned st2 ->
  P st2 /\ NoDup st2.(remaining_tasks) /\
  List.length st2.(remaining_tasks) + List.length st1.(executable_tasks)
    <= List.length st1.(remaining_tasks).
Proof.
  intros HP Hrem Hexe Hsub E.
  apply (for_each_inv (run_task T)
           (running (List.length st1.(remaining_tasks))
                    (List.length st1.(executable_tasks)))
           (@running_step _ _)) in E.
  - destruct E as (? & ? & _ & _ & _ & Hlen). simpl in Hlen.
    repeat split; auto. lia.
  - unfold running. repeat split; auto.
    + now apply sorted_NoDup.
    + intros y Hy. apply Hsub. now apply sorted_In.
    + intros y. apply sorted_In.
    + rewrite (Permutation_length (sorted_perm _)). lia.
Qed.

Lemma round_preserves (st st' : Sched R) :
  NoDup st.(remaining_tasks) -> P st -> round T st = Returned (inr st') ->
  P st' /\ NoDup st'.(remaining_tasks) /\
  List.length st'.(remaining_tasks) < List.length st.(remaining_tasks).
Proof.
  intros Hrem HP E. unfold round in E. bind_inv E. rename a into st1.
  destruct (classification_preserves Hrem HP Ha) as (HP1 & Hr1 & He1 & Hs1 & Hl1).
  destruct (executable_tasks st1) as [|y ys] eqn:Ey.
  - bind_inv E. discriminate.
  - bind_inv E. inversion E; subst a. rewrite <- Ey in Ha0, He1, Hs1.
    destruct (@execution_preserves st1 st' HP1 Hr1 He1 Hs1 Ha0) as (? & ? & Hl).
    rewrite Ey in Hl. simpl in Hl. repeat split; auto. lia.
Qed.

Lemma loop_head_preserves (st0 st : Sched R) :
  NoDup st0.(remaining_tasks) -> P st0 -> loop_head T st0 st ->
  P st /\ NoDup st.(remaining_tasks).
Proof.
  intros Hrem HP. induction 1 as [|st st' _ IH E]; auto.
  destruct IH as [HPs Hr].
  destruct (round_preserves Hr HPs E) as (? & ? & _). auto.
Qed.

(** The state after the classification of the last pass: the loop ends
    either on its test, or by [break] after the stuck tasks are dead
    lettered. *)
Definition last_pass (st1 st' : Sched R) : Prop :=
  (st1.(remaining_tasks) = [] /\ st' = st1) \/
  (st1.(executable_tasks) = [] /\
   (exists st, P st /\ NoDup st.(remaining_tasks) /\
               classification T st = Returned st1) /\
   for_each dead_letter_stuck (Py.sorted st1.(remaining_tasks)) st1
     = Returned st').

Lemma while_remaining_final budget : forall (st st' : Sched R),
  NoDup st.(remaining_tasks) -> P st ->
  while_remaining T budget st = Returned st' ->
  exists st1, P st1 /\ NoDup st1.(remaining_tasks) /\ last_pass st1 st'.
Proof.
  induction budget as [|b IH]; intros st st' Hrem HP E; simpl in E.
  - destruct (remaining_tasks st) eqn:Er; [|discriminate].
    inversion E; subst. exists st'. repeat split; auto;
      [now rewrite Er | left; auto].
  - destruct (remaining_tasks st) as [|z zs] eqn:Er.
    + inversion E; subst. exists st'. repeat split; auto;
        [now rewrite Er | left; auto].
    + rewrite <- Er in Hrem. bind_inv E. destruct a as [stb|stc].
      * inversion E; subst stb. unfold round in Ha. bind_inv Ha.
        rename a into st1.
        destruct (classification_preserves Hrem HP Ha0) as (HP1 & Hr1 & _).
        destruct (executable_tasks st1) as [|y ys] eqn:Ey.
        -- bind_inv Ha. inversion Ha; subst a. exists st1.
           repeat split; auto. right. repeat split; eauto.
        -- bind_inv Ha. discriminate.
      * destruct (round_preserves Hrem HP Ha) as (? & ? & _). eauto.
Qed.

Lemma visits_inv {S : Type} (body : string -> S -> outcome S)
    (I : list string -> S -> Prop) :
  (forall x xs s s', I (x :: xs) s -> body x s = Returned s' -> I xs s') ->
  forall xs s y t, I xs s -> visits body xs s y t -> exists ys, I (y :: ys) t.
Proof.
  intros step xs s y t HI V. induction V as [x xs s|x xs s s' y t E V IH].
  - eauto.
  - apply IH. eapply step; eauto.
Qed.

(** When a task begins, the invariant holds and the task is a remaining
    task of the frontier. *)
Lemma task_begins_preserves (st0 : Sched R) x t :
  NoDup st0.(remaining_tasks) -> P st0 -> task_begins T st0 x t ->
  P t /\ In x t.(executable_tasks) /\ In x t.(remaining_tasks).
Proof.
  intros Hrem HP (st & st1 & Hhead & Hcl & _ & V).
  destruct (loop_head_preserves Hrem HP Hhead) as [HPs Hr].
  destruct (classification_preserves Hr HPs Hcl) as (HP1 & Hr1 & He1 & Hs1 & _).
  apply (@visits_inv _ (run_task T)
           (running (List.length st1.(remaining_tasks))
                    (List.length st1.(executable_tasks)))
           (@running_step _ _)) in V.
  - destruct V as (ys & HPt & _ & _ & Hin & Hexe & _).
    repeat split; auto; [apply Hexe | apply Hin]; now left.
  - unfold running. repeat split; auto.
    + now apply sorted_NoDup.
    + intros y Hy. apply Hs1. now apply sorted_In.
    + intros y. apply sorted_In.
    + rewrite (Permutation_length (sorted_perm _)). lia.
Qed.

End LoopInvariant.

(** ** The loop budget is enough *)

Definition converges {A : Type} (m : outcome A) : Prop := m <> Raised Diverged.

Lemma converges_bind {A B : Type} (m : outcome A) (k : A -> outcome B) :
  converges m -> (forall a, converges (k a)) -> converges (bind m k).
Proof.
  destruct m; simpl; intros Hm Hk; [apply Hk|].
  intros E. apply Hm. now inversion E.
Qed.

Lemma converges_for_each {S : Type} (body : string -> S -> outcome S) :
  (forall x s, converges (body x s)) ->
  forall xs s, converges (for_each body xs s).
Proof.
  intros Hb xs. induction xs as [|x xs IH]; intros s; simpl.
  - discriminate.
  - apply converges_bind; auto.
Qed.

Section Budget.

Context {py : Interpreter} {R : Type} {renderer_hooks : Renderer R}.

Variable T : Py.dict Task.

Lemma converges_add_failure d x reason c :
  converges (add_failure d x reason c).
Proof.
  unfold add_failure, deterministic_timestamp, Py.int_to_float.
  destruct (binary_normalize prec emax (dlq_seed d) 0 false);
    simpl; discriminate.
Qed.

Lemma converges_dead_letter x reason (st : Sched R) :
  converges (dead_letter x reason st).
Proof.
  unfold dead_letter. apply converges_bind.
  - apply converges_add_failure.
  - intros d. unfold Py.set_remove.
    destruct (Py.contains x (remaining_tasks st)); simpl; discriminate.
Qed.

Lemma converges_classify_task x (st : Sched R) :
  converges (classify_task T x st).
Proof.
  unfold classify_task, Py.getitem. destruct (Py.get x T) as [task|]; simpl.
  - destruct (check_dependencies T (current_context st) (dependencies task))
      as [[c m] f].
    destruct m; [destruct f; [destruct c; discriminate|]|];
      apply converges_dead_letter.
  - discriminate.
Qed.

Lemma converges_run_task x (st : Sched R) : converges (run_task T x st).
Proof.
  unfold run_task, Py.getitem. destruct (Py.get x T) as [task|]; simpl.
  - unfold Py.set_remove.
    destruct (Py.contains x (remaining_tasks st)); simpl; [|discriminate].
    destruct (_execute_task (sched_random st) task (current_context st)).
    discriminate.
  - discriminate.
Qed.

Lemma converges_round (st : Sched R) : converges (round T st).
Proof.
  unfold round. apply converges_bind.
  - apply converges_for_each, converges_classify_task.
  - intros st1. destruct (executable_tasks st1); apply converges_bind;
      try discriminate; apply converges_for_each.
    + intros x s. unfold dead_letter_stuck. apply converges_bind.
      * apply converges_add_failure.
      * discriminate.
    + apply converges_run_task.
Qed.

(** A pass that goes round again removes a name from [remaining_tasks],
    so the budget of [_execute_tasks] is never exhausted. *)
Lemma while_remaining_converges budget : forall (st : Sched R),
  NoDup st.(remaining_tasks) ->
  List.length st.(remaining_tasks) <= budget ->
  converges (while_remaining T budget st).
Proof.
  induction budget as [|b IH]; intros st Hrem Hlen; simpl.
  - destruct (remaining_tasks st); simpl in *; [discriminate | lia].
  - destruct (remaining_tasks st) as [|z zs] eqn:Er; [discriminate|].
    rewrite <- Er in *. pose proof (converges_round st) as Hc.
    destruct (round T st) as [[stb|stc]|e] eqn:E; simpl; auto.
    + discriminate.
    + destruct (@round_preserves _ _ _ T (fun _ => True)) with (st := st) (st' := stc)
        as (_ & Hr & Hl); auto.
      apply IH; auto. lia.
    + intros Eq. apply Hc. now inversion Eq.
Qed.

End Budget.

(** ** The invariant of a run *)

Lemma discard_absent x s : ~ In x s -> Py.discard x s = s.
Proof.
  unfold Py.discard. induction s as [|y s IH]; simpl; auto.
  intros N. destruct (String.eqb_spec x y); simpl.
  - subst. exfalso. apply N. now left.
  - rewrite IH; tauto.
Qed.

Lemma discard_perm x s :
  NoDup s -> In x s -> Permutation (x :: Py.discard x s) s.
Proof.
  induction 1 as [|y s Hy Hs IH]; simpl; [tauto|].
  intros [->|Hx].
  - rewrite String.eqb_refl. simpl.
    fold (Py.discard x s). now rewrite discard_absent.
  - destruct (String.eqb_spec x y); simpl.
    + subst. contradiction.
    + fold (Py.discard x s). rewrite perm_swap. constructor. auto.
Qed.

Lemma NoDup_app_disjoint {A : Type} (l1 l2 : list A) x :
  NoDup (l1 ++ l2) -> In x l1 -> ~ In x l2.
Proof.
  induction l1 as [|y l1 IH]; simpl; [tauto|].
  intros H [->|Hx] Hx2; inversion H; subst.
  - apply H2. apply in_app_iff. now right.
  - now apply IH.
Qed.

Lemma stamped_snoc s entries e :
  stamped s entries ->
  deterministic_timestamp s (List.length entries) = Returned e.(dlq_timestamp) ->
  stamped s (entries ++ [e]).
Proof.
  intros Hs He n e' Hn.
  destruct (Nat.lt_ge_cases n (List.length entries)) as [Hlt|Hge].
  - rewrite nth_error_app1 in Hn by exact Hlt. now apply Hs.
  - rewrite nth_error_app2 in Hn by exact Hge.
    destruct (n - List.length entries) as [|k] eqn:Ek; simpl in Hn.
    + inversion Hn; subst. replace n with (List.length entries) by lia. exact He.
    + destruct k; discriminate.
Qed.

Lemma dlq_ok_add_failure s d x reason d' :
  dlq_ok s d -> add_failure d x reason None = Returned d' -> dlq_ok s d'.
Proof.
  intros (Hs & Hc & Hst) E. apply add_failure_Returned in E.
  destruct E as (ts & Hts & ->). unfold dlq_ok; simpl.
  rewrite length_app. simpl. repeat split; auto; [lia|].
  apply stamped_snoc; auto. simpl. now rewrite <- Hc, <- Hs.
Qed.

Section RunInvariant.

Context {py : Interpreter} {R : Type} {renderer_hooks : Renderer R}.

Variable T : Py.dict Task.
Hypothesis T_distinct : NoDup (Py.keys T).

Variable s : Z.

Lemma partition_NoDup (st : Sched R) :
  store_partition T st ->
  NoDup (executed st ++ dead_names st ++ st.(remaining_tasks)).
Proof.
  intros [Hp _]. eapply Permutation_NoDup; [symmetry; exact Hp | exact T_distinct].
Qed.

Lemma partition_remaining_NoDup (st : Sched R) :
  store_partition T st -> NoDup st.(remaining_tasks).
Proof.
  intros H. apply partition_NoDup in H.
  apply NoDup_app_remove_l in H. now apply NoDup_app_remove_l in H.
Qed.

Lemma partition_remaining_fresh (st : Sched R) x :
  store_partition T st -> In x st.(remaining_tasks) ->
  ~ In x (executed st) /\ ~ In x (dead_names st).
Proof.
  intros H Hx. apply partition_NoDup in H.
  split; intros Hin.
  - eapply NoDup_app_disjoint; [exact H | exact Hin |].
    apply in_app_iff. now right.
  - apply NoDup_app_remove_l in H.
    eapply NoDup_app_disjoint; [exact H | exact Hin | exact Hx].
Qed.

Lemma partition_dead_lettered x reason (st st' : Sched R) :
  store_partition T st -> dead_lettered x reason st st' ->
  store_partition T st'.
Proof.
  intros H (ts & _ & Hx & ->). pose proof (partition_remaining_NoDup H) as Hr.
  destruct H as [Hp Hk]. split; [|exact Hk].
  unfold executed, dead_names, dlq_names in *; simpl.
  rewrite map_app. simpl. rewrite <- app_assoc. simpl.
  now rewrite (@discard_perm x _ Hr Hx).
Qed.

Lemma dlq_ok_dead_lettered x reason (st st' : Sched R) :
  dlq_ok s st.(sched_dlq) -> dead_lettered x reason st st' ->
  dlq_ok s st'.(sched_dlq).
Proof.
  intros (Hs & Hc & Hst) (ts & Hts & _ & ->). unfold dlq_ok; simpl.
  rewrite length_app. simpl. repeat split; auto; [lia|].
  apply stamped_snoc; auto. simpl. now rewrite <- Hc, <- Hs.
Qed.

Lemma gated_of_completed ctx x task :
  Py.get x T = Some task -> dependencies_completed T ctx task = true ->
  gated T ctx x.
Proof.
  intros Hget Hc task' Hget' dep Hdep.
  rewrite Hget in Hget'. inversion Hget'; subst task'.
  unfold dependencies_completed in Hc. rewrite forallb_forall in Hc.
  apply Hc in Hdep. apply andb_true_iff in Hdep.
  destruct Hdep as [Hm ?]. split; auto. now apply get_In_keys.
Qed.

Lemma inv_start (st : Sched R) :
  scheduler_inv T s st -> scheduler_inv T s (start_round st).
Proof.
  intros [[Hp Hk] Hg Hd]. split; auto.
  - split; auto.
  - intros x [].
Qed.

Lemma inv_classify x (st st' : Sched R) :
  scheduler_inv T s st -> classified T x st st' -> scheduler_inv T s st'.
Proof.
  intros [Hp Hg Hd] C.
  assert (Hdead : forall reason, dead_lettered x reason st st' ->
                                 scheduler_inv T s st').
  { intros reason D. split.
    - eapply partition_dead_lettered; eauto.
    - destruct D as (ts & _ & _ & ->). intros y Hy Hr. simpl in *.
      apply discard_In in Hr. apply Hg; tauto.
    - eapply dlq_ok_dead_lettered; eauto. }
  destruct C as [task _ _ D | task _ _ _ D
                | task Hget _ _ Hc -> | task _ _ _ _ ->]; eauto.
  - split; [destruct Hp; split; auto | | exact Hd].
    intros y Hy Hr. simpl in *.
    apply in_app_iff in Hy. destruct Hy as [Hy|[<-|[]]]; auto.
    eapply gated_of_completed; eauto.
  - split; auto.
Qed.

Lemma completed_after_set (ctx : ExecutionContext) x result dep results' :
  ~ In x (Py.keys ctx.(task_results)) ->
  is_task_completed ctx dep = true ->
  is_task_completed
    (mkExecutionContext ctx.(seed) (Py.set x result ctx.(task_results))
                        results' ctx.(dlq)) dep = true.
Proof.
  unfold is_task_completed; simpl. intros Hx Hc.
  destruct (Py.get dep (task_results ctx)) as [r|] eqn:E; [|discriminate].
  rewrite get_set_other; [now rewrite E|].
  intros ->. apply Hx. eapply get_Some_keys; eauto.
Qed.

Lemma inv_run x (st st' : Sched R) :
  scheduler_inv T s st -> executed_task T x st st' -> scheduler_inv T s st'.
Proof.
  intros [Hp Hg Hd] (task & result & rg & rd & Hget & Hx & _ & ->).
  pose proof (partition_remaining_NoDup Hp) as Hr.
  destruct (partition_remaining_fresh _ Hp Hx) as [Hne _].
  destruct Hp as [Hp Hk]. rewrite <- Hk in Hne.
  split; simpl.
  - split; unfold executed, dead_names in *; simpl.
    + rewrite <- app_assoc. simpl. rewrite <- Hp.
      apply Permutation_app_head. rewrite Permutation_middle.
      now rewrite (@discard_perm x _ Hr Hx).
    + rewrite keys_set.
      destruct (Py.mem x (task_results (current_context st))) eqn:Em.
      * apply get_In_keys in Em. contradiction.
      * now rewrite Hk.
  - intros y Hy Hyr. simpl in *. apply discard_In in Hyr.
    destruct Hyr as [Hyr _]. intros task' Hget' dep Hdep.
    destruct (Hg y Hy Hyr task' Hget' dep Hdep) as [Hin Hc].
    split; auto. now apply completed_after_set.
  - exact Hd.
Qed.

(** *** The rule, with the invariant at hand *)

Variable Q : Sched R -> Prop.

Hypothesis Q_start : forall st,
  scheduler_inv T s st -> Q st -> Q (start_round st).

Hypothesis Q_classify : forall x st st',
  scheduler_inv T s st -> Q st ->
  In x st.(remaining_tasks) -> ~ In x st.(executable_tasks) ->
  classified T x st st' -> Q st'.

Hypothesis Q_run : forall x st st',
  scheduler_inv T s st -> Q st ->
  In x st.(executable_tasks) -> gated T st.(current_context) x ->
  executed_task T x st st' -> Q st'.

Definition run_inv (st : Sched R) : Prop := scheduler_inv T s st /\ Q st.

Lemma run_inv_start st : run_inv st -> run_inv (start_round st).
Proof. intros [HI HQ]. split; [now apply inv_start | now apply Q_start]. Qed.

Lemma run_inv_classify x st st' :
  run_inv st -> In x st.(remaining_tasks) -> ~ In x st.(executable_tasks) ->
  classified T x st st' -> run_inv st'.
Proof.
  intros [HI HQ] Hx Hnx C. split; [eapply inv_classify | eapply Q_classify]; eauto.
Qed.

Lemma run_inv_run x st st' :
  run_inv st -> In x st.(executable_tasks) -> executed_task T x st st' ->
  run_inv st'.
Proof.
  intros [HI HQ] Hx E. split; [eapply inv_run; eauto|].
  eapply Q_run; eauto. apply (inv_gated HI); auto.
  destruct E as (? & ? & ? & ? & _ & Hr & _). exact Hr.
Qed.

Lemma run_inv_loop_head (st0 st : Sched R) :
  run_inv st0 -> loop_head T st0 st -> run_inv st.
Proof.
  intros H0 H.
  eapply (@loop_head_preserves _ _ _ T run_inv); eauto using
    run_inv_start, run_inv_classify, run_inv_run.
  apply partition_remaining_NoDup. apply H0.
Qed.

Lemma run_inv_begins (st0 : Sched R) x t :
  run_inv st0 -> task_begins T st0 x t ->
  run_inv t /\ In x t.(executable_tasks) /\ In x t.(remaining_tasks) /\
  gated T t.(current_context) x.
Proof.
  intros H0 B.
  destruct (@task_begins_preserves _ _ _ T run_inv run_inv_start
              run_inv_classify run_inv_run st0 x t) as (Ht & Hx & Hr); auto.
  { apply partition_remaining_NoDup. apply H0. }
  split; [exact Ht|]. split; [exact Hx|]. split; [exact Hr|].
  apply (inv_gated (proj1 Ht)); auto.
Qed.

Lemma run_inv_final budget (st0 st' : Sched R) :
  run_inv st0 -> while_remaining T budget st0 = Returned st' ->
  exists st1, run_inv st1 /\ last_pass T run_inv st1 st'.
Proof.
  intros H0 E.
  destruct (@while_remaining_final _ _ _ T run_inv run_inv_start
              run_inv_classify run_inv_run budget st0 st') as (st1 & ? & _ & ?);
    eauto.
  apply partition_remaining_NoDup. apply H0.
Qed.

End RunInvariant.

(** ** The classification and the deadlock pass, in closed form *)

Section Passes.

Context {py : Interpreter} {R : Type} {renderer_hooks : Renderer R}.

Variable T : Py.dict Task.

(** A name the classification leaves in [remaining_tasks] has no
    missing and no failed dependency, and is in the frontier when its
    dependencies are completed. *)
Definition kept (st : Sched R) (y : string) : Prop :=
  exists task,
    Py.get y T = Some task /\
    missing_dependencies T task = [] /\
    failed_dependencies T st.(current_context) task = [] /\
    (dependencies_completed T st.(current_context) task = true ->
     In y st.(executable_tasks)).

Definition classified_so_far (ctx : ExecutionContext) (todo : list string)
    (st : Sched R) : Prop :=
  st.(current_context) = ctx /\
  forall y, In y st.(remaining_tasks) -> In y todo \/ kept st y.

Lemma classified_so_far_step ctx x xs (st st' : Sched R) :
  classified_so_far ctx (x :: xs) st -> classify_task T x st = Returned st' ->
  classified_so_far ctx xs st'.
Proof.
  intros [Hctx Hk] E. apply classify_task_Returned in E.
  assert (Hdead : forall reason, dead_lettered x reason st st' ->
                                 classified_so_far ctx xs st').
  { intros reason (ts & _ & _ & ->). split; simpl; auto.
    intros y Hy. apply discard_In in Hy. destruct Hy as [Hy Hne].
    destruct (Hk y Hy) as [[->|Hin]|K]; [congruence | now left | now right]. }
  destruct E as [task _ _ D | task _ _ _ D
                | task Hget Hm Hf Hc -> | task Hget Hm Hf Hc ->]; eauto.
  - split; simpl; auto. intros y Hy.
    destruct (Hk y Hy) as [[<-|Hin]|(task' & ? & ? & ? & Hi)]; auto; right.
    + exists task. simpl. repeat split; auto.
      intros _. apply in_app_iff. right. now left.
    + exists task'. simpl. repeat split; auto.
      intros Hc'. apply in_app_iff. left. auto.
  - split; auto. intros y Hy.
    destruct (Hk y Hy) as [[<-|Hin]|K]; auto; right.
    exists task. repeat split; auto. congruence.
Qed.

Lemma classification_post (st st1 : Sched R) :
  classification T st = Returned st1 ->
  st1.(current_context) = st.(current_context) /\
  forall y, In y st1.(remaining_tasks) -> kept st1 y.
Proof.
  intros E. unfold classification in E.
  apply (for_each_inv (classify_task T)
           (classified_so_far st.(current_context))
           (@classified_so_far_step _)) in E.
  - destruct E as [Hc Hk]. split; auto.
    intros y Hy. destruct (Hk y Hy) as [[]|K]; auto.
  - split; auto. simpl. intros y Hy. left. now apply sorted_In.
Qed.

(** What the deadlock loop (lines 221-226) appends to the queue. *)
Definition stuck_entries (es : list DLQEntry) (xs : list string) : Prop :=
  dlq_names es = xs /\
  Forall (fun e => e.(dlq_reason) = circular_reason) es.

Lemma dead_letter_stuck_all xs : forall (st st' : Sched R),
  for_each dead_letter_stuck xs st = Returned st' ->
  st'.(current_context) = st.(current_context) /\
  st'.(remaining_tasks) = st.(remaining_tasks) /\
  st'.(sched_random) = st.(sched_random) /\
  (forall s, dlq_ok s st.(sched_dlq) -> dlq_ok s st'.(sched_dlq)) /\
  exists es,
    st'.(sched_dlq).(failures) = st.(sched_dlq).(failures) ++ es /\
    stuck_entries es xs.
Proof.
  induction xs as [|x xs IH]; intros st st' E; simpl in E.
  - inversion E; subst. do 3 (split; [reflexivity|]). split; [auto|].
    exists []. rewrite app_nil_r. split; [reflexivity|].
    split; [reflexivity | constructor].
  - bind_inv E. unfold dead_letter_stuck in Ha. bind_inv Ha.
    inversion Ha; subst a. clear Ha.
    destruct (IH _ _ E) as (Hc & Hr & Hg & Hd & es & Hes & Hn & Hf).
    simpl in *. do 3 (split; [assumption|]). split.
    + intros s Hs. apply Hd. eapply dlq_ok_add_failure; eauto.
    + apply add_failure_Returned in Ha0. destruct Ha0 as (ts & _ & ->).
      simpl in Hes. rewrite <- app_assoc in Hes. simpl in Hes.
      eexists. split; [exact Hes|]. split; simpl.
      * now rewrite Hn.
      * constructor; auto.
Qed.

End Passes.

(** ** From the loop to the report *)

Section RunRule.

Context {py : Interpreter} {R : Type} {renderer_hooks : Renderer R}.

Lemma add_task_keys_NoDup (e : PipelineEngine) task :
  NoDup (Py.keys e.(tasks)) -> NoDup (Py.keys (add_task e task).(tasks)).
Proof. intros H. simpl. now apply keys_set_NoDup. Qed.

Lemma parse_config_keys_NoDup (e : PipelineEngine) config :
  NoDup (Py.keys e.(tasks)) -> NoDup (Py.keys (_parse_config e config).(tasks)).
Proof.
  unfold _parse_config. generalize (get_default (cfg_tasks config) []).
  intros l. revert e. induction l as [|c l IH]; intros e H; simpl; auto.
  apply IH. now apply add_task_keys_NoDup.
Qed.

(** [_parse_config] reads and writes the task store only. *)
Lemma parse_config_tasks (e e' : PipelineEngine) config :
  e.(tasks) = e'.(tasks) ->
  (_parse_config e config).(tasks) = (_parse_config e' config).(tasks).
Proof.
  unfold _parse_config. generalize (get_default (cfg_tasks config) []).
  intros l. revert e e'. induction l as [|c l IH]; intros e e' H; simpl; auto.
  apply IH. simpl. now rewrite H.
Qed.

Variable self : PipelineEngine.
Variable config : Config.
Hypothesis self_dict : NoDup (Py.keys self.(tasks)).

Local Abbreviation run_seed := (run_seed config).
Local Abbreviation run_store := (run_store self config).
Local Abbreviation run_initial := (run_initial self config).
Local Abbreviation reports := (reports self config).

Lemma run_store_NoDup : NoDup (Py.keys run_store).
Proof. now apply parse_config_keys_NoDup. Qed.

Lemma run_initial_inv (renderer : option R) :
  scheduler_inv run_store run_seed (run_initial renderer).
Proof.
  split.
  - split; unfold executed, dead_names; simpl; reflexivity.
  - intros x [].
  - repeat split. intros [|n] e H; discriminate.
Qed.

Lemma run_Returned (renderer : option R) rep self' renderer' :
  run self config renderer = Returned (rep, self', renderer') ->
  exists st,
    while_remaining run_store (List.length (Py.keys run_store))
                    (run_initial renderer) = Returned st /\
    reports rep st /\ self'.(tasks) = run_store /\
    renderer' = st.(sched_renderer).
Proof.
  unfold run. intros E. bind_inv E. unfold _execute_tasks in Ha. bind_inv Ha.
  rename a0 into st. inversion Ha; subst a; clear Ha. simpl in E.
  inversion E; subst; clear E.
  assert (Et : tasks (_parse_config
                        {| tasks := tasks self;
                           dlq_system := Some (DLQSystem_init run_seed);
                           random_generator :=
                             Some (DeterministicRandom_init run_seed) |}
                        config) = run_store)
    by (apply parse_config_tasks; reflexivity).
  fold run_seed in Ha0. rewrite Et in Ha0.
  exists st. split; [exact Ha0|]. simpl. fold run_seed. rewrite Et.
  repeat split; reflexivity.
Qed.

Section WithInvariant.

Variable Q : Sched R -> Prop.

Hypothesis Q_start : forall st,
  scheduler_inv run_store run_seed st -> Q st -> Q (start_round st).

Hypothesis Q_classify : forall x st st',
  scheduler_inv run_store run_seed st -> Q st ->
  In x st.(remaining_tasks) -> ~ In x st.(executable_tasks) ->
  classified run_store x st st' -> Q st'.

Hypothesis Q_run : forall x st st',
  scheduler_inv run_store run_seed st -> Q st ->
  In x st.(executable_tasks) -> gated run_store st.(current_context) x ->
  executed_task run_store x st st' -> Q st'.

(** The end of a run: [st1] is the state after the last classification,
    where the invariant and [Q] hold; the names still remaining there
    are stuck and were appended to the queue in sorted order. *)
Record run_end (rep : Report) (st1 st' : Sched R) : Prop := {
  end_inv : scheduler_inv run_store run_seed st1;
  end_Q : Q st1;
  end_reports : reports rep st';
  end_context : st'.(current_context) = st1.(current_context);
  end_kept : forall y, In y st1.(remaining_tasks) ->
             kept run_store st1 y /\ st1.(executable_tasks) = [];
  end_stuck : exists es,
      st'.(sched_dlq).(failures) = st1.(sched_dlq).(failures) ++ es /\
      stuck_entries es (Py.sorted st1.(remaining_tasks));
  end_dlq : dlq_ok run_seed st'.(sched_dlq);
  end_partition :
    Permutation (executed st' ++ dead_names st') (Py.keys run_store)
}.

Lemma run_rule (renderer : option R) rep self' renderer' :
  Q (run_initial renderer) ->
  run self config renderer = Returned (rep, self', renderer') ->
  exists st1 st', run_end rep st1 st'.
Proof.
  intros Q0 E. apply run_Returned in E.
  destruct E as (st' & E & Hrep & _ & _).
  destruct (run_inv_final run_store_NoDup Q_start Q_classify Q_run _
              (conj (run_initial_inv renderer) Q0) E)
    as (st1 & [HI HQ] & L).
  exists st1, st'.
  assert (Hfin : st'.(current_context) = st1.(current_context) /\
                 (forall s, dlq_ok s st1.(sched_dlq) -> dlq_ok s st'.(sched_dlq)) /\
                 (forall y, In y st1.(remaining_tasks) ->
                            kept run_store st1 y /\ st1.(executable_tasks) = []) /\
                 exists es,
                   st'.(sched_dlq).(failures) = st1.(sched_dlq).(failures) ++ es /\
                   stuck_entries es (Py.sorted st1.(remaining_tasks))).
  { destruct L as [[Hr ->]|(He & (st & _ & _ & Hcl) & Hst)].
    - split; [reflexivity|]. split; [auto|]. split.
      + intros y Hy. rewrite Hr in Hy. destruct Hy.
      + exists []. rewrite app_nil_r, Hr. repeat split. constructor.
    - destruct (dead_letter_stuck_all _ _ Hst) as (Hc & _ & _ & Hd & Hes).
      destruct (classification_post _ _ Hcl) as [_ Hk].
      split; [exact Hc|]. split; [exact Hd|]. split; [|exact Hes].
      intros y Hy. split; [now apply Hk | exact He]. }
  destruct Hfin as (Hc & Hd & Hk & es & Hes & Hst).
  split; auto.
  - exists es. auto.
  - apply Hd, HI.
  - destruct HI as [[Hp _] _ _]. unfold executed, dead_names in *.
    rewrite Hc, Hes. unfold dlq_names in *. rewrite map_app.
    destruct Hst as [Hn _]. unfold dlq_names in Hn. rewrite Hn, <- Hp.
    apply Permutation_app_head, Permutation_app_head, sorted_perm.
Qed.

End WithInvariant.

End RunRule.

(** ** Order of binary64 numbers *)

Lemma SFcompare_antisym x y :
  SFcompare y x = option_map CompOpp (SFcompare x y).
Proof.
  destruct x as [sx|sx| |sx mx ex], y as [sy|sy| |sy my ey]; simpl;
    try reflexivity;
    try (destruct sx; reflexivity); try (destruct sy; reflexivity);
    try (destruct sx, sy; reflexivity).
  destruct sx, sy; simpl; try reflexivity;
    rewrite (Z.compare_antisym ex ey);
    destruct (ex ?= ey)%Z; simpl; try reflexivity;
    change Eq with (CompOpp Eq) at 1;
    rewrite <- (Pos.compare_cont_antisym mx my Eq); simpl;
    try reflexivity; now rewrite CompOpp_involutive.
Qed.

Lemma ltb_asym x y :
  PrimFloat.ltb x y = true -> PrimFloat.ltb y x = false.
Proof.
  rewrite !ltb_spec. unfold SFltb.
  rewrite (SFcompare_antisym (Prim2SF x) (Prim2SF y)).
  destruct (SFcompare (Prim2SF x) (Prim2SF y)) as [[]|]; simpl; congruence.
Qed.


(** Above or at [x], a number is strictly above exactly when it is not
    equal to [x]. *)
Lemma leb_ltb_eqb x y :
  PrimFloat.leb x y = true ->
  (PrimFloat.ltb x y = true <-> PrimFloat.eqb x y = false).
Proof.
  rewrite leb_spec, ltb_spec, eqb_spec. unfold SFleb, SFltb, SFeqb.
  destruct (SFcompare (Prim2SF x) (Prim2SF y)) as [[]|]; simpl;
    intuition congruence.
Qed.

Unset Implicit Arguments.

(** ** Facts about every run *)

Section EveryRun.

Context {py : Interpreter} {R : Type} {renderer_hooks : Renderer R}.

Variable self : PipelineEngine.
Variable config : Config.
Hypothesis self_dict : NoDup (Py.keys self.(tasks)).

Lemma run_facts (renderer : option R) rep self' renderer' :
  run self config renderer = Returned (rep, self', renderer') ->
  exists st1 st' : Sched R,
    run_end self config (fun _ => True) rep st1 st'.
Proof.
  intros E. eapply run_rule; eauto.
Qed.

End EveryRun.

(** ** A run returns *)

Lemma for_each_returns {S : Type} (body : string -> S -> outcome S)
    (I : list string -> S -> Prop) :
  (forall x xs s, I (x :: xs) s -> exists s', body x s = Returned s') ->
  (forall x xs s s', I (x :: xs) s -> body x s = Returned s' -> I xs s') ->
  forall xs s, I xs s -> exists s', for_each body xs s = Returned s'.
Proof.
  intros prog step xs. induction xs as [|x xs IH]; intros s HI; simpl.
  - eauto.
  - destruct (prog x xs s HI) as (s1 & E1). rewrite E1. simpl.
    apply IH. eapply step; eauto.
Qed.

Section Returns.

Context {py : Interpreter} {R : Type} {renderer_hooks : Renderer R}.

Variable T : Py.dict Task.
Hypothesis T_distinct : NoDup (Py.keys T).

Variable s : Z.
Variable seed_float : float.
Hypothesis seed_converts : Py.int_to_float s = Returned seed_float.

Lemma add_failure_returns d x reason :
  d.(dlq_seed) = s -> exists d', add_failure d x reason None = Returned d'.
Proof.
  intros Hs. unfold add_failure, deterministic_timestamp.
  rewrite Hs, seed_converts. simpl. eauto.
Qed.

Lemma remaining_in_store (st : Sched R) x :
  scheduler_inv T s st -> In x st.(remaining_tasks) ->
  exists task, Py.get x T = Some task.
Proof.
  intros [[Hp _] _ _] Hx.
  assert (Hk : In x (Py.keys T)).
  { apply (Permutation_in _ Hp). apply in_app_iff. right.
    apply in_app_iff. now right. }
  apply get_In_keys in Hk. unfold Py.mem in Hk.
  destruct (Py.get x T) as [task|]; [eauto | discriminate].
Qed.

Lemma dead_letter_returns x reason (st : Sched R) :
  scheduler_inv T s st -> In x st.(remaining_tasks) ->
  exists st', dead_letter x reason st = Returned st'.
Proof.
  intros HI Hx. unfold dead_letter.
  destruct (add_failure_returns st.(sched_dlq) x reason) as (d & ->);
    [apply HI|].
  simpl. rewrite (set_remove_In _ _ Hx). simpl. eauto.
Qed.

Lemma classify_task_returns x (st : Sched R) :
  scheduler_inv T s st -> In x st.(remaining_tasks) ->
  exists st', classify_task T x st = Returned st'.
Proof.
  intros HI Hx. unfold classify_task.
  destruct (remaining_in_store st x HI Hx) as (task & Hget).
  unfold Py.getitem. rewrite Hget. simpl.
  destruct (check_dependencies T (current_context st) (dependencies task))
    as [[c m] f].
  destruct m; [destruct f; [destruct c; eauto|]|];
    now apply dead_letter_returns.
Qed.

Lemma run_task_returns x (st : Sched R) :
  scheduler_inv T s st -> In x st.(remaining_tasks) ->
  exists st', run_task T x st = Returned st'.
Proof.
  intros HI Hx. unfold run_task.
  destruct (remaining_in_store st x HI Hx) as (task & Hget).
  unfold Py.getitem. rewrite Hget. simpl.
  rewrite (set_remove_In _ _ Hx). simpl.
  destruct (_execute_task (sched_random st) task (current_context st)).
  eauto.
Qed.

Lemma inv_classify_step x (st st' : Sched R) :
  scheduler_inv T s st -> In x st.(remaining_tasks) ->
  ~ In x st.(executable_tasks) -> classified T x st st' ->
  scheduler_inv T s st'.
Proof. intros HI _ _ C. eapply inv_classify; eauto. Qed.

Lemma inv_run_step x (st st' : Sched R) :
  scheduler_inv T s st -> In x st.(executable_tasks) ->
  executed_task T x st st' -> scheduler_inv T s st'.
Proof. intros HI _ C. eapply inv_run; eauto. Qed.

Lemma classification_returns (st : Sched R) :
  scheduler_inv T s st -> exists st1, classification T st = Returned st1.
Proof.
  intros HI. unfold classification.
  apply (for_each_returns (classify_task T)
           (classifying (scheduler_inv T s) (List.length st.(remaining_tasks)))).
  - intros x xs st0 (HP & _ & _ & Hin & _).
    apply classify_task_returns; auto. apply Hin. now left.
  - intros x xs st0 st0'. apply (classifying_step inv_classify_step).
  - unfold classifying; simpl.
    pose proof (partition_remaining_NoDup T_distinct (inv_partition HI)) as Hr.
    split; [now apply inv_start|]. split; [exact Hr|].
    split; [now apply sorted_NoDup|]. split; [intros y; apply sorted_In|].
    split; [constructor|]. split; [intros y []|]. split; [intros y _ []|].
    apply le_n.
Qed.

Lemma execution_returns (st1 : Sched R) :
  scheduler_inv T s st1 -> NoDup st1.(executable_tasks) ->
  incl st1.(executable_tasks) st1.(remaining_tasks) ->
  exists st2,
    for_each (run_task T) (Py.sorted st1.(executable_tasks)) st1 = Returned st2.
Proof.
  intros HI He Hs.
  apply (for_each_returns (run_task T)
           (running (scheduler_inv T s) (List.length st1.(remaining_tasks))
                    (List.length st1.(executable_tasks)))).
  - intros x xs st0 (HP & _ & _ & Hin & _).
    apply run_task_returns; auto. apply Hin. now left.
  - intros x xs st0 st0'. apply (running_step inv_run_step).
  - unfold running.
    pose proof (partition_remaining_NoDup T_distinct (inv_partition HI)) as Hr.
    split; [exact HI|]. split; [exact Hr|].
    split; [now apply sorted_NoDup|].
    split; [intros y Hy; apply Hs; now apply sorted_In|].
    split; [intros y; apply sorted_In|].
    rewrite (Permutation_length (sorted_perm _)). apply Nat.le_refl.
Qed.

Lemma dead_letter_stuck_returns xs : forall (st : Sched R),
  st.(sched_dlq).(dlq_seed) = s ->
  exists st', for_each dead_letter_stuck xs st = Returned st'.
Proof.
  induction xs as [|x xs IH]; intros st Hs; simpl; [eauto|].
  unfold dead_letter_stuck at 1.
  destruct (add_failure_returns st.(sched_dlq) x circular_reason Hs)
    as (d & Hd).
  rewrite Hd. simpl. apply IH. simpl.
  apply add_failure_Returned in Hd. destruct Hd as (ts & _ & ->). exact Hs.
Qed.

Lemma round_returns (st : Sched R) :
  scheduler_inv T s st -> exists r, round T st = Returned r.
Proof.
  intros HI. unfold round.
  destruct (classification_returns st HI) as (st1 & Hc). rewrite Hc. simpl.
  destruct (classification_preserves (scheduler_inv T s)
              (fun st0 => @inv_start _ _ T s st0) inv_classify_step st
              (partition_remaining_NoDup T_distinct (inv_partition HI)) HI Hc)
    as (HI1 & _ & He1 & Hs1 & _).
  destruct (executable_tasks st1) as [|y ys] eqn:Ey.
  - destruct (dead_letter_stuck_returns (Py.sorted st1.(remaining_tasks)) st1)
      as (st2 & ->); [apply HI1|]. simpl. eauto.
  - rewrite <- Ey in *.
    destruct (execution_returns st1 HI1 He1 Hs1) as (st2 & ->). simpl. eauto.
Qed.

Lemma while_remaining_returns budget : forall (st : Sched R),
  scheduler_inv T s st -> List.length st.(remaining_tasks) <= budget ->
  exists st', while_remaining T budget st = Returned st'.
Proof.
  induction budget as [|n IH]; intros st HI Hl; simpl.
  - destruct (remaining_tasks st); simpl in Hl; [eauto | lia].
  - destruct (remaining_tasks st) as [|z zs] eqn:Ez; [eauto|].
    rewrite <- Ez in Hl.
    destruct (round_returns st HI) as ([stb|stc] & Hr); rewrite Hr; simpl;
      [eauto|].
    destruct (round_preserves (scheduler_inv T s)
                (fun st0 => @inv_start _ _ T s st0) inv_classify_step
                inv_run_step st
                (partition_remaining_NoDup T_distinct (inv_partition HI)) HI Hr)
      as (HIc & _ & Hlt).
    apply IH; auto. lia.
Qed.

End Returns.


(** Whatever the seed, a run does not exhaust the loop budget. *)
Lemma run_converges {py : Interpreter} {R : Type}
    {renderer_hooks : Renderer R} (self : PipelineEngine) (config : Config)
    (renderer : option R) :
  NoDup (Py.keys self.(tasks)) -> converges (run self config renderer).
Proof.
  intros Hd. unfold run. apply converges_bind; [|discriminate].
  unfold _execute_tasks. apply converges_bind; [|discriminate].
  apply while_remaining_converges.
  - simpl. now apply parse_config_keys_NoDup.
  - apply Nat.le_refl.
Qed.

(** ** What a report lists *)

Lemma get_In {V : Type} k (d : Py.dict V) v : Py.get k d = Some v -> In (k, v) d.
Proof.
  induction d as [|[k' v'] d IH]; simpl; [discriminate|].
  destruct (String.eqb_spec k' k).
  - intros E. inversion E. subst. now left.
  - intros E. right. auto.
Qed.

Lemma names_with_status_In s (results : Py.dict TaskResult) x r :
  Py.get x results = Some r -> r.(status) = s ->
  In x (names_with_status s results).
Proof.
  intros Hget Hs. unfold names_with_status.
  apply in_map_iff. exists (x, r). split; auto.
  apply filter_In. split; [now apply get_In|].
  simpl. rewrite Hs. now destruct s.
Qed.

Lemma TaskStatus_eqb_eq a b : TaskStatus_eqb a b = true <-> a = b.
Proof. destruct a, b; simpl; split; congruence. Qed.

Lemma is_task_failed_In (ctx : ExecutionContext) x :
  is_task_failed ctx x = true ->
  In x (names_with_status FAILED ctx.(task_results)) /\
  In x (Py.keys ctx.(task_results)).
Proof.
  unfold is_task_failed.
  destruct (Py.get x (task_results ctx)) as [r|] eqn:E; [|discriminate].
  intros H. apply TaskStatus_eqb_eq in H. split.
  - eapply names_with_status_In; eauto.
  - eapply get_Some_keys; eauto.
Qed.

Lemma is_task_completed_In (ctx : ExecutionContext) x :
  is_task_completed ctx x = true ->
  In x (names_with_status COMPLETED ctx.(task_results)) /\
  In x (Py.keys ctx.(task_results)).
Proof.
  unfold is_task_completed.
  destruct (Py.get x (task_results ctx)) as [r|] eqn:E; [|discriminate].
  intros H. apply TaskStatus_eqb_eq in H. split.
  - eapply names_with_status_In; eauto.
  - eapply get_Some_keys; eauto.
Qed.

(** The dead letter queue and the execution order of a report share no
    name, and none is repeated. *)
Lemma partition_count (l1 l2 keys : list string) x :
  NoDup keys -> Permutation (l1 ++ l2) keys -> In x keys ->
  (In x l1 -> ~ In x l2) /\
  (~ In x l1 -> count_occ string_dec l2 x = 1).
Proof.
  intros Hk Hp Hx.
  assert (Hn : NoDup (l1 ++ l2))
    by (eapply Permutation_NoDup; [symmetry; exact Hp | exact Hk]).
  split.
  - intros H1. eapply NoDup_app_disjoint; eauto.
  - intros H1. apply NoDup_app_remove_l in Hn.
    apply (proj1 (NoDup_count_occ' string_dec l2) Hn).
    apply (Permutation_in _ (Permutation_sym Hp)) in Hx.
    apply in_app_iff in Hx. tauto.
Qed.


Lemma names_with_status_keys s (results : Py.dict TaskResult) x :
  In x (names_with_status s results) -> In x (Py.keys results).
Proof.
  unfold names_with_status, Py.keys. intros H. apply in_map_iff in H.
  destruct H as (item & <- & Hf). apply filter_In in Hf.
  apply in_map. tauto.
Qed.

(** ** Stochastic outcome of a task *)

Section Outcome.

Context {py : Interpreter}.

Lemma execute_task_status (rg : DeterministicRandom) (task : Task)
    (ctx : ExecutionContext) :
  (fst (_execute_task rg task ctx)).(status) =
  if PrimFloat.ltb task.(failure_rate)
       (fst (draw rg (Py.str ctx.(seed) ++ ":" ++ task.(name))%string))
  then COMPLETED else FAILED.
Proof.
  unfold _execute_task.
  now destruct (draw rg (Py.str (seed ctx) ++ ":" ++ name task)%string).
Qed.

Lemma draw_in_unit_interval (rg : DeterministicRandom) key :
  random_in_unit_interval py -> unit_interval (fst (draw rg key)).
Proof.
  intros H. unfold draw. destruct (get_rng rg key) as [g rg1].
  specialize (H g). now destruct (random g).
Qed.

Lemma certain_failure (rg : DeterministicRandom) (task : Task)
    (ctx : ExecutionContext) :
  random_in_unit_interval py -> task.(failure_rate) = 1%float ->
  (fst (_execute_task rg task ctx)).(status) = FAILED.
Proof.
  intros Hr H1. rewrite execute_task_status, H1.
  destruct (draw_in_unit_interval rg
              (Py.str ctx.(seed) ++ ":" ++ task.(name))%string Hr) as [_ Hlt].
  now rewrite (ltb_asym Hlt).
Qed.


End Outcome.


(** ** Timestamps of the dead letter queue *)




(** ** Stochastic failures stay out of the dead letter queue *)

Section StochasticFailure.

Context {py : Interpreter} {R : Type} {renderer_hooks : Renderer R}.

Variable self : PipelineEngine.
Variable config : Config.
Hypothesis self_dict : NoDup (Py.keys self.(tasks)).
Hypothesis draws : random_in_unit_interval py.

Local Abbreviation T := (run_store self config).

Variable x : string.
Variable task : Task.
Hypothesis x_task : Py.get x T = Some task.
Hypothesis x_free : task.(dependencies) = [].
Hypothesis x_fails : task.(failure_rate) = 1%float.

(** The task is waiting, or it has run and failed. *)
Definition waiting_or_failed (st : Sched R) : Prop :=
  In x st.(remaining_tasks) \/ is_task_failed st.(current_context) x = true.

Lemma waiting_or_failed_classify y (st st' : Sched R) :
  waiting_or_failed st -> classified T y st st' -> waiting_or_failed st'.
Proof.
  intros W C.
  assert (Hdead : forall reason, y <> x -> dead_lettered y reason st st' ->
                                 waiting_or_failed st').
  { intros reason Hne (ts & _ & _ & ->).
    destruct W as [W|W]; [left | right]; simpl; auto.
    apply discard_In. split; auto. }
  assert (Hx : forall task', Py.get y T = Some task' -> y = x ->
                 missing_dependencies T task' = [] /\
                 failed_dependencies T (current_context st) task' = []).
  { intros task' Hget ->. rewrite x_task in Hget. inversion Hget; subst task'.
    unfold missing_dependencies, failed_dependencies. now rewrite x_free. }
  destruct C as [task' Hget Hm D | task' Hget _ Hf D
                | task' _ _ _ _ -> | task' _ _ _ _ ->]; auto.
  - apply (Hdead _) in D; auto. intros E. now destruct (Hx _ Hget E).
  - apply (Hdead _) in D; auto. intros E. now destruct (Hx _ Hget E).
Qed.

Lemma waiting_or_failed_run y (st st' : Sched R) :
  waiting_or_failed st -> executed_task T y st st' -> waiting_or_failed st'.
Proof.
  intros W (task' & result & rg & rd & Hget & Hy & Hex & ->).
  unfold waiting_or_failed, is_task_failed; simpl.
  destruct (String.eqb_spec y x) as [->|Hne].
  - right. rewrite get_set_same. rewrite x_task in Hget.
    inversion Hget; subst task'.
    pose proof (certain_failure (sched_random st) task
                  (current_context st) draws x_fails) as Hs.
    rewrite Hex in Hs. simpl in Hs. now rewrite Hs.
  - destruct W as [W|W]; [left | right].
    + apply discard_In. split; auto.
    + rewrite get_set_other by exact Hne. exact W.
Qed.

Lemma certain_failure_reported (renderer : option R) rep self' renderer' :
  run self config renderer = Returned (rep, self', renderer') ->
  In x rep.(failed_tasks) /\ In x rep.(report_execution_order) /\
  ~ In x (dlq_names rep.(report_dlq)).
Proof.
  intros E.
  destruct (run_rule self config self_dict waiting_or_failed) with (5 := E)
    as (st1 & st' & F).
  - intros st _ W. exact W.
  - intros y st st' _ W _ _ C. eapply waiting_or_failed_classify; eauto.
  - intros y st st' _ W _ _ C. eapply waiting_or_failed_run; eauto.
  - left. simpl. eapply get_Some_keys; eauto.
  - destruct (end_reports F) as (Ho & Hd & _ & Hf & _).
    assert (W : is_task_failed (current_context st1) x = true).
    { destruct (end_Q F) as [W|W]; auto.
      destruct (end_kept F x W) as [(task' & Hget & _ & _ & Hin) He].
      rewrite x_task in Hget. inversion Hget; subst task'.
      rewrite He in Hin. destruct Hin.
      unfold dependencies_completed. now rewrite x_free. }
    rewrite <- (end_context F) in W.
    destruct (is_task_failed_In _ _ W) as [Hfailed Hkeys].
    assert (Hex : In x (executed st')).
    { destruct (end_inv F) as [[_ Hk] _ _].
      unfold executed in *. rewrite (end_context F), <- Hk, <- (end_context F).
      exact Hkeys. }
    rewrite Hf, Ho, Hd. repeat split; auto.
    apply (partition_count _ _ _ x (run_store_NoDup self config self_dict)
             (end_partition F)); auto.
    eapply get_Some_keys; eauto.
Qed.

End StochasticFailure.

(** A task listed as failed was executed and has no entry in the dead
    letter queue. *)
Lemma failed_not_dead_lettered {py : Interpreter} {R : Type}
    {renderer_hooks : Renderer R} (self : PipelineEngine) (config : Config)
    (renderer : option R) rep self' renderer' y :
  NoDup (Py.keys self.(tasks)) ->
  run self config renderer = Returned (rep, self', renderer') ->
  In y rep.(failed_tasks) ->
  In y rep.(report_execution_order) /\ ~ In y (dlq_names rep.(report_dlq)).
Proof.
  intros Hd E Hy.
  destruct (run_facts self config Hd renderer rep self' renderer' E)
    as (st1 & st' & F).
  destruct (end_reports F) as (Ho & Hq & _ & Hf & _).
  rewrite Hf in Hy. apply names_with_status_keys in Hy.
  rewrite (end_context F) in Hy.
  destruct (end_inv F) as [[Hp Hk] _ _]. rewrite Hk in Hy.
  assert (Hex : In y (executed st'))
    by (unfold executed in *; now rewrite (end_context F)).
  rewrite Ho, Hq. split; [exact Hex|].
  apply (partition_count _ _ _ y (run_store_NoDup self config Hd)
           (end_partition F)); auto.
  apply (Permutation_in _ (end_partition F)). apply in_app_iff. now left.
Qed.

(** C8. In the report of a run, a task with failure rate 1.0 and no
    dependencies is listed in [failed_tasks] and in [execution_order],
    and no entry of the dead letter queue names it (the draws of the
    interpreter lie in [[0, 1)]); and no task listed in [failed_tasks],
    whatever its failure rate, has an entry in the dead letter queue. *)
Theorem stochastic_failure_is_not_dead_lettered {py : Interpreter}
    {R : Type} {renderer_hooks : Renderer R} (self : PipelineEngine)
    (config : Config) (renderer : option R) rep self' renderer' x task :
  random_in_unit_interval py ->
  NoDup (Py.keys self.(tasks)) ->
  Py.get x (run_store self config) = Some task ->
  task.(dependencies) = [] ->
  task.(failure_rate) = 1%float ->
  run self config renderer = Returned (rep, self', renderer') ->
  (In x rep.(failed_tasks) /\ In x rep.(report_execution_order) /\
   ~ In x (dlq_names rep.(report_dlq))) /\
  (forall y, In y rep.(failed_tasks) ->
     In y rep.(report_execution_order) /\
     ~ In y (dlq_names rep.(report_dlq))).
Proof.
  intros Hr Hd Hx Hf H1 E. split.
  - eapply certain_failure_reported; eauto.
  - intros y. eapply failed_not_dead_lettered; eauto.
Qed.

Lemma stochastic_failure_witness :
  random_in_unit_interval (Sample.salted 0) /\
  exists rep e r,
    run (py := Sample.salted 0) PipelineEngine_init Sample.doomed
        (@None ConsoleRenderer) = Returned (rep, e, r) /\
    In "z" rep.(failed_tasks) /\ In "z" rep.(report_execution_order) /\
    ~ In "z" (dlq_names rep.(report_dlq)).
Proof.
  assert (Hr : random_in_unit_interval (Sample.salted 0))
    by (intros g; simpl; destruct (Z.even g); split; reflexivity).
  split; [exact Hr|].
  do 3 eexists. split; [vm_compute; reflexivity|].
  eapply proj1.
  eapply (@stochastic_failure_is_not_dead_lettered (Sample.salted 0)
            ConsoleRenderer _ PipelineEngine_init Sample.doomed None
            _ _ _ "z"); [exact Hr | constructor | | | |];
    vm_compute; reflexivity.
Defined.

(** ** Missing dependencies *)

Lemma filter_nil {A : Type} (f : A -> bool) l :
  (forall a, In a l -> f a = false) -> filter f l = [].
Proof.
  induction l as [|a l IH]; simpl; auto.
  intros H. rewrite (H a) by now left. apply IH. intros b Hb. apply H. now right.
Qed.

Section MissingDependency.

Context {py : Interpreter} {R : Type} {renderer_hooks : Renderer R}.

Variable self : PipelineEngine.
Variable config : Config.
Hypothesis self_dict : NoDup (Py.keys self.(tasks)).

Local Abbreviation T := (run_store self config).

Variable x : string.
Variable task : Task.
Hypothesis x_task : Py.get x T = Some task.
Hypothesis x_missing : missing_dependencies T task <> [].

Local Abbreviation reason := (missing_reason (missing_dependencies T task)).

Lemma gated_no_missing ctx : gated T ctx x -> False.
Proof.
  intros G. apply x_missing. apply filter_nil. intros dep Hdep.
  destruct (G task x_task dep Hdep) as [Hin _].
  apply get_In_keys in Hin. now rewrite Hin.
Qed.

Lemma kept_no_missing (st : Sched R) : kept T st x -> False.
Proof.
  intros (task' & Hget & Hm & _). rewrite x_task in Hget.
  inversion Hget; subst task'. contradiction.
Qed.

(** Classifying the task dead letters it for its missing dependencies. *)
Lemma classified_missing_only (st st' : Sched R) :
  classified T x st st' -> dead_lettered x reason st st'.
Proof.
  intros [task' Hget _ D | task' Hget Hm _ _ | task' Hget Hm _ _ _
         | task' Hget Hm _ _ _];
    rewrite x_task in Hget; inversion Hget; subst task'; auto; contradiction.
Qed.

(** The task is waiting or has its entry, and every entry that names
    it gives the missing dependencies as the reason. *)
Definition missing_recorded (st : Sched R) : Prop :=
  (In x st.(remaining_tasks) \/
   exists e, In e st.(sched_dlq).(failures) /\ e.(dlq_task) = x /\
             e.(dlq_reason) = reason) /\
  (forall e, In e st.(sched_dlq).(failures) -> e.(dlq_task) = x ->
             e.(dlq_reason) = reason).

Lemma missing_recorded_classify y (st st' : Sched R) :
  missing_recorded st -> classified T y st st' -> missing_recorded st'.
Proof.
  intros [W U] C.
  assert (Hdead : forall r, (y = x -> r = reason) ->
                            dead_lettered y r st st' -> missing_recorded st').
  { intros r Hr (ts & _ & _ & ->). split; simpl.
    - destruct (String.eqb_spec y x) as [->|Hne].
      + right. eexists. split; [apply in_app_iff; right; now left|].
        simpl. auto.
      + destruct W as [W|(e & He & Ht & Hq)]; [left | right].
        * apply discard_In. auto.
        * exists e. split; auto. apply in_app_iff. now left.
    - intros e He Ht. apply in_app_iff in He.
      destruct He as [He|[<-|[]]]; auto. }
  destruct (String.eqb_spec y x) as [->|Hne].
  - apply classified_missing_only in C. eapply Hdead; eauto.
  - destruct C as [task' _ _ D | task' _ _ _ D
                  | task' _ _ _ _ -> | task' _ _ _ _ ->];
      try (eapply Hdead; [|exact D]; intros; contradiction);
      split; auto.
Qed.

Lemma missing_recorded_run y (st st' : Sched R) :
  missing_recorded st -> gated T st.(current_context) y ->
  executed_task T y st st' -> missing_recorded st'.
Proof.
  intros [W U] G (task' & result & rg & rd & _ & _ & _ & ->).
  split; simpl; auto.
  destruct W as [W|W]; [left | right; auto].
  apply discard_In. split; auto. intros Hxy. subst y.
  eapply gated_no_missing; eauto.
Qed.

Lemma missing_dependency_contained (renderer : option R) rep self' renderer' :
  run self config renderer = Returned (rep, self', renderer') ->
  (exists e, In e rep.(report_dlq) /\ e.(dlq_task) = x /\
             e.(dlq_reason) = reason) /\
  (forall e, In e rep.(report_dlq) -> e.(dlq_task) = x ->
             e.(dlq_reason) = reason) /\
  count_occ string_dec (dlq_names rep.(report_dlq)) x = 1 /\
  ~ In x rep.(report_execution_order).
Proof.
  intros E.
  destruct (run_rule self config self_dict missing_recorded) with (5 := E)
    as (st1 & st' & F).
  - intros st _ W. exact W.
  - intros y st st' _ W _ _ C. eapply missing_recorded_classify; eauto.
  - intros y st st' _ W _ G C. eapply missing_recorded_run; eauto.
  - split.
    + left. simpl. eapply get_Some_keys; eauto.
    + intros e [].
  - destruct (end_reports F) as (Ho & Hd & _).
    destruct (end_stuck F) as (es & Hes & Hn & _).
    destruct (end_Q F) as [W U].
    assert (Hnot : ~ In x (remaining_tasks st1)).
    { intros Hin. destruct (end_kept F x Hin) as [K _].
      eapply kept_no_missing; eauto. }
    assert (Hentry : exists e, In e (failures (sched_dlq st')) /\
                               dlq_task e = x /\ dlq_reason e = reason).
    { destruct W as [W|(e & He & Ht & Hq)]; [contradiction|].
      exists e. split; auto. rewrite Hes. apply in_app_iff. now left. }
    assert (Hdead : In x (dead_names st')).
    { destruct Hentry as (e & He & <- & _). unfold dead_names, dlq_names.
      now apply in_map. }
    rewrite Hd, Ho. split; [exact Hentry|]. split.
    + intros e He Ht. rewrite Hes in He. apply in_app_iff in He.
      destruct He as [He|He]; auto.
      exfalso. apply Hnot. apply sorted_In. rewrite <- Hn, <- Ht.
      unfold dlq_names. now apply in_map.
    + destruct (partition_count _ _ _ x (run_store_NoDup self config self_dict)
                  (end_partition F)) as [H1 H2].
      { eapply get_Some_keys; eauto. }
      assert (Hne : ~ In x (executed st')) by (intros Hx; now apply H1).
      split; auto.
Qed.

(** The step that finds a missing dependency writes one entry and
    takes the task out of the working set. *)
Lemma classify_missing (st st' : Sched R) :
  classify_task T x st = Returned st' ->
  (exists e, st'.(sched_dlq).(failures) = st.(sched_dlq).(failures) ++ [e] /\
             e.(dlq_task) = x /\ e.(dlq_reason) = reason) /\
  ~ In x st'.(remaining_tasks) /\
  st'.(executable_tasks) = st.(executable_tasks) /\
  st'.(current_context) = st.(current_context).
Proof.
  intros E. apply classify_task_Returned, classified_missing_only in E.
  destruct E as (ts & _ & _ & ->). simpl. repeat split; auto.
  - eexists. split; [reflexivity|]. simpl. auto.
  - intros H. apply discard_In in H. tauto.
Qed.

End MissingDependency.

Lemma prefix_append s t : String.prefix s (s ++ t)%string = true.
Proof.
  induction s as [|a s IH]; simpl.
  - now destruct t.
  - destruct (ascii_dec a a); [exact IH | contradiction].
Qed.





(** ** Deadlock *)

Section Deadlock.

Context {py : Interpreter} {R : Type} {renderer_hooks : Renderer R}.

Variable self : PipelineEngine.
Variable config : Config.
Hypothesis self_dict : NoDup (Py.keys self.(tasks)).

Local Abbreviation T := (run_store self config).
Local Abbreviation s := (run_seed config).

Lemma loop_head_inv (renderer : option R) (st : Sched R) :
  loop_head T (run_initial self config renderer) st -> scheduler_inv T s st.
Proof.
  intros H.
  eapply (@run_inv_loop_head _ _ _ T (run_store_NoDup self config self_dict)
            s (fun _ => True)); eauto.
  split; [apply run_initial_inv | exact I].
Qed.

Lemma classification_inv (st st1 : Sched R) :
  scheduler_inv T s st -> classification T st = Returned st1 ->
  scheduler_inv T s st1.
Proof.
  intros HI E.
  eapply (@classification_preserves _ _ T (scheduler_inv T s)); eauto.
  - intros st0. apply inv_start.
  - intros x st0 st0' H _ _ C.
    eapply inv_classify; eauto. apply run_store_NoDup, self_dict.
  - eapply partition_remaining_NoDup; [|apply HI].
    apply run_store_NoDup, self_dict.
Qed.

Lemma round_break (st st1 st' : Sched R) :
  classification T st = Returned st1 -> st1.(executable_tasks) = [] ->
  for_each dead_letter_stuck (Py.sorted st1.(remaining_tasks)) st1
    = Returned st' ->
  round T st = Returned (inl st').
Proof.
  intros Hc He Hs. unfold round. rewrite Hc. simpl. rewrite He, Hs.
  reflexivity.
Qed.

Lemma classification_remaining (st st1 : Sched R) :
  classification T st = Returned st1 -> st.(remaining_tasks) = [] ->
  st1.(remaining_tasks) = [].
Proof.
  unfold classification. intros E H. rewrite H in E. simpl in E.
  inversion E. simpl. exact H.
Qed.

(** The pass that finds no executable task. *)
Lemma deadlock_pass (renderer : option R) (st st1 st' : Sched R) :
  loop_head T (run_initial self config renderer) st ->
  classification T st = Returned st1 ->
  st1.(executable_tasks) = [] ->
  st1.(remaining_tasks) <> [] ->
  for_each dead_letter_stuck (Py.sorted st1.(remaining_tasks)) st1
    = Returned st' ->
  (forall budget, while_remaining T (S budget) st = Returned st') /\
  (exists es,
     st'.(sched_dlq).(failures) = st1.(sched_dlq).(failures) ++ es /\
     dlq_names es = Py.sorted st1.(remaining_tasks) /\
     StronglySorted name_le (dlq_names es) /\
     Forall (fun e => e.(dlq_reason) = circular_reason) es) /\
  executed st' = executed st1 /\
  (forall y, In y st1.(remaining_tasks) ->
     count_occ string_dec (dead_names st') y = 1 /\ ~ In y (executed st')).
Proof.
  intros Hh Hc He Hr Hs.
  pose proof (classification_inv st st1 (loop_head_inv renderer st Hh) Hc)
    as HI.
  destruct (dead_letter_stuck_all _ st1 Hs)
    as (Hctx & _ & _ & _ & es & Hes & Hn & Hf).
  assert (Hex : executed st' = executed st1)
    by (unfold executed; now rewrite Hctx).
  split; [|split; [|split; [exact Hex|]]].
  - intros budget. simpl.
    destruct (remaining_tasks st) as [|z zs] eqn:Ez.
    + exfalso. apply Hr. eapply classification_remaining; eauto.
    + rewrite (round_break st st1 st' Hc He Hs). reflexivity.
  - exists es. split; [exact Hes|]. split; [exact Hn|]. split; [|exact Hf].
    rewrite Hn. apply sorted_sorted.
  - intros y Hy.
    destruct (partition_remaining_fresh
                (run_store_NoDup self config self_dict) y
                (inv_partition HI) Hy) as [Hne _].
    assert (Hp : Permutation (executed st' ++ dead_names st') (Py.keys T)).
    { destruct HI as [[Hp _] _ _]. rewrite Hex. unfold dead_names.
      rewrite Hes. unfold dlq_names in *. rewrite map_app, Hn, <- Hp.
      apply Permutation_app_head, Permutation_app_head, sorted_perm. }
    rewrite Hex. split; [|exact Hne].
    apply (partition_count _ _ _ y (run_store_NoDup self config self_dict) Hp).
    + destruct HI as [[Hq _] _ _].
      apply (Permutation_in _ Hq). apply in_app_iff. right.
      apply in_app_iff. now right.
    + now rewrite Hex.
Qed.

(** *** Two tasks that wait for each other *)

Variables a b : string.
Variables task_a task_b : Task.
Hypothesis a_task : Py.get a T = Some task_a.
Hypothesis b_task : Py.get b T = Some task_b.
Hypothesis a_waits : In b task_a.(dependencies).
Hypothesis b_waits : In a task_b.(dependencies).

Definition neither_ran (st : Sched R) : Prop :=
  ~ In a (executed st) /\ ~ In b (executed st).

Lemma neither_ran_run y (st st' : Sched R) :
  scheduler_inv T s st -> neither_ran st ->
  gated T st.(current_context) y -> executed_task T y st st' ->
  neither_ran st'.
Proof.
  intros HI [Ha Hb] G (task' & result & rg & rd & _ & _ & _ & ->).
  destruct HI as [[_ Hk] _ _].
  assert (Hdone : forall dep, is_task_completed (current_context st) dep = true ->
                              In dep (executed st)).
  { intros dep Hc. rewrite <- Hk. now apply is_task_completed_In. }
  unfold neither_ran, executed in *; simpl.
  split; intros Hin; apply in_app_iff in Hin;
    destruct Hin as [Hin|[Hy|[]]]; auto; subst y.
  - apply Hb, Hdone. now apply (G task_a a_task b a_waits).
  - apply Ha, Hdone. now apply (G task_b b_task a b_waits).
Qed.

Lemma mutual_dependency_stuck (renderer : option R) rep self' renderer' :
  run self config renderer = Returned (rep, self', renderer') ->
  count_occ string_dec (dlq_names rep.(report_dlq)) a = 1 /\
  count_occ string_dec (dlq_names rep.(report_dlq)) b = 1 /\
  ~ In a rep.(report_execution_order) /\
  ~ In b rep.(report_execution_order).
Proof.
  intros E.
  destruct (run_rule self config self_dict neither_ran) with (5 := E)
    as (st1 & st' & F).
  - intros st _ W. exact W.
  - intros y st st' _ W _ _ C. unfold neither_ran, executed in *.
    destruct C as [task' _ _ (ts & _ & _ & ->)
                  | task' _ _ _ (ts & _ & _ & ->)
                  | task' _ _ _ _ -> | task' _ _ _ _ ->]; exact W.
  - intros y st st' HI W _ G C. eapply neither_ran_run; eauto.
  - split; intros [].
  - destruct (end_reports F) as (Ho & Hd & _).
    destruct (end_Q F) as [Ha Hb].
    assert (Hex : executed st' = executed st1)
      by (unfold executed; now rewrite (end_context F)).
    rewrite <- Hex in Ha, Hb. rewrite Ho, Hd.
    pose proof (run_store_NoDup self config self_dict) as Hnd.
    repeat split; auto.
    + apply (partition_count _ _ _ a Hnd (end_partition F)); auto.
      eapply get_Some_keys; eauto.
    + apply (partition_count _ _ _ b Hnd (end_partition F)); auto.
      eapply get_Some_keys; eauto.
Qed.

End Deadlock.



(** ** Dependency gating *)

Lemma completed_not_failed (ctx : ExecutionContext) dep :
  is_task_completed ctx dep = true -> is_task_failed ctx dep = false.
Proof.
  unfold is_task_completed, is_task_failed.
  destruct (Py.get dep (task_results ctx)) as [r|]; [|discriminate].
  now destruct (status r).
Qed.

Lemma snoc_split {A : Type} (l pre post : list A) (y x : A) :
  l ++ [y] = pre ++ x :: post ->
  (post = [] /\ pre = l /\ x = y) \/
  (exists post', post = post' ++ [y] /\ l = pre ++ x :: post').
Proof.
  intros E. destruct post as [|p post] using rev_ind.
  - left. change (pre ++ [x]) with (pre ++ [x]) in E.
    apply app_inj_tail in E. destruct E as [-> ->]. auto.
  - right. exists post. clear IHpost.
    change (pre ++ x :: post ++ [p]) with (pre ++ (x :: post) ++ [p]) in E.
    rewrite app_assoc in E. apply app_inj_tail in E.
    destruct E as [-> ->]. auto.
Qed.

Section Gating.

Context {py : Interpreter} {R : Type} {renderer_hooks : Renderer R}.

Variable self : PipelineEngine.
Variable config : Config.
Hypothesis self_dict : NoDup (Py.keys self.(tasks)).

Local Abbreviation T := (run_store self config).
Local Abbreviation s := (run_seed config).

(** When a task begins, each of its dependencies is COMPLETED. *)
Lemma begins_gated (renderer : option R) x (t : Sched R) :
  task_begins T (run_initial self config renderer) x t ->
  gated T t.(current_context) x.
Proof.
  intros B.
  destruct (@run_inv_begins _ _ _ T (run_store_NoDup self config self_dict)
              s (fun _ => True)) with (4 := conj (run_initial_inv self config renderer) I)
                                      (5 := B)
    as (_ & _ & _ & G); auto.
Qed.

(** Every executed task comes after its dependencies, which are
    COMPLETED. *)
Definition ordered (st : Sched R) : Prop :=
  forall pre x post task,
    executed st = pre ++ x :: post -> Py.get x T = Some task ->
    forall dep, In dep task.(dependencies) ->
      In dep pre /\ is_task_completed st.(current_context) dep = true.

Lemma ordered_run y (st st' : Sched R) :
  scheduler_inv T s st -> ordered st ->
  gated T st.(current_context) y -> executed_task T y st st' -> ordered st'.
Proof.
  intros HI O G (task' & result & rg & rd & _ & Hy & _ & ->).
  destruct (partition_remaining_fresh (run_store_NoDup self config self_dict)
              y (inv_partition HI) Hy) as [Hne _].
  destruct HI as [[_ Hk] _ _]. rewrite <- Hk in Hne. unfold executed in Hk.
  intros pre x post task Hex Hget dep Hdep.
  unfold executed in Hex. simpl in Hex.
  destruct (snoc_split _ _ _ _ _ Hex) as [(-> & -> & ->)|(post' & -> & Hl)].
  - destruct (G task Hget dep Hdep) as [_ Hc]. split.
    + rewrite <- Hk. now apply is_task_completed_In.
    + now apply completed_after_set.
  - destruct (O pre x post' task Hl Hget dep Hdep) as [Hin Hc].
    split; auto. now apply completed_after_set.
Qed.

Lemma execution_order_gated (renderer : option R) rep self' renderer' :
  run self config renderer = Returned (rep, self', renderer') ->
  forall pre x post task,
    rep.(report_execution_order) = pre ++ x :: post ->
    Py.get x T = Some task ->
    forall dep, In dep task.(dependencies) ->
      In dep pre /\ In dep rep.(completed_tasks).
Proof.
  intros E.
  destruct (run_rule self config self_dict ordered) with (5 := E)
    as (st1 & st' & F).
  - intros st _ W. exact W.
  - intros y st st' _ W _ _ C. unfold ordered, executed in *.
    destruct C as [task' _ _ (ts & _ & _ & ->)
                  | task' _ _ _ (ts & _ & _ & ->)
                  | task' _ _ _ _ -> | task' _ _ _ _ ->]; exact W.
  - intros y st st' HI W _ G C. eapply ordered_run; eauto.
  - intros pre x post task Hex. destruct pre; discriminate.
  - destruct (end_reports F) as (Ho & _ & Hc & _).
    intros pre x post task Hex Hget dep Hdep.
    rewrite Ho in Hex. unfold executed in Hex.
    rewrite (end_context F) in Hex.
    destruct (end_Q F pre x post task Hex Hget dep Hdep) as [Hin Hdone].
    split; auto. rewrite Hc, (end_context F).
    now apply is_task_completed_In.
Qed.

(** Every name of the execution order is one the execution loop has
    reached. *)
Lemma for_each_visits {S : Type} (body : string -> S -> outcome S) xs :
  forall (st st' : S) x,
    for_each body xs st = Returned st' -> In x xs ->
    exists t, visits body xs st x t.
Proof.
  induction xs as [|y xs IH]; intros st st' x E Hx; [destruct Hx|].
  simpl in E. destruct (bind_Returned _ _ E) as (st1 & Hb & E1).
  destruct Hx as [->|Hx].
  - exists st. constructor.
  - destruct (IH st1 st' x E1 Hx) as (t & V).
    exists t. econstructor; eauto.
Qed.

Lemma execution_appends xs : forall (st st' : Sched R),
  for_each (run_task T) xs st = Returned st' ->
  executed st' = executed st ++ xs.
Proof.
  induction xs as [|y xs IH]; intros st st' E; simpl in E.
  - inversion E. now rewrite app_nil_r.
  - destruct (bind_Returned _ _ E) as (st1 & Hb & E1).
    rewrite (IH st1 st' E1). apply run_task_Returned in Hb.
    destruct Hb as (task' & result & rg & rd & _ & _ & _ & ->).
    unfold executed; simpl. now rewrite <- app_assoc.
Qed.

Lemma executed_began (st0 : Sched R) budget : forall (st st' : Sched R),
  loop_head T st0 st -> while_remaining T budget st = Returned st' ->
  forall x, In x (executed st') ->
    In x (executed st) \/ exists t, task_begins T st0 x t.
Proof.
  induction budget as [|n IH]; intros st st' Hh E x Hx; simpl in E.
  - destruct (remaining_tasks st); [|discriminate].
    inversion E; subst. now left.
  - destruct (remaining_tasks st) as [|z zs] eqn:Ez.
    { inversion E; subst. now left. }
    destruct (bind_Returned _ _ E) as (r & Hr & E1). clear E.
    pose proof Hr as Hround.
    unfold round in Hr. destruct (bind_Returned _ _ Hr) as (st1 & Hc & Hr1).
    clear Hr. destruct (classification_post T st Hc) as [Hctx _].
    destruct (executable_tasks st1) as [|y ys] eqn:Ey.
    + destruct (bind_Returned _ _ Hr1) as (st2 & Hs & Hr2).
      inversion Hr2; subst r. inversion E1; subst st2.
      destruct (dead_letter_stuck_all _ st1 Hs) as (Hctx' & _).
      left. unfold executed in *. now rewrite <- Hctx, <- Hctx'.
    + destruct (bind_Returned _ _ Hr1) as (st2 & Hs & Hr2).
      inversion Hr2; subst r. rewrite <- Ey in Hs.
      destruct (IH st2 st' (loop_head_next Hh Hround) E1 x Hx)
        as [Hin|B]; [|now right].
      rewrite (execution_appends _ st1 st2 Hs) in Hin.
      apply in_app_iff in Hin. destruct Hin as [Hin|Hin].
      * left. unfold executed in *. now rewrite <- Hctx.
      * right. destruct (for_each_visits _ _ st1 st2 x Hs Hin) as (t & V).
        exists t, st, st1. repeat split; auto. rewrite Ey. discriminate.
Qed.

Lemma execution_order_began (renderer : option R) rep self' renderer' :
  run self config renderer = Returned (rep, self', renderer') ->
  forall x, In x rep.(report_execution_order) ->
    exists t, task_begins T (run_initial self config renderer) x t.
Proof.
  intros E x Hx. apply run_Returned in E.
  destruct E as (st' & E & (Ho & _) & _). rewrite Ho in Hx.
  destruct (executed_began _ _ _ st' (loop_head_first T _) E x Hx)
    as [[]|B]; exact B.
Qed.

End Gating.

(** C4. When the execution loop reaches a task, every dependency the
    task declares is a task of the store whose result in the context
    is COMPLETED (so none is missing, pending or failed); every name
    of the execution order of the report is one the loop has reached
    in this way; and in the report, every dependency of an executed
    task stands before it in the execution order and is listed as
    completed. *)
Theorem dependency_gating {py : Interpreter} {R : Type}
    {renderer_hooks : Renderer R} (self : PipelineEngine) (config : Config) :
  NoDup (Py.keys self.(tasks)) ->
  (forall (renderer : option R) x (t : Sched R) task,
     task_begins (run_store self config) (run_initial self config renderer)
                 x t ->
     Py.get x (run_store self config) = Some task ->
     forall dep, In dep task.(dependencies) ->
       In dep (Py.keys (run_store self config)) /\
       is_task_completed t.(current_context) dep = true /\
       is_task_failed t.(current_context) dep = false) /\
  (forall (renderer : option R) rep self' renderer' x,
     run self config renderer = Returned (rep, self', renderer') ->
     In x rep.(report_execution_order) ->
     exists t,
       task_begins (run_store self config) (run_initial self config renderer)
                   x t) /\
  (forall (renderer : option R) rep self' renderer' pre x post task,
     run self config renderer = Returned (rep, self', renderer') ->
     rep.(report_execution_order) = pre ++ x :: post ->
     Py.get x (run_store self config) = Some task ->
     forall dep, In dep task.(dependencies) ->
       In dep pre /\ In dep rep.(completed_tasks)).
Proof.
  intros Hd. split; [|split].
  - intros renderer x t task B Hget dep Hdep.
    destruct (begins_gated self config Hd renderer x t B task Hget dep Hdep)
      as [Hin Hc].
    split; [exact Hin|]. split; [exact Hc|]. now apply completed_not_failed.
  - intros renderer rep self' renderer' x E.
    now apply (execution_order_began self config renderer rep self'
                 renderer' E).
  - intros renderer rep self' renderer' pre x post task E.
    now apply (execution_order_gated self config Hd renderer rep self'
                 renderer' E).
Qed.

Lemma dependency_gating_witness :
  (exists t : Sched (py := Sample.salted 0) ConsoleRenderer,
     task_begins (run_store (py := Sample.salted 0) PipelineEngine_init
                            Sample.pipeline)
                 (run_initial (py := Sample.salted 0) PipelineEngine_init
                              Sample.pipeline None)
                 "task_b" t /\
     is_task_completed t.(current_context) "task_a" = true /\
     is_task_failed t.(current_context) "task_a" = false) /\
  (exists rep e r,
     run (py := Sample.salted 0) PipelineEngine_init Sample.pipeline
         (@None ConsoleRenderer) = Returned (rep, e, r) /\
     rep.(report_execution_order) = ["task_a"] ++ "task_b" :: [] /\
     In "task_a" rep.(completed_tasks)).
Proof.
  destruct (@dependency_gating (Sample.salted 0) ConsoleRenderer _
              PipelineEngine_init Sample.pipeline) as (Hstep & _ & Horder);
    [constructor|].
  split.
  - eassert (B : task_begins
                   (run_store (py := Sample.salted 0) PipelineEngine_init
                              Sample.pipeline)
                   (run_initial (py := Sample.salted 0) PipelineEngine_init
                                Sample.pipeline None)
                   "task_b" _).
    { unfold task_begins. do 2 eexists.
      split; [eapply loop_head_next;
              [apply loop_head_first | vm_compute; reflexivity]|].
      split; [vm_compute; reflexivity|].
      split; [simpl; discriminate|].
      simpl. apply visits_head. }
    eexists. split; [exact B|].
    destruct (Hstep None "task_b" _
                (task_of_config (Sample.task "task_b" ["task_a"] 1))
                B) with (dep := "task_a") as (_ & Hc & Hf).
    + vm_compute. reflexivity.
    + now left.
    + split; [exact Hc | exact Hf].
  - destruct (run (py := Sample.salted 0) PipelineEngine_init Sample.pipeline
                  (@None ConsoleRenderer)) as [[[rep e] r]|ex] eqn:E;
      [|vm_compute in E; discriminate].
    exists rep, e, r. split; [reflexivity|].
    assert (Ho : rep.(report_execution_order) = ["task_a"] ++ "task_b" :: []).
    { vm_compute in E. inversion E. reflexivity. }
    split; [exact Ho|].
    destruct (Horder None rep e r ["task_a"] "task_b" []
                (task_of_config (Sample.task "task_b" ["task_a"] 1))
                E Ho) with (dep := "task_a") as [_ Hc].
    + vm_compute. reflexivity.
    + now left.
    + exact Hc.
Defined.

(** ** Renderer isolation *)

Definition same_outcome {A B : Type} (rel : A -> B -> Prop)
    (o1 : outcome A) (o2 : outcome B) : Prop :=
  match o1, o2 with
  | Returned a, Returned b => rel a b
  | Raised e1, Raised e2 => e1 = e2
  | _, _ => False
  end.

Lemma same_outcome_bind {A B A' B' : Type} (rel : A -> B -> Prop)
    (rel' : A' -> B' -> Prop) m1 m2 (k1 : A -> outcome A')
    (k2 : B -> outcome B') :
  same_outcome rel m1 m2 ->
  (forall a b, rel a b -> same_outcome rel' (k1 a) (k2 b)) ->
  same_outcome rel' (bind m1 k1) (bind m2 k2).
Proof.
  destruct m1, m2; simpl; intros H Hk; auto; contradiction.
Qed.

Lemma same_outcome_for_each {A B : Type} (rel : A -> B -> Prop)
    (body1 : string -> A -> outcome A) (body2 : string -> B -> outcome B) :
  (forall x a b, rel a b -> same_outcome rel (body1 x a) (body2 x b)) ->
  forall xs a b, rel a b ->
    same_outcome rel (for_each body1 xs a) (for_each body2 xs b).
Proof.
  intros Hb xs. induction xs as [|x xs IH]; intros a b H; simpl; auto.
  eapply same_outcome_bind; [apply Hb; exact H|]. intros a' b' H'. now apply IH.
Qed.

Section RendererIsolation.

Context {py : Interpreter}.
Context {R1 R2 : Type} {hooks1 : Renderer R1} {hooks2 : Renderer R2}.

Variable T : Py.dict Task.

(** Two scheduler states that differ in the renderer at most. *)
Definition same_progress (st1 : Sched R1) (st2 : Sched R2) : Prop :=
  st1.(current_context) = st2.(current_context) /\
  st1.(sched_dlq) = st2.(sched_dlq) /\
  st1.(sched_random) = st2.(sched_random) /\
  st1.(remaining_tasks) = st2.(remaining_tasks) /\
  st1.(processed_tasks) = st2.(processed_tasks) /\
  st1.(executable_tasks) = st2.(executable_tasks).

Ltac same_states :=
  match goal with
  | H : same_progress ?a ?b |- _ =>
      destruct a, b; unfold same_progress in H; simpl in H;
      destruct H as (? & ? & ? & ? & ? & ?); subst
  end.

Lemma dead_letter_same x reason st1 st2 :
  same_progress st1 st2 ->
  same_outcome same_progress (dead_letter x reason st1)
                             (dead_letter x reason st2).
Proof.
  intros H. same_states. unfold dead_letter; simpl.
  destruct (add_failure _ x reason None); simpl; auto.
  destruct (Py.set_remove x _); simpl; auto.
  repeat split.
Qed.

Lemma classify_task_same x st1 st2 :
  same_progress st1 st2 ->
  same_outcome same_progress (classify_task T x st1) (classify_task T x st2).
Proof.
  intros H. unfold classify_task.
  assert (Hc : current_context st1 = current_context st2) by apply H.
  rewrite Hc.
  destruct (Py.getitem x T) as [task|e]; simpl; auto.
  destruct (check_dependencies T (current_context st2) (dependencies task))
    as [[c m] f].
  destruct m; [destruct f; [destruct c|]|]; try now apply dead_letter_same.
  - same_states. simpl. repeat split.
  - exact H.
Qed.

Lemma dead_letter_stuck_same x st1 st2 :
  same_progress st1 st2 ->
  same_outcome same_progress (dead_letter_stuck x st1)
                             (dead_letter_stuck x st2).
Proof.
  intros H. same_states. unfold dead_letter_stuck; simpl.
  destruct (add_failure _ x circular_reason None); simpl; auto.
  repeat split.
Qed.

Lemma run_task_same x st1 st2 :
  same_progress st1 st2 ->
  same_outcome same_progress (run_task T x st1) (run_task T x st2).
Proof.
  intros H. same_states. unfold run_task; simpl.
  destruct (Py.getitem x T) as [task|e]; simpl; auto.
  destruct (Py.set_remove x _); simpl; auto.
  destruct (_execute_task _ task _) as [result rg]. simpl.
  repeat split.
Qed.

Lemma classification_same st1 st2 :
  same_progress st1 st2 ->
  same_outcome same_progress (classification T st1) (classification T st2).
Proof.
  intros H. unfold classification.
  assert (Hr : remaining_tasks st1 = remaining_tasks st2) by apply H.
  rewrite Hr. apply same_outcome_for_each.
  - intros x a b. apply classify_task_same.
  - same_states. repeat split.
Qed.

Definition same_turn (r1 : Sched R1 + Sched R1) (r2 : Sched R2 + Sched R2)
    : Prop :=
  match r1, r2 with
  | inl a, inl b => same_progress a b
  | inr a, inr b => same_progress a b
  | _, _ => False
  end.

Lemma round_same st1 st2 :
  same_progress st1 st2 -> same_outcome same_turn (round T st1) (round T st2).
Proof.
  intros H. unfold round.
  eapply same_outcome_bind; [apply classification_same; exact H|].
  intros a b Hab.
  assert (He : executable_tasks a = executable_tasks b) by apply Hab.
  assert (Hr : remaining_tasks a = remaining_tasks b) by apply Hab.
  rewrite He, Hr. destruct (executable_tasks b).
  - eapply same_outcome_bind.
    + apply same_outcome_for_each; [apply dead_letter_stuck_same | exact Hab].
    + intros a' b' H'. exact H'.
  - eapply same_outcome_bind.
    + apply same_outcome_for_each; [apply run_task_same | exact Hab].
    + intros a' b' H'. exact H'.
Qed.

Lemma while_remaining_same budget : forall st1 st2,
  same_progress st1 st2 ->
  same_outcome same_progress (while_remaining T budget st1)
                             (while_remaining T budget st2).
Proof.
  induction budget as [|n IH]; intros st1 st2 H; simpl;
    assert (Hr : remaining_tasks st1 = remaining_tasks st2) by apply H;
    rewrite Hr; destruct (remaining_tasks st2); simpl; auto.
  eapply same_outcome_bind; [apply round_same; exact H|].
  intros [a|a] [b|b] Hab; simpl in *; auto; contradiction.
Qed.

Lemma execute_tasks_same d rg context (rd1 : option R1) (rd2 : option R2) :
  same_outcome same_progress (_execute_tasks T d rg context rd1)
                             (_execute_tasks T d rg context rd2).
Proof.
  unfold _execute_tasks.
  eapply same_outcome_bind.
  - apply while_remaining_same. repeat split.
  - intros a b H. same_states. simpl. repeat split.
Qed.

End RendererIsolation.



(** ** Runs on one engine *)

Section Reuse.

Context {py : Interpreter} {R : Type} {renderer_hooks : Renderer R}.

Lemma parse_config_store (e : PipelineEngine) config :
  (_parse_config e config).(tasks) =
  fold_left (fun t c => Py.set c.(cfg_name) (task_of_config c) t)
            (get_default config.(cfg_tasks) []) e.(tasks).
Proof.
  unfold _parse_config. generalize (get_default (cfg_tasks config) []).
  intros l. revert e. induction l as [|c l IH]; intros e; simpl; auto.
Qed.

(** [run] reads the task store of the engine and nothing else of it:
    it assigns the random source and the queue before it uses them. *)
Lemma run_reads_store (e e' : PipelineEngine) config config'
    (renderer : option R) :
  run_store e config = run_store e' config' ->
  run_seed config = run_seed config' ->
  run e config renderer = run e' config' renderer.
Proof.
  unfold run_store, run_seed. intros Ht Hs. unfold run.
  rewrite <- Hs.
  rewrite (parse_config_tasks
             {| tasks := tasks e;
                dlq_system :=
                  Some (DLQSystem_init
                          (get_default (cfg_seed config) default_seed));
                random_generator :=
                  Some (DeterministicRandom_init
                          (get_default (cfg_seed config) default_seed)) |}
             e config eq_refl).
  rewrite (parse_config_tasks
             {| tasks := tasks e';
                dlq_system :=
                  Some (DLQSystem_init
                          (get_default (cfg_seed config) default_seed));
                random_generator :=
                  Some (DeterministicRandom_init
                          (get_default (cfg_seed config) default_seed)) |}
             e' config' eq_refl).
  now rewrite Ht.
Qed.

Lemma second_run (e e1 : PipelineEngine) c1 c2 (r1 renderer : option R)
    rep1 r1' :
  run e c1 r1 = Returned (rep1, e1, r1') ->
  run e1 c2 renderer = run e (accumulated c1 c2) renderer.
Proof.
  intros E. apply run_Returned in E. destruct E as (st & _ & _ & Ht & _).
  apply run_reads_store; [|reflexivity].
  unfold run_store in *. rewrite !parse_config_store, Ht.
  rewrite parse_config_store. simpl. now rewrite fold_left_app.
Qed.

End Reuse.

(** C3 (amended). A run assigns a new random source and a new dead
    letter queue to the engine before it uses them, but it keeps the
    task store: [run(c1)] followed by [run(c2)] on one engine gives,
    for the second call, the result of [run] on the engine as it was
    before the first call, for the configuration with the seed of [c2]
    and the tasks of [c1] followed by those of [c2]. The random source
    and the queue an engine holds have no part in the result. *)
Theorem second_run_accumulates {py : Interpreter} {R : Type}
    {renderer_hooks : Renderer R} (e : PipelineEngine) (c1 c2 : Config)
    (renderer : option R) :
  (forall (r1 : option R) rep1 e1 r1',
     run e c1 r1 = Returned (rep1, e1, r1') ->
     run e1 c2 renderer = run e (accumulated c1 c2) renderer) /\
  (forall d rg,
     run (mkPipelineEngine e.(tasks) d rg) c2 renderer = run e c2 renderer).
Proof.
  split.
  - intros r1 rep1 e1 r1'. apply second_run.
  - intros d rg. apply run_reads_store; [|reflexivity].
    unfold run_store. now apply parse_config_tasks.
Qed.

(** C3, as stated, fails: after [run(Sample.pipeline)], the run of
    [Sample.small] on the same engine reports seven tasks and executes
    three, where a new engine reports and executes one. *)
Lemma second_run_sees_first :
  exists rep1 e1 r1 rep2 e2 r2 rep e r,
    run (py := Sample.salted 0) PipelineEngine_init Sample.pipeline
        (@None ConsoleRenderer) = Returned (rep1, e1, r1) /\
    run e1 Sample.small (@None ConsoleRenderer) = Returned (rep2, e2, r2) /\
    run (py := Sample.salted 0) PipelineEngine_init Sample.small
        (@None ConsoleRenderer) = Returned (rep, e, r) /\
    rep2.(summary).(total_tasks) = 7 /\
    rep2.(report_execution_order) = ["solo"; "task_a"; "task_b"] /\
    rep.(summary).(total_tasks) = 1 /\
    rep.(report_execution_order) = ["solo"].
Proof.
  do 9 eexists.
  split; [vm_compute; reflexivity|].
  split; [vm_compute; reflexivity|].
  split; [vm_compute; reflexivity|].
  repeat split.
Qed.

(** ** The hash of the process *)

(** C1 fails on the code. The key of a task is hashed with the [str]
    hash of the interpreter process: two processes that differ in the
    salt of that hash, and in nothing else, report different outcomes
    for [Sample.coin_flip] under the same seed. *)
Theorem report_depends_on_hash_salt :
  exists rep0 e0 r0 rep1 e1 r1,
    run (py := Sample.salted 0) PipelineEngine_init Sample.coin_flip
        (@None ConsoleRenderer) = Returned (rep0, e0, r0) /\
    run (py := Sample.salted 1) PipelineEngine_init Sample.coin_flip
        (@None ConsoleRenderer) = Returned (rep1, e1, r1) /\
    rep0.(failed_tasks) = ["a"] /\ rep0.(completed_tasks) = [] /\
    rep1.(failed_tasks) = [] /\ rep1.(completed_tasks) = ["a"].
Proof.
  do 6 eexists.
  split; [vm_compute; reflexivity|].
  split; [vm_compute; reflexivity|].
  repeat split.
Qed.

(** * Further properties of the engine *)

(** ** From a run to its last pass and its report *)

Lemma dead_letter_stuck_keeps xs : forall {py : Interpreter} {R : Type}
    (st st' : Sched R),
  for_each dead_letter_stuck xs st = Returned st' ->
  st'.(sched_renderer) = st.(sched_renderer) /\
  st'.(executable_tasks) = st.(executable_tasks) /\
  forall e, In e st'.(sched_dlq).(failures) ->
    In e st.(sched_dlq).(failures) \/
    (e.(dlq_context) = None /\ e.(dlq_reason) = circular_reason /\
     In e.(dlq_task) xs).
Proof.
  induction xs as [|x xs IH]; intros py R st st' E; simpl in E.
  - inversion E; subst. auto.
  - destruct (bind_Returned _ _ E) as (st1 & Hb & E1).
    unfold dead_letter_stuck in Hb.
    destruct (bind_Returned _ _ Hb) as (d & Hd & Hb1).
    inversion Hb1; subst st1; clear Hb1.
    apply add_failure_Returned in Hd. destruct Hd as (ts & _ & ->).
    destruct (IH _ _ _ _ E1) as (Hr & He & Hf). simpl in *.
    split; [exact Hr|]. split; [exact He|].
    intros e Hin. destruct (Hf e Hin) as [H|(Hc & Hq & Ht)].
    + apply in_app_iff in H.
      destruct H as [H|[<-|[]]]; [auto | right; simpl; auto].
    + right. auto.
Qed.

Section RunReport.

Context {py : Interpreter} {R : Type} {renderer_hooks : Renderer R}.

Variable self : PipelineEngine.
Variable config : Config.
Hypothesis self_dict : NoDup (Py.keys self.(tasks)).

Local Abbreviation T := (run_store self config).
Local Abbreviation s := (run_seed config).

(** The report is generated from the last state of the loop. *)
Definition report_from (st : Sched R) : Report :=
  let ctx := st.(current_context) in
  _generate_result
    (mkPipelineEngine T (Some st.(sched_dlq)) (Some st.(sched_random)))
    (mkExecutionContext ctx.(seed) ctx.(task_results) ctx.(execution_order)
                        (get_failures st.(sched_dlq)))
    (PrimFloat.sub
       (PrimFloat.mul (Py.nat_to_float (List.length ctx.(execution_order)))
                      tick)
       0%float).

Lemma run_report (renderer : option R) rep self' renderer' :
  run self config renderer = Returned (rep, self', renderer') ->
  exists st,
    while_remaining T (List.length (Py.keys T))
                    (run_initial self config renderer) = Returned st /\
    rep = report_from st /\
    self' = mkPipelineEngine T (Some st.(sched_dlq)) (Some st.(sched_random)) /\
    renderer' = st.(sched_renderer).
Proof.
  unfold run. intros E.
  destruct (bind_Returned _ _ E) as (a & Ha & E1). clear E.
  unfold _execute_tasks in Ha.
  destruct (bind_Returned _ _ Ha) as (st & Hw & Ha1). clear Ha.
  inversion Ha1; subst a; clear Ha1. simpl in E1.
  inversion E1; subst; clear E1.
  assert (Et : tasks (_parse_config
                        {| tasks := tasks self;
                           dlq_system := Some (DLQSystem_init s);
                           random_generator :=
                             Some (DeterministicRandom_init s) |}
                        config) = T)
    by (apply parse_config_tasks; reflexivity).
  fold s in Hw. rewrite Et in Hw.
  exists st. split; [exact Hw|]. unfold report_from. fold s. rewrite Et.
  repeat split; reflexivity.
Qed.

Section WithInvariant.

Variable Q : Sched R -> Prop.

Hypothesis Q_start : forall st,
  scheduler_inv T s st -> Q st -> Q (start_round st).

Hypothesis Q_classify : forall x st st',
  scheduler_inv T s st -> Q st ->
  In x st.(remaining_tasks) -> ~ In x st.(executable_tasks) ->
  classified T x st st' -> Q st'.

Hypothesis Q_run : forall x st st',
  scheduler_inv T s st -> Q st ->
  In x st.(executable_tasks) -> gated T st.(current_context) x ->
  executed_task T x st st' -> Q st'.

(** The end of a run, with the report and the objects it leaves: [st1]
    is the state after the last classification and [st'] the last state
    of the loop, which differs from [st1] in the entries of the stuck
    tasks at most. *)
Record run_last (renderer' : option R) (self' : PipelineEngine)
    (rep : Report) (st1 st' : Sched R) : Prop := {
  last_end : run_end self config Q rep st1 st';
  last_report : rep = report_from st';
  last_engine :
    self' = mkPipelineEngine T (Some st'.(sched_dlq)) (Some st1.(sched_random));
  last_renderer : renderer' = st1.(sched_renderer);
  last_entries : forall e, In e st'.(sched_dlq).(failures) ->
    In e st1.(sched_dlq).(failures) \/
    (e.(dlq_context) = None /\ e.(dlq_reason) = circular_reason /\
     In e.(dlq_task) st1.(remaining_tasks))
}.

Lemma run_rule_report (renderer : option R) rep self' renderer' :
  Q (run_initial self config renderer) ->
  run self config renderer = Returned (rep, self', renderer') ->
  exists st1 st', run_last renderer' self' rep st1 st'.
Proof.
  intros Q0 E. apply run_report in E.
  destruct E as (st' & E & Hrep & Hself & Hrd).
  destruct (run_inv_final (run_store_NoDup self config self_dict)
              Q_start Q_classify Q_run _
              (conj (run_initial_inv self config renderer) Q0) E)
    as (st1 & [HI HQ] & L).
  exists st1, st'.
  assert (Hfin : st'.(current_context) = st1.(current_context) /\
                 st'.(sched_random) = st1.(sched_random) /\
                 st'.(sched_renderer) = st1.(sched_renderer) /\
                 (forall s0, dlq_ok s0 st1.(sched_dlq) ->
                             dlq_ok s0 st'.(sched_dlq)) /\
                 (forall y, In y st1.(remaining_tasks) ->
                            kept T st1 y /\ st1.(executable_tasks) = []) /\
                 (exists es,
                   st'.(sched_dlq).(failures) =
                     st1.(sched_dlq).(failures) ++ es /\
                   stuck_entries es (Py.sorted st1.(remaining_tasks))) /\
                 (forall e, In e st'.(sched_dlq).(failures) ->
                    In e st1.(sched_dlq).(failures) \/
                    (e.(dlq_context) = None /\
                     e.(dlq_reason) = circular_reason /\
                     In e.(dlq_task) st1.(remaining_tasks)))).
  { destruct L as [[Hr ->]|(He & (st & _ & _ & Hcl) & Hst)].
    - do 3 (split; [reflexivity|]). split; [auto|]. split; [|split].
      + intros y Hy. rewrite Hr in Hy. destruct Hy.
      + exists []. rewrite app_nil_r, Hr. repeat split. constructor.
      + auto.
    - destruct (dead_letter_stuck_all _ _ Hst) as (Hc & _ & Hg & Hd & Hes).
      destruct (dead_letter_stuck_keeps _ _ _ Hst) as (Hrd' & _ & Hen).
      destruct (classification_post _ _ Hcl) as [_ Hk].
      split; [exact Hc|]. split; [exact Hg|]. split; [exact Hrd'|].
      split; [exact Hd|]. split; [|split; [exact Hes|]].
      + intros y Hy. split; [now apply Hk | exact He].
      + intros e Hin. destruct (Hen e Hin) as [H|(H1 & H2 & H3)]; auto.
        right. split; [exact H1|]. split; [exact H2|].
        apply (proj1 (sorted_In _ _) H3). }
  destruct Hfin as (Hc & Hg & Hrd1 & Hd & Hk & (es & Hes & Hst) & Hen).
  split.
  - split; auto.
    + rewrite Hrep. unfold reports, report_from, executed. simpl.
      repeat split; reflexivity.
    + exists es. auto.
    + apply Hd, HI.
    + destruct HI as [[Hp _] _ _]. unfold executed, dead_names in *.
      rewrite Hc, Hes. unfold dlq_names in *. rewrite map_app.
      destruct Hst as [Hn _]. unfold dlq_names in Hn. rewrite Hn, <- Hp.
      apply Permutation_app_head, Permutation_app_head, sorted_perm.
  - exact Hrep.
  - rewrite Hself, Hg. reflexivity.
  - rewrite Hrd. exact Hrd1.
  - exact Hen.
Qed.

End WithInvariant.

End RunReport.

(** ** dict, continued *)

Lemma get_None_keys {V : Type} k (d : Py.dict V) :
  Py.get k d = None <-> ~ In k (Py.keys d).
Proof.
  rewrite <- get_In_keys. unfold Py.mem.
  destruct (Py.get k d); split; intros H; congruence.
Qed.

Lemma get_set {V : Type} k k' (v : V) d :
  Py.get k' (Py.set k v d) = if String.eqb k k' then Some v else Py.get k' d.
Proof.
  destruct (String.eqb_spec k k') as [->|N].
  - apply get_set_same.
  - now apply get_set_other.
Qed.

Lemma In_get {V : Type} k (v : V) d :
  NoDup (Py.keys d) -> In (k, v) d -> Py.get k d = Some v.
Proof.
  induction d as [|[k0 v0] d IH]; simpl; [tauto|].
  intros Hn [E|Hin]; inversion Hn; subst.
  - inversion E; subst. now rewrite String.eqb_refl.
  - destruct (String.eqb_spec k0 k) as [->|N]; [|auto].
    exfalso. apply H1. change k with (fst (k, v)). now apply in_map.
Qed.

Lemma keys_get {V : Type} k (d : Py.dict V) :
  In k (Py.keys d) -> exists v, Py.get k d = Some v.
Proof.
  intros H. apply get_In_keys in H. unfold Py.mem in H.
  destruct (Py.get k d) as [v|]; [eauto | discriminate].
Qed.

Lemma set_fresh {V : Type} k (v : V) d :
  ~ In k (Py.keys d) -> Py.set k v d = d ++ [(k, v)].
Proof.
  induction d as [|[k0 v0] d IH]; simpl; auto.
  intros N. destruct (String.eqb_spec k0 k) as [->|Hne]; [tauto|].
  rewrite IH; tauto.
Qed.

Lemma get_map_values {V W : Type} (f : V -> W) k (d : Py.dict V) :
  Py.get k (map (fun item => (fst item, f (snd item))) d) =
  option_map f (Py.get k d).
Proof.
  induction d as [|[k0 v0] d IH]; simpl; auto.
  now destruct (String.eqb k0 k).
Qed.

(** The loop of [_generate_result] over [items()] (lines 304-306). *)
Lemma collect_values {V W : Type} (f : V -> W) (d : Py.dict V) :
  NoDup (Py.keys d) ->
  fold_left (fun acc item => Py.set (fst item) (f (snd item)) acc) d [] =
  map (fun item => (fst item, f (snd item))) d.
Proof.
  intros Hd.
  assert (G : forall acc : Py.dict W,
             NoDup (Py.keys acc ++ Py.keys d) ->
             fold_left (fun acc item => Py.set (fst item) (f (snd item)) acc)
                       d acc =
             acc ++ map (fun item => (fst item, f (snd item))) d).
  { clear Hd. induction d as [|[k v] d IH]; intros acc Hn; simpl.
    - now rewrite app_nil_r.
    - simpl in Hn. rewrite set_fresh.
      + rewrite IH.
        * now rewrite <- app_assoc.
        * unfold Py.keys in *. rewrite map_app. simpl.
          rewrite <- app_assoc. exact Hn.
      + intros Hin. apply NoDup_remove_2 in Hn. apply Hn.
        apply in_app_iff. now left. }
  apply (G []). exact Hd.
Qed.

Lemma names_with_status_iff st (results : Py.dict TaskResult) x :
  NoDup (Py.keys results) ->
  (In x (names_with_status st results) <->
   exists r, Py.get x results = Some r /\ r.(status) = st).
Proof.
  intros Hn. split.
  - unfold names_with_status. intros H. apply in_map_iff in H.
    destruct H as ([k r] & Hk & Hf). simpl in Hk. subst k.
    apply filter_In in Hf. destruct Hf as [Hin Hs]. simpl in Hs.
    exists r. split; [now apply In_get | now apply TaskStatus_eqb_eq].
  - intros (r & Hget & Hs). eapply names_with_status_In; eauto.
Qed.

Lemma append_inj (p x y : string) :
  (p ++ x)%string = (p ++ y)%string -> x = y.
Proof.
  induction p as [|a p IH]; simpl; intros E; [exact E|].
  inversion E. auto.
Qed.

(** ** The random source, context by context *)

Section Draws.

Context {py : Interpreter}.

(** The first number that [random.Random((seed + hash(key)) % 2**32)]
    draws. *)
Definition first_draw (seed : Z) (key : string) : float :=
  fst (random (Random_new ((seed + hash key) mod 2 ^ 32)%Z)).

Lemma draw_fresh (rg : DeterministicRandom) key :
  Py.get key rg.(states) = None ->
  fst (draw rg key) = first_draw rg.(rnd_seed) key /\
  (snd (draw rg key)).(rnd_seed) = rg.(rnd_seed) /\
  Py.keys (snd (draw rg key)).(states) = Py.keys rg.(states) ++ [key].
Proof.
  intros E. unfold draw, get_rng, first_draw. rewrite E.
  destruct (random (Random_new ((rnd_seed rg + hash key) mod 2 ^ 32)%Z))
    as [x g'] eqn:Er. simpl.
  split; [reflexivity|]. split; [reflexivity|].
  rewrite keys_set. unfold Py.mem. rewrite get_set_same.
  rewrite keys_set. unfold Py.mem. now rewrite E.
Qed.

Lemma execute_task_random (rg : DeterministicRandom) task ctx :
  snd (_execute_task rg task ctx) =
  snd (draw rg (Py.str ctx.(seed) ++ ":" ++ task.(name))%string).
Proof.
  unfold _execute_task.
  now destruct (draw rg (Py.str (seed ctx) ++ ":" ++ name task)%string).
Qed.

Lemma execute_task_duration (rg : DeterministicRandom) task ctx :
  (fst (_execute_task rg task ctx)).(duration) = task.(execution_time).
Proof.
  unfold _execute_task.
  now destruct (draw rg (Py.str (seed ctx) ++ ":" ++ name task)%string).
Qed.

Lemma execute_task_settled (rg : DeterministicRandom) task ctx :
  (fst (_execute_task rg task ctx)).(status) = COMPLETED \/
  (fst (_execute_task rg task ctx)).(status) = FAILED.
Proof.
  rewrite execute_task_status.
  destruct (PrimFloat.ltb _ _); auto.
Qed.

End Draws.

(** ** The task store is keyed by the names of its tasks *)

Definition keyed_by_name (d : Py.dict Task) : Prop :=
  forall x task, Py.get x d = Some task -> task.(name) = x.

Lemma parse_config_keyed {py : Interpreter} (e : PipelineEngine) config :
  keyed_by_name e.(tasks) -> keyed_by_name (_parse_config e config).(tasks).
Proof.
  rewrite parse_config_store.
  generalize (get_default (cfg_tasks config) []) (tasks e).
  intros l. induction l as [|c l IH]; intros d H; simpl; auto.
  apply IH. intros x task. rewrite get_set.
  destruct (String.eqb_spec (cfg_name c) x) as [<-|N]; [|apply H].
  intros E. inversion E. reflexivity.
Qed.

(** ** What the results of a run hold *)

Section Results.

Context {py : Interpreter} {R : Type} {renderer_hooks : Renderer R}.

Variable self : PipelineEngine.
Variable config : Config.
Hypothesis self_dict : NoDup (Py.keys self.(tasks)).

Local Abbreviation T := (run_store self config).
Local Abbreviation s := (run_seed config).

(** Every result is COMPLETED or FAILED. *)
Definition settled (st : Sched R) : Prop :=
  forall x r, Py.get x st.(current_context).(task_results) = Some r ->
    r.(status) = COMPLETED \/ r.(status) = FAILED.

Lemma settled_classify y (st st' : Sched R) :
  settled st -> classified T y st st' -> settled st'.
Proof.
  intros W C.
  destruct C as [task' _ _ (ts & _ & _ & ->)
                | task' _ _ _ (ts & _ & _ & ->)
                | task' _ _ _ _ -> | task' _ _ _ _ ->]; exact W.
Qed.

Lemma settled_run y (st st' : Sched R) :
  settled st -> executed_task T y st st' -> settled st'.
Proof.
  intros W (task' & result & rg & rd & _ & _ & Hex & ->).
  intros x r. simpl. rewrite get_set.
  destruct (String.eqb y x); [|apply W].
  intros E. inversion E; subst r.
  pose proof (execute_task_settled (sched_random st) task'
                (current_context st)) as H.
  now rewrite Hex in H.
Qed.

(** The result of a task is the one [_execute_task] gives it on a new
    random source: the table of the random source holds the keys of
    the executed tasks and no other. *)
Definition alone (task : Task) : TaskResult :=
  fst (_execute_task (DeterministicRandom_init s) task
                     (mkExecutionContext s [] [] [])).

Definition results_fresh (st : Sched R) : Prop :=
  st.(current_context).(seed) = s /\
  st.(sched_random).(rnd_seed) = s /\
  (forall key, In key (Py.keys st.(sched_random).(states)) ->
     exists y, In y (executed st) /\ key = (Py.str s ++ ":" ++ y)%string) /\
  (forall x r, Py.get x st.(current_context).(task_results) = Some r ->
     exists task, Py.get x T = Some task /\ r = alone task).

Lemma results_fresh_classify y (st st' : Sched R) :
  results_fresh st -> classified T y st st' -> results_fresh st'.
Proof.
  intros W C.
  destruct C as [task' _ _ (ts & _ & _ & ->)
                | task' _ _ _ (ts & _ & _ & ->)
                | task' _ _ _ _ -> | task' _ _ _ _ ->]; exact W.
Qed.

Hypothesis self_keyed : keyed_by_name self.(tasks).

Lemma run_store_keyed : keyed_by_name T.
Proof. now apply parse_config_keyed. Qed.

Lemma execute_task_alone (rg : DeterministicRandom) task ctx :
  ctx.(seed) = s -> rg.(rnd_seed) = s ->
  Py.get (Py.str s ++ ":" ++ task.(name))%string rg.(states) = None ->
  fst (_execute_task rg task ctx) = alone task.
Proof.
  intros Hs Hr Hk. unfold alone, _execute_task. cbn [seed]. rewrite Hs.
  destruct (draw_fresh rg _ Hk) as (H1 & _).
  destruct (draw_fresh (DeterministicRandom_init s)
              (Py.str s ++ ":" ++ name task)%string eq_refl) as (H2 & _).
  cbn [rnd_seed DeterministicRandom_init] in H2. rewrite Hr in H1.
  destruct (draw rg (Py.str s ++ ":" ++ name task)%string) as [x rg1].
  destruct (draw (DeterministicRandom_init s)
              (Py.str s ++ ":" ++ name task)%string) as [x0 rg0].
  simpl in *. subst x x0. reflexivity.
Qed.

Lemma results_fresh_run y (st st' : Sched R) :
  scheduler_inv T s st -> results_fresh st ->
  executed_task T y st st' -> results_fresh st'.
Proof.
  intros HI (Hs & Hr & Hk & Hres) (task' & result & rg & rd & Hget & Hy & Hex & ->).
  destruct (partition_remaining_fresh (run_store_NoDup self config self_dict)
              y (inv_partition HI) Hy) as [Hne _].
  pose proof (run_store_keyed _ _ Hget) as Hname.
  assert (Hnone : Py.get (Py.str s ++ ":" ++ name task')%string
                         (states (sched_random st)) = None).
  { apply get_None_keys. intros Hin.
    destruct (Hk _ Hin) as (z & Hz & Ez).
    apply append_inj in Ez. apply (append_inj ":") in Ez.
    rewrite Hname in Ez. subst z. contradiction. }
  pose proof (execute_task_alone (sched_random st) task'
                (current_context st) Hs Hr Hnone) as Hres'.
  pose proof (execute_task_random (sched_random st) task'
                (current_context st)) as Hrg.
  rewrite Hex in Hres', Hrg. cbn [fst snd] in Hres', Hrg. rewrite Hs in Hrg.
  destruct (draw_fresh (sched_random st) _ Hnone) as (_ & Hseed & Hkeys).
  rewrite <- Hrg in Hseed, Hkeys.
  unfold results_fresh, executed. simpl.
  split; [exact Hs|]. split; [now rewrite Hseed|]. split.
  - intros key Hin. rewrite Hkeys in Hin. apply in_app_iff in Hin.
    destruct Hin as [Hin|[<-|[]]].
    + destruct (Hk _ Hin) as (z & Hz & Ez). exists z. split; auto.
      apply in_app_iff. now left.
    + exists y. split; [apply in_app_iff; right; now left|].
      now rewrite Hname.
  - intros x r. rewrite get_set.
    destruct (String.eqb_spec y x) as [<-|N]; [|apply Hres].
    intros E. inversion E; subst r. exists task'. auto.
Qed.

End Results.

Lemma settled_names (d : Py.dict TaskResult) :
  (forall x r, In (x, r) d -> r.(status) = COMPLETED \/ r.(status) = FAILED) ->
  Permutation (names_with_status COMPLETED d ++ names_with_status FAILED d)
              (Py.keys d).
Proof.
  unfold names_with_status, Py.keys.
  induction d as [|[k r] d IH]; intros H; simpl; [constructor|].
  assert (IH' : Permutation
                  (map fst (filter (fun item => TaskStatus_eqb (status (snd item)) COMPLETED) d) ++
                   map fst (filter (fun item => TaskStatus_eqb (status (snd item)) FAILED) d))
                  (map fst d))
    by (apply IH; intros x r0 Hin; apply (H x r0); now right).
  destruct (H k r (or_introl eq_refl)) as [E|E]; rewrite E; simpl.
  - now constructor.
  - rewrite <- Permutation_middle. now constructor.
Qed.

(** X4. Every task of the store is accounted for once: the execution order
    and the names of the dead letter queue together are the names of
    the store, each once; the completed and the failed tasks together
    are the executed ones; and the counts of the summary are the
    lengths of these lists, so that [total_tasks] is the sum of
    [completed_tasks], [failed_tasks] and [dlq_count]. *)
Theorem report_accounts_for_every_task {py : Interpreter} {R : Type}
    {renderer_hooks : Renderer R} (self : PipelineEngine) (config : Config)
    (renderer : option R) rep self' renderer' :
  NoDup (Py.keys self.(tasks)) ->
  run self config renderer = Returned (rep, self', renderer') ->
  Permutation (rep.(report_execution_order) ++ dlq_names rep.(report_dlq))
              (Py.keys (run_store self config)) /\
  Permutation (rep.(completed_tasks) ++ rep.(failed_tasks))
              rep.(report_execution_order) /\
  rep.(summary).(completed_count) = List.length rep.(completed_tasks) /\
  rep.(summary).(failed_count) = List.length rep.(failed_tasks) /\
  rep.(summary).(dlq_count) = List.length rep.(report_dlq) /\
  rep.(summary).(total_tasks) =
    rep.(summary).(completed_count) + rep.(summary).(failed_count) +
    rep.(summary).(dlq_count).
Proof.
  intros Hd E.
  destruct (run_rule_report self config Hd settled) with (5 := E)
    as (st1 & st' & F).
  - intros st _ W. exact W.
  - intros y st st' _ W _ _ C. eapply settled_classify; eauto.
  - intros y st st' _ W _ _ C. eapply settled_run; eauto.
  - intros x r Hget. discriminate.
  - pose proof (last_end _ _ _ _ _ _ _ _ F) as G.
    pose proof (last_report _ _ _ _ _ _ _ _ F) as Hrep.
    destruct (end_inv G) as [[Hp Hk] _ _].
    pose proof (end_partition G) as Hpart.
    pose proof (end_context G) as Hctx.
    assert (Hnd : NoDup (Py.keys (task_results (current_context st')))).
    { rewrite Hctx, Hk.
      pose proof (partition_NoDup (run_store_NoDup self config Hd)
                    (inv_partition (end_inv G))) as Hn.
      now apply NoDup_app_remove_r in Hn. }
    assert (Hcf : Permutation
                    (names_with_status COMPLETED
                       (task_results (current_context st')) ++
                     names_with_status FAILED
                       (task_results (current_context st')))
                    (executed st')).
    { unfold executed. rewrite Hctx. unfold executed in Hk. rewrite <- Hk.
      apply settled_names. intros x r Hin.
      apply (end_Q G x r). apply In_get; [|exact Hin].
      now rewrite <- Hctx. }
    rewrite Hrep. unfold report_from, _generate_result, get_failures. simpl.
    unfold executed, dead_names in *.
    split; [exact Hpart|]. split; [exact Hcf|].
    do 3 (split; [reflexivity|]).
    apply Permutation_length in Hpart, Hcf.
    rewrite !length_app in *. unfold dlq_names, Py.keys in *.
    rewrite !length_map in *. lia.
Qed.

Lemma report_accounts_witness :
  exists rep e r,
    run (py := Sample.salted 0) PipelineEngine_init Sample.pipeline
        (@None ConsoleRenderer) = Returned (rep, e, r) /\
    rep.(summary).(total_tasks) =
      rep.(summary).(completed_count) + rep.(summary).(failed_count) +
      rep.(summary).(dlq_count) /\
    rep.(summary).(total_tasks) = 6.
Proof.
  destruct (run (py := Sample.salted 0) PipelineEngine_init Sample.pipeline
                (@None ConsoleRenderer)) as [[[rep e] r]|ex] eqn:E;
    [|vm_compute in E; discriminate].
  exists rep, e, r. split; [reflexivity|].
  split.
  - apply (@report_accounts_for_every_task (Sample.salted 0) ConsoleRenderer _
             PipelineEngine_init Sample.pipeline None rep e r
             (NoDup_nil _) E).
  - vm_compute in E. inversion E. reflexivity.
Defined.





(** ** Why a task is in the dead letter queue *)

Lemma failed_after_set (ctx : ExecutionContext) x result dep results' :
  ~ In x (Py.keys ctx.(task_results)) ->
  is_task_failed ctx dep = true ->
  is_task_failed
    (mkExecutionContext ctx.(seed) (Py.set x result ctx.(task_results))
                        results' ctx.(dlq)) dep = true.
Proof.
  unfold is_task_failed; simpl. intros Hx Hc.
  destruct (Py.get dep (task_results ctx)) as [r|] eqn:E; [|discriminate].
  rewrite get_set_other; [now rewrite E|].
  intros ->. apply Hx. eapply get_Some_keys; eauto.
Qed.

Lemma filter_nil_inv {A : Type} (f : A -> bool) l a :
  filter f l = [] -> In a l -> f a = false.
Proof.
  intros E Hin. destruct (f a) eqn:Ef; auto.
  assert (H : In a (filter f l)) by (apply filter_In; auto).
  rewrite E in H. destruct H.
Qed.

Section Explained.

Context {py : Interpreter} {R : Type} {renderer_hooks : Renderer R}.

Variable self : PipelineEngine.
Variable config : Config.
Hypothesis self_dict : NoDup (Py.keys self.(tasks)).

Local Abbreviation T := (run_store self config).
Local Abbreviation s := (run_seed config).

(** An entry written by the classification loop names a task of the
    store and gives its missing dependencies as the reason, or, when
    none is missing, dependencies of the task that have failed. *)
Definition explained (ctx : ExecutionContext) (e : DLQEntry) : Prop :=
  e.(dlq_context) = None /\
  exists task, Py.get e.(dlq_task) T = Some task /\
    ((missing_dependencies T task <> [] /\
      e.(dlq_reason) = missing_reason (missing_dependencies T task)) \/
     (missing_dependencies T task = [] /\
      exists l, l <> [] /\ e.(dlq_reason) = failed_reason l /\
        forall d, In d l ->
          In d task.(dependencies) /\ is_task_failed ctx d = true)).

Definition dlq_explained (st : Sched R) : Prop :=
  (forall e, In e st.(sched_dlq).(failures) ->
             explained st.(current_context) e) /\
  settled st.

Lemma dlq_explained_classify y (st st' : Sched R) :
  dlq_explained st -> classified T y st st' -> dlq_explained st'.
Proof.
  intros [W S] C. split; [|eapply settled_classify; eauto].
  destruct C as [task' Hget Hm (ts & _ & _ & ->)
                | task' Hget Hm Hf (ts & _ & _ & ->)
                | task' _ _ _ _ -> | task' _ _ _ _ ->]; auto; simpl;
    intros e Hin; apply in_app_iff in Hin;
    (destruct Hin as [Hin|[<-|[]]]; [now apply W|]);
    (split; [reflexivity|]); exists task'; (split; [exact Hget|]); simpl.
  - left. auto.
  - right. split; [exact Hm|].
    exists (failed_dependencies T (current_context st) task').
    split; [exact Hf|]. split; [reflexivity|].
    intros d Hd. unfold failed_dependencies in Hd. apply filter_In in Hd.
    destruct Hd as [Hd Hb]. split; [exact Hd|].
    apply andb_true_iff in Hb. tauto.
Qed.

Lemma dlq_explained_run y (st st' : Sched R) :
  scheduler_inv T s st -> dlq_explained st ->
  executed_task T y st st' -> dlq_explained st'.
Proof.
  intros HI [W S] X. split; [|eapply settled_run; eauto].
  destruct X as (task' & result & rg & rd & _ & Hy & _ & ->).
  destruct (partition_remaining_fresh (run_store_NoDup self config self_dict)
              y (inv_partition HI) Hy) as [Hne _].
  rewrite <- (partition_results (inv_partition HI)) in Hne.
  simpl. intros e Hin. destruct (W e Hin) as (Hc & task & Hget & Hcase).
  split; [exact Hc|]. exists task. split; [exact Hget|].
  destruct Hcase as [Hm|(Hm & l & Hl & Hr & Hd)]; [now left|].
  right. split; [exact Hm|]. exists l. repeat split; auto.
  - now apply Hd.
  - apply failed_after_set; auto. now apply Hd.
Qed.

Lemma run_explained (renderer : option R) rep self' renderer' :
  run self config renderer = Returned (rep, self', renderer') ->
  exists st1 st', run_last self config dlq_explained renderer' self' rep st1 st'.
Proof.
  intros E.
  destruct (run_rule_report self config self_dict dlq_explained) with (5 := E)
    as (st1 & st' & F).
  - intros st _ W. exact W.
  - intros y st st' _ W _ _ C. eapply dlq_explained_classify; eauto.
  - intros y st st' HI W _ _ C. eapply dlq_explained_run; eauto.
  - split; [intros e []|]. intros x r Hget. discriminate.
  - exists st1, st'. exact F.
Qed.

(** What the last state says in the words of the report. *)
Lemma report_lists (renderer' : option R) self' rep (st1 st' : Sched R) :
  run_last self config dlq_explained renderer' self' rep st1 st' ->
  NoDup (Py.keys st1.(current_context).(task_results)) /\
  Py.keys st1.(current_context).(task_results) = rep.(report_execution_order) /\
  (forall x, In x rep.(completed_tasks) <->
             is_task_completed st1.(current_context) x = true) /\
  (forall x, In x rep.(failed_tasks) <->
             is_task_failed st1.(current_context) x = true) /\
  (forall x, In x rep.(report_execution_order) ->
             In x rep.(completed_tasks) \/ In x rep.(failed_tasks)) /\
  rep.(report_dlq) = st'.(sched_dlq).(failures) /\
  Permutation (rep.(report_execution_order) ++ dlq_names rep.(report_dlq))
              (Py.keys T).
Proof.
  intros F. pose proof (last_end _ _ _ _ _ _ _ _ F) as G.
  destruct (end_reports G) as (Ho & Hq & Hc & Hf & _).
  destruct (end_inv G) as [[Hp Hk] _ _].
  pose proof (end_context G) as Hctx.
  assert (Hnd : NoDup (Py.keys (task_results (current_context st1)))).
  { rewrite Hk.
    pose proof (partition_NoDup (run_store_NoDup self config self_dict)
                  (inv_partition (end_inv G))) as Hn.
    now apply NoDup_app_remove_r in Hn. }
  assert (Hst : forall status0 x,
             In x (names_with_status status0
                     (task_results (current_context st'))) <->
             match Py.get x (task_results (current_context st1)) with
             | Some r => TaskStatus_eqb r.(status) status0
             | None => false
             end = true).
  { intros status0 x. rewrite Hctx, (names_with_status_iff _ _ _ Hnd). split.
    - intros (r & -> & Hs). now apply TaskStatus_eqb_eq.
    - destruct (Py.get x _) as [r|]; [|discriminate].
      intros Hs. exists r. split; auto. now apply TaskStatus_eqb_eq. }
  split; [exact Hnd|]. split.
  { rewrite Ho. unfold executed in *. now rewrite Hctx. }
  split; [intros x; rewrite Hc; apply Hst|].
  split; [intros x; rewrite Hf; apply Hst|]. split.
  - intros x Hx. rewrite Ho in Hx. unfold executed in Hx, Hk.
    rewrite Hctx, <- Hk in Hx. destruct (keys_get _ _ Hx) as (r & Hr).
    destruct (proj2 (end_Q G) x r Hr) as [Hs|Hs]; [left | right];
      rewrite ?Hc, ?Hf; apply Hst; rewrite Hr, Hs; reflexivity.
  - split; [exact Hq|]. rewrite Ho, Hq. apply (end_partition G).
Qed.

(** Every entry of the queue of a report, explained by the report. *)
Lemma dlq_entries_explained (renderer : option R) rep self' renderer' e :
  run self config renderer = Returned (rep, self', renderer') ->
  In e rep.(report_dlq) ->
  e.(dlq_context) = None /\
  exists task, Py.get e.(dlq_task) T = Some task /\
    ((missing_dependencies T task <> [] /\
      e.(dlq_reason) = missing_reason (missing_dependencies T task)) \/
     (missing_dependencies T task = [] /\
      exists l, l <> [] /\ e.(dlq_reason) = failed_reason l /\
        forall d, In d l ->
          In d task.(dependencies) /\ In d rep.(failed_tasks)) \/
     (missing_dependencies T task = [] /\
      e.(dlq_reason) = circular_reason /\
      (forall d, In d task.(dependencies) -> ~ In d rep.(failed_tasks)) /\
      exists d, In d task.(dependencies) /\
                In d (dlq_names rep.(report_dlq)))).
Proof.
  intros E He. destruct (run_explained _ _ _ _ E) as (st1 & st' & F).
  destruct (report_lists _ _ _ _ _ F)
    as (Hnd & Hkeys & Hc & Hf & Hcf & Hq & Hpart).
  pose proof (last_end _ _ _ _ _ _ _ _ F) as G.
  rewrite Hq in He.
  destruct (last_entries _ _ _ _ _ _ _ _ F e He) as [Hin|(Hctx & Hr & Hin)].
  - destruct (proj1 (end_Q G) e Hin) as (Hctx & task & Hget & Hcase).
    split; [exact Hctx|]. exists task. split; [exact Hget|].
    destruct Hcase as [Hm|(Hm & l & Hl & Hr & Hd)]; [now left|].
    right. left. split; [exact Hm|]. exists l. repeat split; auto.
    + now apply Hd.
    + apply Hf. now apply Hd.
  - destruct (end_kept G _ Hin) as [(task & Hget & Hm & Hfd & Hex) Hnil].
    split; [exact Hctx|]. exists task. split; [exact Hget|].
    right. right. split; [exact Hm|]. split; [exact Hr|].
    assert (Hmem : forall d, In d task.(dependencies) -> Py.mem d T = true).
    { intros d Hd. pose proof (filter_nil_inv _ _ d Hm Hd) as H.
      simpl in H. now destruct (Py.mem d T). }
    assert (Hnf : forall d, In d task.(dependencies) ->
                   is_task_failed (current_context st1) d = true -> False).
    { intros d Hd Hfl. pose proof (filter_nil_inv _ _ d Hfd Hd) as H.
      simpl in H. rewrite (Hmem d Hd), Hfl in H.
      destruct (is_task_completed (current_context st1) d) eqn:Ec;
        [|discriminate].
      apply completed_not_failed in Ec. congruence. }
    split.
    + intros d Hd Hfl. apply Hf in Hfl. eauto.
    + assert (Hnc : dependencies_completed T (current_context st1) task
                    = false).
      { destruct (dependencies_completed T (current_context st1) task)
          eqn:Ed; auto.
        specialize (Hex eq_refl). rewrite Hnil in Hex. destruct Hex. }
      unfold dependencies_completed in Hnc.
      assert (Hex' : exists d, In d task.(dependencies) /\
                       is_task_completed (current_context st1) d = false).
      { clear -Hnc Hmem. induction (dependencies task) as [|d l IH];
          simpl in Hnc; [discriminate|].
        rewrite (Hmem d (or_introl eq_refl)) in Hnc. simpl in Hnc.
        destruct (is_task_completed (current_context st1) d) eqn:Ec.
        - destruct IH as (d' & Hd' & Hc'); auto.
          + intros d' Hd'. apply Hmem. now right.
          + exists d'. split; [now right | exact Hc'].
        - exists d. split; [now left | exact Ec]. }
      destruct Hex' as (d & Hd & Hdc). exists d. split; [exact Hd|].
      assert (Hkd : In d (Py.keys T)) by (apply get_In_keys; auto).
      apply (Permutation_in _ (Permutation_sym Hpart)) in Hkd.
      apply in_app_iff in Hkd. destruct Hkd as [Hkd|Hkd]; [|exact Hkd].
      exfalso. destruct (Hcf d Hkd) as [H|H].
      * apply Hc in H. congruence.
      * apply Hf in H. eauto.
Qed.

(** A task ran exactly when every dependency it declares is listed as
    completed. *)
Lemma executed_iff (renderer : option R) rep self' renderer' x :
  run self config renderer = Returned (rep, self', renderer') ->
  (In x rep.(report_execution_order) <->
   exists task, Py.get x T = Some task /\
     forall dep, In dep task.(dependencies) -> In dep rep.(completed_tasks)).
Proof.
  intros E. destruct (run_explained _ _ _ _ E) as (st1 & st' & F).
  destruct (report_lists _ _ _ _ _ F)
    as (Hnd & Hkeys & Hc & Hf & Hcf & Hq & Hpart).
  split.
  - intros Hx.
    assert (Hk : In x (Py.keys T)).
    { apply (Permutation_in _ Hpart). apply in_app_iff. now left. }
    destruct (keys_get _ _ Hk) as (task & Hget). exists task.
    split; [exact Hget|]. intros dep Hdep.
    destruct (in_split _ _ Hx) as (pre & post & Hsplit).
    apply (execution_order_gated self config self_dict renderer rep self'
             renderer' E pre x post task Hsplit Hget dep Hdep).
  - intros (task & Hget & Hall).
    assert (Hk : In x (Py.keys T)) by (eapply get_Some_keys; eauto).
    apply (Permutation_in _ (Permutation_sym Hpart)) in Hk.
    apply in_app_iff in Hk. destruct Hk as [Hk|Hk]; [exact Hk|].
    exfalso. unfold dlq_names in Hk. apply in_map_iff in Hk.
    destruct Hk as (e & He & Hin).
    destruct (dlq_entries_explained _ _ _ _ e E Hin)
      as (_ & task' & Hget' & Hcase).
    rewrite He, Hget in Hget'. inversion Hget'; subst task'. clear Hget'.
    assert (Hkeys' : forall d, In d task.(dependencies) -> In d (Py.keys T)).
    { intros d Hd. apply (Permutation_in _ Hpart). apply in_app_iff. left.
      rewrite <- Hkeys. apply Hall in Hd. apply Hc in Hd.
      now apply is_task_completed_In in Hd. }
    destruct Hcase as [[Hm _]|[(_ & l & Hl & _ & Hd)|(_ & _ & _ & d & Hd & Hdl)]].
    + apply Hm. apply filter_nil. intros d Hd.
      apply Hkeys', get_In_keys in Hd. now rewrite Hd.
    + destruct l as [|d l]; [congruence|].
      destruct (Hd d (or_introl eq_refl)) as [Hdep Hfl].
      apply Hall, Hc in Hdep. apply Hf in Hfl.
      apply completed_not_failed in Hdep. congruence.
    + assert (Hex : In d rep.(report_execution_order)).
      { rewrite <- Hkeys. apply Hall, Hc in Hd.
        now apply is_task_completed_In in Hd. }
      apply (partition_count _ _ _ d (run_store_NoDup self config self_dict)
               Hpart); auto.
Qed.

(** A task that did not run has its entry in the queue. *)
Lemma not_executed_entry (renderer : option R) rep self' renderer' x task :
  run self config renderer = Returned (rep, self', renderer') ->
  Py.get x T = Some task ->
  ~ In x rep.(report_execution_order) ->
  exists e, In e rep.(report_dlq) /\ e.(dlq_task) = x /\
            count_occ string_dec (dlq_names rep.(report_dlq)) x = 1.
Proof.
  intros E Hget Hx. destruct (run_explained _ _ _ _ E) as (st1 & st' & F).
  destruct (report_lists _ _ _ _ _ F) as (_ & _ & _ & _ & _ & _ & Hpart).
  assert (Hk : In x (Py.keys T)) by (eapply get_Some_keys; eauto).
  destruct (partition_count _ _ _ x (run_store_NoDup self config self_dict)
              Hpart Hk) as [_ Hcount].
  apply (Permutation_in _ (Permutation_sym Hpart)) in Hk.
  apply in_app_iff in Hk. destruct Hk as [Hk|Hk]; [contradiction|].
  unfold dlq_names in Hk. apply in_map_iff in Hk.
  destruct Hk as (e & He & Hin). exists e. auto.
Qed.

(** A completed task ran, did not fail and has no entry. *)
Lemma completed_executed (renderer : option R) rep self' renderer' d :
  run self config renderer = Returned (rep, self', renderer') ->
  In d rep.(completed_tasks) ->
  In d rep.(report_execution_order) /\ ~ In d rep.(failed_tasks) /\
  ~ In d (dlq_names rep.(report_dlq)).
Proof.
  intros E Hd. destruct (run_explained _ _ _ _ E) as (st1 & st' & F).
  destruct (report_lists _ _ _ _ _ F)
    as (Hnd & Hkeys & Hc & Hf & Hcf & Hq & Hpart).
  apply Hc in Hd.
  assert (Hex : In d rep.(report_execution_order)).
  { rewrite <- Hkeys. now apply is_task_completed_In in Hd. }
  split; [exact Hex|]. split.
  - intros Hfl. apply Hf in Hfl. apply completed_not_failed in Hd. congruence.
  - apply (partition_count _ _ _ d (run_store_NoDup self config self_dict)
             Hpart); auto.
    apply (Permutation_in _ Hpart). apply in_app_iff. now left.
Qed.

(** A dependency that is not completed keeps the task from running. *)
Lemma dependency_blocks (renderer : option R) rep self' renderer' x task dep :
  run self config renderer = Returned (rep, self', renderer') ->
  Py.get x T = Some task -> In dep task.(dependencies) ->
  ~ In dep rep.(completed_tasks) -> ~ In x rep.(report_execution_order).
Proof.
  intros E Hget Hdep Hn Hx.
  destruct (in_split _ _ Hx) as (pre & post & Hsplit).
  apply Hn.
  apply (execution_order_gated self config self_dict renderer rep self'
           renderer' E pre x post task Hsplit Hget dep Hdep).
Qed.

End Explained.

(** X7. A task is in the execution order of a report exactly when it is a
    task of the store and every dependency it declares is listed as
    completed: such a task always runs, and no other does. *)
Theorem executed_iff_dependencies_completed {py : Interpreter} {R : Type}
    {renderer_hooks : Renderer R} (self : PipelineEngine) (config : Config)
    (renderer : option R) rep self' renderer' x :
  NoDup (Py.keys self.(tasks)) ->
  run self config renderer = Returned (rep, self', renderer') ->
  (In x rep.(report_execution_order) <->
   exists task, Py.get x (run_store self config) = Some task /\
     forall dep, In dep task.(dependencies) -> In dep rep.(completed_tasks)).
Proof.
  intros Hd E. now apply (executed_iff self config Hd renderer rep self' renderer').
Qed.

Lemma executed_iff_witness :
  exists rep e r,
    run (py := Sample.salted 0) PipelineEngine_init Sample.pipeline
        (@None ConsoleRenderer) = Returned (rep, e, r) /\
    In "task_b" rep.(report_execution_order) /\
    ~ In "task_d" rep.(report_execution_order).
Proof.
  destruct (run (py := Sample.salted 0) PipelineEngine_init Sample.pipeline
                (@None ConsoleRenderer)) as [[[rep e] r]|ex] eqn:E;
    [|vm_compute in E; discriminate].
  exists rep, e, r. split; [reflexivity|].
  pose proof (fun x => @executed_iff_dependencies_completed (Sample.salted 0)
                ConsoleRenderer _ PipelineEngine_init Sample.pipeline None
                rep e r x (NoDup_nil _) E) as H.
  assert (Hc : rep.(completed_tasks) = ["task_a"])
    by (vm_compute in E; inversion E; reflexivity).
  split.
  - apply H. eexists. split; [vm_compute; reflexivity|].
    intros dep [<-|[]]. rewrite Hc. now left.
  - intros Hx. apply H in Hx. destruct Hx as (task & Hget & Hall).
    vm_compute in Hget. inversion Hget; subst task.
    specialize (Hall "task_b" (or_introl eq_refl)). rewrite Hc in Hall.
    destruct Hall as [Hall|[]]. discriminate.
Defined.







(** ** The exceptions of a run *)

Lemma int_to_float_raises z e :
  Py.int_to_float z = Raised e -> e = OverflowError.
Proof.
  unfold Py.int_to_float.
  destruct (binary_normalize prec emax z 0 false); intros H; inversion H;
    reflexivity.
Qed.

Lemma for_each_raises {S : Type} (body : string -> S -> outcome S)
    (I : list string -> S -> Prop) (P : exn -> Prop) :
  (forall x xs s e, I (x :: xs) s -> body x s = Raised e -> P e) ->
  (forall x xs s s', I (x :: xs) s -> body x s = Returned s' -> I xs s') ->
  forall xs s e, I xs s -> for_each body xs s = Raised e -> P e.
Proof.
  intros bad step xs. induction xs as [|x xs IH]; intros s e HI E; simpl in E.
  - discriminate.
  - destruct (body x s) as [s'|e'] eqn:Eb; simpl in E.
    + eapply IH; [eapply step|]; eauto.
    + inversion E; subst. eapply bad; eauto.
Qed.

Section Raises.

Context {py : Interpreter} {R : Type} {renderer_hooks : Renderer R}.

Variable T : Py.dict Task.
Hypothesis T_distinct : NoDup (Py.keys T).

Variable s : Z.

(** The only exception is the [OverflowError] of [float(seed)]. *)
Definition overflow_only {A : Type} (m : outcome A) : Prop :=
  forall e, m = Raised e ->
    e = OverflowError /\ Py.int_to_float s = Raised OverflowError.

Lemma add_failure_raises d x reason :
  d.(dlq_seed) = s -> overflow_only (add_failure d x reason None).
Proof.
  intros Hs e. unfold add_failure, deterministic_timestamp. rewrite Hs.
  destruct (Py.int_to_float s) as [f|e0] eqn:E; simpl; [discriminate|].
  intros H. inversion H; subst e0.
  pose proof (int_to_float_raises _ _ E). subst e. auto.
Qed.

Lemma dead_letter_raises x reason (st : Sched R) :
  scheduler_inv T s st -> In x st.(remaining_tasks) ->
  overflow_only (dead_letter x reason st).
Proof.
  intros HI Hx e. unfold dead_letter.
  destruct (add_failure (sched_dlq st) x reason None) as [d|e0] eqn:E; simpl.
  - rewrite (set_remove_In _ _ Hx). simpl. discriminate.
  - intros H. inversion H; subst e0.
    eapply add_failure_raises; [|exact E]. apply HI.
Qed.

Lemma classify_task_raises x (st : Sched R) :
  scheduler_inv T s st -> In x st.(remaining_tasks) ->
  overflow_only (classify_task T x st).
Proof.
  intros HI Hx e. unfold classify_task.
  destruct (remaining_in_store T s st x HI Hx) as (task & Hget).
  unfold Py.getitem. rewrite Hget. simpl.
  destruct (check_dependencies T (current_context st) (dependencies task))
    as [[c m] f].
  destruct m; [destruct f; [destruct c; discriminate|]|];
    now apply dead_letter_raises.
Qed.

Lemma classification_raises (st : Sched R) :
  scheduler_inv T s st -> overflow_only (classification T st).
Proof.
  intros HI e E. unfold classification in E.
  eapply (for_each_raises (classify_task T)
            (classifying (scheduler_inv T s) (List.length st.(remaining_tasks)))
            (fun e => e = OverflowError /\
                      Py.int_to_float s = Raised OverflowError));
    [ | | | exact E].
  - intros x xs st0 e0 (HP & _ & _ & Hin & _).
    apply classify_task_raises; auto. apply Hin. now left.
  - intros x xs st0 st0'.
    apply (classifying_step (inv_classify_step T T_distinct s)).
  - unfold classifying; simpl.
    pose proof (partition_remaining_NoDup T_distinct (inv_partition HI)) as Hr.
    split; [now apply inv_start|]. split; [exact Hr|].
    split; [now apply sorted_NoDup|]. split; [intros y; apply sorted_In|].
    split; [constructor|]. split; [intros y []|]. split; [intros y _ []|].
    apply le_n.
Qed.

Lemma execution_raises (st1 : Sched R) :
  scheduler_inv T s st1 -> NoDup st1.(executable_tasks) ->
  incl st1.(executable_tasks) st1.(remaining_tasks) ->
  overflow_only (for_each (run_task T) (Py.sorted st1.(executable_tasks)) st1).
Proof.
  intros HI He Hs e E.
  eapply (for_each_raises (run_task T)
            (running (scheduler_inv T s) (List.length st1.(remaining_tasks))
                     (List.length st1.(executable_tasks)))
            (fun e => e = OverflowError /\
                      Py.int_to_float s = Raised OverflowError));
    [ | | | exact E].
  - intros x xs st0 e0 (HP & _ & _ & Hin & _) E0.
    destruct (run_task_returns T s x st0 HP) as (st' & E').
    + apply Hin. now left.
    + congruence.
  - intros x xs st0 st0'. apply (running_step (inv_run_step T T_distinct s)).
  - unfold running.
    pose proof (partition_remaining_NoDup T_distinct (inv_partition HI)) as Hr.
    split; [exact HI|]. split; [exact Hr|].
    split; [now apply sorted_NoDup|].
    split; [intros y Hy; apply Hs; now apply sorted_In|].
    split; [intros y; apply sorted_In|].
    rewrite (Permutation_length (sorted_perm _)). apply Nat.le_refl.
Qed.

Lemma dead_letter_stuck_raises xs : forall (st : Sched R),
  st.(sched_dlq).(dlq_seed) = s ->
  overflow_only (for_each dead_letter_stuck xs st).
Proof.
  induction xs as [|x xs IH]; intros st Hs e; simpl; [discriminate|].
  unfold dead_letter_stuck at 1.
  destruct (add_failure (sched_dlq st) x circular_reason None) as [d|e0] eqn:E;
    simpl.
  - apply IH. simpl.
    apply add_failure_Returned in E. destruct E as (ts & _ & ->). exact Hs.
  - intros H. inversion H; subst e0. eapply add_failure_raises; eauto.
Qed.

Lemma round_raises (st : Sched R) :
  scheduler_inv T s st -> overflow_only (round T st).
Proof.
  intros HI e. unfold round.
  destruct (classification T st) as [st1|e0] eqn:Hc; simpl.
  - destruct (classification_preserves (scheduler_inv T s)
                (fun st0 => @inv_start _ _ T s st0)
                (inv_classify_step T T_distinct s) st
                (partition_remaining_NoDup T_distinct (inv_partition HI)) HI Hc)
      as (HI1 & _ & He1 & Hs1 & _).
    destruct (executable_tasks st1) as [|y ys] eqn:Ey.
    + destruct (for_each dead_letter_stuck (Py.sorted (remaining_tasks st1)) st1)
        as [st2|e1] eqn:E2; simpl; [discriminate|].
      intros H. inversion H; subst e1.
      eapply dead_letter_stuck_raises; [|exact E2]. apply HI1.
    + rewrite <- Ey in *.
      destruct (for_each (run_task T) (Py.sorted (executable_tasks st1)) st1)
        as [st2|e1] eqn:E2; simpl; [discriminate|].
      intros H. inversion H; subst e1.
      eapply execution_raises; eauto.
  - intros H. inversion H; subst e0. eapply classification_raises; eauto.
Qed.

Lemma while_remaining_raises budget : forall (st : Sched R),
  scheduler_inv T s st -> List.length st.(remaining_tasks) <= budget ->
  overflow_only (while_remaining T budget st).
Proof.
  induction budget as [|n IH]; intros st HI Hl e; simpl.
  - destruct (remaining_tasks st); simpl in Hl; [discriminate | lia].
  - destruct (remaining_tasks st) as [|z zs] eqn:Ez; [discriminate|].
    rewrite <- Ez in Hl.
    destruct (round T st) as [[stb|stc]|e0] eqn:Hr; simpl.
    + discriminate.
    + destruct (round_preserves (scheduler_inv T s)
                  (fun st0 => @inv_start _ _ T s st0)
                  (inv_classify_step T T_distinct s)
                  (inv_run_step T T_distinct s) st
                  (partition_remaining_NoDup T_distinct (inv_partition HI))
                  HI Hr)
        as (HIc & _ & Hlt).
      apply IH; auto. lia.
    + intros H. inversion H; subst e0. eapply round_raises; eauto.
Qed.

End Raises.

Lemma run_raises {py : Interpreter} {R : Type}
    {renderer_hooks : Renderer R} (self : PipelineEngine) (config : Config)
    (renderer : option R) e :
  NoDup (Py.keys self.(tasks)) ->
  run self config renderer = Raised e ->
  e = OverflowError /\
  Py.int_to_float (run_seed config) = Raised OverflowError.
Proof.
  intros Hd. unfold run, _execute_tasks. fold (run_seed config).
  rewrite (parse_config_tasks
             {| tasks := tasks self;
                dlq_system := Some (DLQSystem_init (run_seed config));
                random_generator :=
                  Some (DeterministicRandom_init (run_seed config)) |}
             self config eq_refl).
  fold (run_store self config).
  pose proof (while_remaining_raises (run_store self config)
                (run_store_NoDup self config Hd) (run_seed config)
                (List.length (Py.keys (run_store self config)))
                (run_initial self config renderer)
                (run_initial_inv self config renderer) (Nat.le_refl _) e)
    as H.
  unfold run_initial, initial_state, while_budget in *. simpl in *.
  destruct (while_remaining (run_store self config) _ _) as [st|e0];
    simpl; [discriminate|].
  intros E. inversion E; subst e0. now apply H.
Qed.



(** X3. Under a seed that is too large to convert to a float, [run]
    raises [OverflowError] at the first task it has to dead letter:
    when it returns, the queue of the report is empty and every task
    of the store was executed; and it raises when a task of the store
    declares a dependency that is no task of the store. *)
Theorem overflowing_seed {py : Interpreter} {R : Type}
    {renderer_hooks : Renderer R} (self : PipelineEngine) (config : Config)
    (renderer : option R) :
  NoDup (Py.keys self.(tasks)) ->
  Py.int_to_float (run_seed config) = Raised OverflowError ->
  (forall rep self' renderer',
     run self config renderer = Returned (rep, self', renderer') ->
     rep.(report_dlq) = [] /\
     Permutation rep.(report_execution_order)
                 (Py.keys (run_store self config))) /\
  (forall x task,
     Py.get x (run_store self config) = Some task ->
     missing_dependencies (run_store self config) task <> [] ->
     run self config renderer = Raised OverflowError).
Proof.
  intros Hd Ho.
  assert (Hempty : forall rep self' renderer',
            run self config renderer = Returned (rep, self', renderer') ->
            rep.(report_dlq) = []).
  { intros rep self' renderer' E.
    destruct (run_facts self config Hd renderer rep self' renderer' E)
      as (st1 & st' & F).
    destruct (end_reports F) as (_ & Hq & _).
    destruct (end_dlq F) as (_ & _ & Hst).
    rewrite Hq. destruct (failures (sched_dlq st')) as [|e0 es] eqn:Ef; auto.
    specialize (Hst 0 e0 eq_refl).
    unfold deterministic_timestamp in Hst. rewrite Ho in Hst. discriminate. }
  split.
  - intros rep self' renderer' E. split; [eauto|].
    destruct (run_facts self config Hd renderer rep self' renderer' E)
      as (st1 & st' & F).
    destruct (end_reports F) as (Hx & Hq & _).
    pose proof (end_partition F) as Hp.
    pose proof (Hempty _ _ _ E) as Hnil. rewrite Hq in Hnil.
    unfold dead_names in Hp. rewrite Hnil in Hp. simpl in Hp.
    rewrite app_nil_r in Hp. now rewrite Hx.
  - intros x task Hget Hm.
    destruct (run self config renderer) as [[[rep self'] renderer']|e] eqn:E.
    + exfalso.
      destruct (missing_dependency_contained self config Hd x task Hget Hm
                  renderer rep self' renderer' E) as ((e0 & Hin & _) & _).
      rewrite (Hempty _ _ _ eq_refl) in Hin. destruct Hin.
    + f_equal. now apply (run_raises self config renderer e Hd E).
Qed.

Lemma overflowing_seed_witness :
  run (py := Sample.salted 0) PipelineEngine_init Sample.beyond_float
      (@None ConsoleRenderer) = Raised OverflowError /\
  exists rep e r,
    run (py := Sample.salted 0) PipelineEngine_init Sample.beyond_float_free
        (@None ConsoleRenderer) = Returned (rep, e, r) /\
    rep.(report_dlq) = [].
Proof.
  split.
  - refine (proj2 (@overflowing_seed (Sample.salted 0) ConsoleRenderer _
                     PipelineEngine_init Sample.beyond_float None
                     (NoDup_nil _) _) "p"
                  (task_of_config (Sample.task "p" ["ghost"] 0)) _ _).
    + vm_compute. reflexivity.
    + vm_compute. reflexivity.
    + vm_compute. discriminate.
  - destruct (run (py := Sample.salted 0) PipelineEngine_init
                  Sample.beyond_float_free (@None ConsoleRenderer))
      as [[[rep e] r]|ex] eqn:E; [|vm_compute in E; discriminate].
    exists rep, e, r. split; [reflexivity|].
    refine (proj1 (proj1 (@overflowing_seed (Sample.salted 0) ConsoleRenderer
                            _ PipelineEngine_init Sample.beyond_float_free
                            None (NoDup_nil _) _) rep e r E)).
    vm_compute. reflexivity.
Defined.


(** ** The task store *)

Lemma dict_ext {V : Type} (d1 : Py.dict V) : forall d2,
  NoDup (Py.keys d1) -> Py.keys d1 = Py.keys d2 ->
  (forall x, Py.get x d1 = Py.get x d2) -> d1 = d2.
Proof.
  induction d1 as [|[k1 v1] d1 IH]; intros [|[k2 v2] d2] Hn Hk Hg;
    try discriminate; auto.
  simpl in Hk. injection Hk as Ek Hkt. subst k2.
  inversion Hn as [|? ? Hnk Hnd]; subst.
  pose proof (Hg k1) as Hv. simpl in Hv. rewrite String.eqb_refl in Hv.
  injection Hv as Ev. subst v2. f_equal. apply IH; auto.
  intros x. destruct (String.eqb_spec k1 x) as [<-|N].
  - assert (E1 : Py.get k1 d1 = None) by now apply get_None_keys.
    assert (E2 : Py.get k1 d2 = None)
      by (apply get_None_keys; now rewrite <- Hkt).
    now rewrite E1, E2.
  - specialize (Hg x). simpl in Hg.
    destruct (String.eqb_spec k1 x); [contradiction | exact Hg].
Qed.

Section Store.

Context {py : Interpreter}.

(** The store after the loop of [_parse_config] (lines 155-162). *)
Local Abbreviation parsed :=
  (fold_left (fun t c => Py.set c.(cfg_name) (task_of_config c) t)).

Lemma parsed_get (l : list TaskConfig) : forall d x,
  Py.get x (parsed l d) =
  match find (fun c => String.eqb c.(cfg_name) x) (rev l) with
  | Some c => Some (task_of_config c)
  | None => Py.get x d
  end.
Proof.
  induction l as [|c l IH] using rev_ind; intros d x; simpl; auto.
  rewrite fold_left_app, rev_app_distr. simpl. rewrite get_set.
  destruct (String.eqb (cfg_name c) x); auto.
Qed.

Lemma parsed_keys (l : list TaskConfig) : forall d,
  exists added,
    Py.keys (parsed l d) = Py.keys d ++ added /\
    forall n, In n added <->
      In n (map cfg_name l) /\ ~ In n (Py.keys d).
Proof.
  induction l as [|c l IH]; intros d; simpl.
  - exists []. rewrite app_nil_r. split; auto. simpl. tauto.
  - destruct (IH (Py.set (cfg_name c) (task_of_config c) d))
      as (added & Hk & Ha).
    rewrite keys_set in Hk, Ha.
    destruct (Py.mem (cfg_name c) d) eqn:Em.
    + exists added. split; [exact Hk|]. intros n. rewrite Ha.
      apply get_In_keys in Em. intuition congruence.
    + exists (cfg_name c :: added). split.
      * rewrite Hk, <- app_assoc. reflexivity.
      * assert (Hn : ~ In (cfg_name c) (Py.keys d)).
        { intros H. apply get_In_keys in H. congruence. }
        intros n. simpl. rewrite Ha, in_app_iff. simpl.
        destruct (string_dec (cfg_name c) n) as [<-|N]; intuition.
Qed.

Lemma parsed_absorbs (l : list TaskConfig) : forall d,
  (forall c, In c l -> In c.(cfg_name) (Py.keys d)) ->
  Py.keys (parsed l d) = Py.keys d.
Proof.
  induction l as [|c l IH]; intros d H; simpl; auto.
  assert (Hc : Py.mem (cfg_name c) d = true)
    by (apply get_In_keys, H; now left).
  rewrite IH; rewrite keys_set, Hc; auto.
  intros c' Hc'. apply H. now right.
Qed.

Lemma parsed_NoDup (l : list TaskConfig) : forall d,
  NoDup (Py.keys d) -> NoDup (Py.keys (parsed l d)).
Proof.
  induction l as [|c l IH]; intros d H; simpl; auto.
  apply IH. now apply keys_set_NoDup.
Qed.

Lemma parsed_twice (l : list TaskConfig) d :
  NoDup (Py.keys d) -> parsed l (parsed l d) = parsed l d.
Proof.
  intros Hd. apply dict_ext.
  - now apply parsed_NoDup, parsed_NoDup.
  - apply parsed_absorbs. intros c Hc.
    destruct (parsed_keys l d) as (added & Hk & Ha). rewrite Hk.
    apply in_app_iff.
    destruct (in_dec string_dec (cfg_name c) (Py.keys d)) as [H|H]; auto.
    right. apply Ha. split; auto. now apply in_map.
  - intros x. rewrite (parsed_get l (parsed l d)), (parsed_get l d).
    now destruct (find _ (rev l)).
Qed.

End Store.


(** X12. Running the same configuration again on the engine gives the same
    result as the first run: the second [_parse_config] rewrites the
    tasks of the configuration in place. *)
Theorem rerun_same_config {py : Interpreter} {R : Type}
    {renderer_hooks : Renderer R} (e : PipelineEngine) (config : Config)
    (r1 renderer : option R) rep1 e1 r1' :
  NoDup (Py.keys e.(tasks)) ->
  run e config r1 = Returned (rep1, e1, r1') ->
  run e1 config renderer = run e config renderer.
Proof.
  intros Hd E. rewrite (second_run e e1 config config r1 renderer rep1 r1' E).
  apply run_reads_store; [|reflexivity].
  unfold run_store. rewrite !parse_config_store. simpl.
  rewrite fold_left_app. now apply parsed_twice.
Qed.

Lemma rerun_same_config_witness :
  exists rep1 e1 r1,
    run (py := Sample.salted 0) PipelineEngine_init Sample.pipeline
        (@None ConsoleRenderer) = Returned (rep1, e1, r1) /\
    run e1 Sample.pipeline (@None ConsoleRenderer) =
    run (py := Sample.salted 0) PipelineEngine_init Sample.pipeline
        (@None ConsoleRenderer).
Proof.
  destruct (run (py := Sample.salted 0) PipelineEngine_init Sample.pipeline
                (@None ConsoleRenderer)) as [[[rep e] r]|ex] eqn:E;
    [|vm_compute in E; discriminate].
  exists rep, e, r. split; [reflexivity|].
  rewrite <- E.
  apply (@rerun_same_config (Sample.salted 0) ConsoleRenderer _
           PipelineEngine_init Sample.pipeline None None rep e r
           (NoDup_nil _) E).
Defined.

(** ** One stream of numbers per context *)

Section Streams.

Context {py : Interpreter}.

Lemma get_rng_states (rg : DeterministicRandom) c :
  Py.get c (snd (get_rng rg c)).(states) = Some (fst (get_rng rg c)) /\
  (forall c', c <> c' ->
     Py.get c' (snd (get_rng rg c)).(states) = Py.get c' rg.(states)) /\
  (snd (get_rng rg c)).(rnd_seed) = rg.(rnd_seed).
Proof.
  unfold get_rng. destruct (Py.get c (states rg)) as [g|] eqn:E; simpl.
  - auto.
  - rewrite get_set_same. repeat split.
    intros c' N. now apply get_set_other.
Qed.

Lemma draw_states (rg : DeterministicRandom) c :
  fst (draw rg c) = fst (random (fst (get_rng rg c))) /\
  Py.get c (snd (draw rg c)).(states) =
    Some (snd (random (fst (get_rng rg c)))) /\
  (forall c', c <> c' ->
     Py.get c' (snd (draw rg c)).(states) = Py.get c' rg.(states)) /\
  (snd (draw rg c)).(rnd_seed) = rg.(rnd_seed).
Proof.
  destruct (get_rng_states rg c) as (_ & Ho & Hs).
  unfold draw. destruct (get_rng rg c) as [g rg1]. simpl in *.
  destruct (random g) as [x g']. simpl.
  split; [reflexivity|]. split; [apply get_set_same|]. split; [|exact Hs].
  intros c' N. rewrite get_set_other by exact N. now apply Ho.
Qed.

Lemma get_rng_of_states (rg rg' : DeterministicRandom) c :
  Py.get c rg.(states) = Py.get c rg'.(states) ->
  rg.(rnd_seed) = rg'.(rnd_seed) ->
  fst (get_rng rg c) = fst (get_rng rg' c).
Proof.
  unfold get_rng. intros Hg Hs. rewrite Hg, Hs.
  now destruct (Py.get c (states rg')).
Qed.

(** X13. [get_rng] makes the generator of a context once and returns the
    same one afterwards; the numbers drawn for one context are the
    successive numbers of that generator; and a draw for one context
    leaves the numbers of every other context as they were. *)
Theorem one_stream_per_context (rg : DeterministicRandom) (c c' : string) :
  get_rng (snd (get_rng rg c)) c = (fst (get_rng rg c), snd (get_rng rg c)) /\
  fst (draw rg c) = fst (random (fst (get_rng rg c))) /\
  fst (draw (snd (draw rg c)) c) =
    fst (random (snd (random (fst (get_rng rg c))))) /\
  (c <> c' -> fst (draw (snd (draw rg c)) c') = fst (draw rg c')).
Proof.
  destruct (get_rng_states rg c) as (Hc & _ & _).
  destruct (draw_states rg c) as (Hd & Hdc & Hdo & Hds).
  split; [|split; [exact Hd|split]].
  - unfold get_rng at 1. rewrite Hc. reflexivity.
  - destruct (draw_states (snd (draw rg c)) c) as (Hd2 & _).
    rewrite Hd2. unfold get_rng at 1. now rewrite Hdc.
  - intros N.
    destruct (draw_states (snd (draw rg c)) c') as (Hd2 & _).
    destruct (draw_states rg c') as (Hd1 & _).
    rewrite Hd2, Hd1. f_equal. f_equal.
    apply get_rng_of_states; [now apply Hdo | exact Hds].
Qed.

End Streams.

Lemma one_stream_per_context_witness :
  fst (draw (py := Sample.salted 0)
         (snd (draw (DeterministicRandom_init 7) "7:a")) "7:b") =
  fst (draw (py := Sample.salted 0) (DeterministicRandom_init 7) "7:b").
Proof.
  refine (proj2 (proj2 (proj2
            (@one_stream_per_context (Sample.salted 0)
               (DeterministicRandom_init 7) "7:a" "7:b"))) _).
  discriminate.
Defined.

(** ** Failure rates outside the unit interval *)

Lemma SFcompare_refl x : x <> S754_nan -> SFcompare x x = Some Eq.
Proof.
  destruct x as [sx|sx| |sx mx ex]; simpl; intros H;
    try (destruct sx; reflexivity); [congruence|].
  rewrite Z.compare_refl, Pos.compare_cont_refl. now destruct sx.
Qed.

(** A number that is not equal to itself compares with nothing. *)
Lemma nan_ltb r x : PrimFloat.eqb r r = false -> PrimFloat.ltb r x = false.
Proof.
  rewrite eqb_spec, ltb_spec. unfold SFeqb, SFltb. intros H.
  destruct (Prim2SF r) as [sx|sx| |sx mx ex] eqn:E; try reflexivity;
    rewrite SFcompare_refl in H by discriminate; discriminate.
Qed.

Lemma below_zero_ltb r x :
  PrimFloat.ltb r 0 = true -> PrimFloat.leb 0 x = true ->
  PrimFloat.ltb r x = true.
Proof.
  rewrite !ltb_spec, leb_spec. unfold SFltb, SFleb.
  change (Prim2SF 0) with (S754_zero false).
  destruct (Prim2SF r) as [sr|sr| |sr mr er],
           (Prim2SF x) as [sx|sx| |sx mx ex]; simpl;
    try discriminate; try reflexivity;
    try (destruct sr; discriminate); try (destruct sx; discriminate);
    destruct sr, sx; simpl; try discriminate; reflexivity.
Qed.

(** Numbers at or above a positive number are not below the numbers
    below it. *)
Lemma SF_above_pivot mb eb a c :
  SFleb (S754_finite false mb eb) c = true ->
  SFltb a (S754_finite false mb eb) = true ->
  SFltb c a = false.
Proof.
  unfold SFltb, SFleb.
  destruct c as [sr|sr| |sr mr er], a as [sx|sx| |sx mx ex]; cbn [SFcompare];
    try discriminate; try reflexivity;
    try (destruct sr; discriminate); try (destruct sx; discriminate);
    try (destruct sr, sx; cbn; try discriminate; reflexivity).
  destruct sr, sx; cbn; try discriminate; try reflexivity.
  change (PosDef.Pos.compare_cont Eq) with Pos.compare.
  destruct (eb ?= er)%Z eqn:E1; destruct (ex ?= eb)%Z eqn:E2;
    destruct (mb ?= mr)%positive eqn:C1;
    destruct (mx ?= mb)%positive eqn:C2;
    intros H1 H2; try discriminate;
    destruct (er ?= ex)%Z eqn:E3; try reflexivity;
    destruct (mr ?= mx)%positive eqn:C3; try reflexivity;
    exfalso;
    repeat match goal with
           | H : (_ ?= _)%Z = Eq |- _ => apply Z.compare_eq in H
           | H : (?a ?= ?b)%Z = Lt |- _ => change (a < b)%Z in H
           | H : (?a ?= ?b)%Z = Gt |- _ => change (a > b)%Z in H
           | H : (_ ?= _)%positive = Eq |- _ => apply Pos.compare_eq in H
           | H : (?a ?= ?b)%positive = Lt |- _ => change (a < b)%positive in H
           | H : (?a ?= ?b)%positive = Gt |- _ => change (a > b)%positive in H
           end; lia.
Qed.

Lemma from_one_ltb r x :
  PrimFloat.leb 1 r = true -> PrimFloat.ltb x 1 = true ->
  PrimFloat.ltb r x = false.
Proof.
  rewrite !ltb_spec, leb_spec.
  assert (E : Prim2SF 1 = S754_finite false 4503599627370496 (-52))
    by reflexivity.
  rewrite E. apply SF_above_pivot.
Qed.



(** ** The check of the scheduler and [can_execute_task] *)

Lemma forallb_pointwise {A : Type} (f g : A -> bool) l :
  (forall a, In a l -> f a = g a) -> forallb f l = forallb g l.
Proof.
  induction l as [|a l IH]; simpl; intros H; auto.
  rewrite (H a) by now left. rewrite IH; auto.
Qed.

(** X15. In every state in which the scheduler tests its loop, the flag
    [can_execute] that it computes for a task (lines 182-194) is the
    answer of [ExecutionContext.can_execute_task] (lines 58-64): a
    dependency that is COMPLETED in the context is a task of the
    store. *)
Theorem can_execute_task_agrees {py : Interpreter} {R : Type}
    {renderer_hooks : Renderer R} (self : PipelineEngine) (config : Config)
    (renderer : option R) (st : Sched R) (task : Task) :
  NoDup (Py.keys self.(tasks)) ->
  loop_head (run_store self config) (run_initial self config renderer) st ->
  fst (fst (check_dependencies (run_store self config) st.(current_context)
                               task.(dependencies))) =
  can_execute_task st.(current_context) task.
Proof.
  intros Hd Hl. rewrite check_dependencies_spec. simpl.
  pose proof (loop_head_inv self config Hd renderer st Hl) as [[Hp Hk] _ _].
  unfold dependencies_completed, can_execute_task.
  apply forallb_pointwise. intros dep _.
  destruct (is_task_completed (current_context st) dep) eqn:Ec;
    [|now rewrite !andb_false_r].
  rewrite !andb_true_r.
  apply is_task_completed_In in Ec. destruct Ec as [_ Hin].
  assert (Hr : Py.mem dep (task_results (current_context st)) = true)
    by now apply get_In_keys.
  rewrite Hr. apply get_In_keys.
  apply (Permutation_in _ Hp). apply in_app_iff. left. now rewrite <- Hk.
Qed.

Lemma can_execute_task_agrees_witness :
  fst (fst (check_dependencies
              (run_store (py := Sample.salted 0) PipelineEngine_init
                         Sample.pipeline)
              (mkExecutionContext 999 [] [] []) ["task_a"])) =
  can_execute_task (mkExecutionContext 999 [] [] [])
                   (mkTask "task_b" ["task_a"] 1 1 PENDING).
Proof.
  apply (@can_execute_task_agrees (Sample.salted 0) ConsoleRenderer _
           PipelineEngine_init Sample.pipeline None
           (run_initial PipelineEngine_init Sample.pipeline None)
           (mkTask "task_b" ["task_a"] 1 1 PENDING) (NoDup_nil _)).
  apply loop_head_first.
Defined.

(** ** The first task of the execution order *)

(** X16. The first task of the execution order declares no dependency; so
    when every task of the store declares one, no task is executed,
    none is listed as completed or failed, and every task is in the
    dead letter queue. *)
Theorem first_task_has_no_dependencies {py : Interpreter} {R : Type}
    {renderer_hooks : Renderer R} (self : PipelineEngine) (config : Config)
    (renderer : option R) rep self' renderer' :
  NoDup (Py.keys self.(tasks)) ->
  run self config renderer = Returned (rep, self', renderer') ->
  (forall x rest task,
     rep.(report_execution_order) = x :: rest ->
     Py.get x (run_store self config) = Some task ->
     task.(dependencies) = []) /\
  ((forall x task, Py.get x (run_store self config) = Some task ->
                   task.(dependencies) <> []) ->
   rep.(report_execution_order) = [] /\ rep.(completed_tasks) = [] /\
   rep.(failed_tasks) = [] /\
   Permutation (dlq_names rep.(report_dlq))
               (Py.keys (run_store self config))).
Proof.
  intros Hd E.
  assert (Hfirst : forall x rest task,
            rep.(report_execution_order) = x :: rest ->
            Py.get x (run_store self config) = Some task ->
            task.(dependencies) = []).
  { intros x rest task Ho Hget.
    destruct (dependencies task) as [|dep deps] eqn:Edeps; auto.
    destruct (execution_order_gated self config Hd renderer rep self'
                renderer' E [] x rest task Ho Hget dep) as [[] _].
    rewrite Edeps. now left. }
  split; [exact Hfirst|]. intros Hall.
  destruct (run_facts self config Hd renderer rep self' renderer' E)
    as (st1 & st' & F).
  destruct (end_reports F) as (Ho & Hq & Hc & Hf & _).
  pose proof (end_partition F) as Hp. unfold dead_names in Hp.
  rewrite <- Ho, <- Hq in Hp.
  assert (Hnil : rep.(report_execution_order) = []).
  { destruct (report_execution_order rep) as [|x rest] eqn:Ex; auto.
    assert (Hk : In x (Py.keys (run_store self config))).
    { apply (Permutation_in _ Hp). now left. }
    destruct (keys_get _ _ Hk) as (task & Hget).
    exfalso. apply (Hall x task Hget). eapply Hfirst; eauto. }
  assert (Hres : Py.keys (task_results (current_context st')) = []).
  { rewrite (end_context F).
    rewrite (partition_results (inv_partition (end_inv F))).
    unfold executed. rewrite <- (end_context F).
    unfold executed in Ho. now rewrite <- Ho. }
  split; [exact Hnil|]. split; [|split].
  - rewrite Hc. destruct (names_with_status COMPLETED _) as [|y l] eqn:En; auto.
    assert (Hy : In y (y :: l)) by now left.
    rewrite <- En in Hy. apply names_with_status_keys in Hy.
    rewrite Hres in Hy. destruct Hy.
  - rewrite Hf. destruct (names_with_status FAILED _) as [|y l] eqn:En; auto.
    assert (Hy : In y (y :: l)) by now left.
    rewrite <- En in Hy. apply names_with_status_keys in Hy.
    rewrite Hres in Hy. destruct Hy.
  - rewrite Hnil in Hp. exact Hp.
Qed.

Lemma first_task_witness :
  exists rep e r,
    run (py := Sample.salted 0) PipelineEngine_init Sample.chain
        (@None ConsoleRenderer) = Returned (rep, e, r) /\
    rep.(report_execution_order) = [] /\ rep.(completed_tasks) = [] /\
    rep.(failed_tasks) = [] /\
    Permutation (dlq_names rep.(report_dlq)) ["u"; "v"].
Proof.
  destruct (run (py := Sample.salted 0) PipelineEngine_init Sample.chain
                (@None ConsoleRenderer)) as [[[rep e] r]|ex] eqn:E;
    [|vm_compute in E; discriminate].
  exists rep, e, r. split; [reflexivity|].
  apply (proj2 (@first_task_has_no_dependencies (Sample.salted 0)
                  ConsoleRenderer _ PipelineEngine_init Sample.chain None
                  rep e r (NoDup_nil _) E)).
  intros x task Hget. apply get_In in Hget. vm_compute in Hget.
  destruct Hget as [H|[H|[]]]; inversion H; subst; simpl; discriminate.
Defined.

(** ** What the console renderer prints during a run *)

Section LoopSteps.

Context {py : Interpreter} {R : Type} {renderer_hooks : Renderer R}.

Variable T : Py.dict Task.
Variable P : Sched R -> Prop.

Hypothesis P_start : forall st, P st -> P (start_round st).
Hypothesis P_classify : forall x st st',
  P st -> classify_task T x st = Returned st' -> P st'.
Hypothesis P_run : forall x st st',
  P st -> run_task T x st = Returned st' -> P st'.

Lemma for_each_keeps (body : string -> Sched R -> outcome (Sched R)) :
  (forall x st st', P st -> body x st = Returned st' -> P st') ->
  forall xs st st', P st -> for_each body xs st = Returned st' -> P st'.
Proof.
  intros step xs st st' HP E.
  apply (for_each_inv body (fun _ st0 => P st0)) with (3 := E); auto.
  intros x l s0 s1. apply step.
Qed.

(** The loop ends in a state of [P], or in the state that the
    deadlock loop makes of one. *)
Lemma while_remaining_last budget : forall (st st' : Sched R),
  P st -> while_remaining T budget st = Returned st' ->
  exists st1, P st1 /\
    (st' = st1 \/
     for_each dead_letter_stuck (Py.sorted st1.(remaining_tasks)) st1
       = Returned st').
Proof.
  induction budget as [|n IH]; intros st st' HP E; simpl in E.
  - destruct (remaining_tasks st); [|discriminate].
    inversion E; subst. eauto.
  - destruct (remaining_tasks st) as [|z zs] eqn:Ez.
    { inversion E; subst. eauto. }
    destruct (bind_Returned _ _ E) as (r & Hr & E1). clear E.
    unfold round in Hr. destruct (bind_Returned _ _ Hr) as (st1 & Hc & Hr1).
    clear Hr.
    assert (HP1 : P st1).
    { unfold classification in Hc.
      apply (for_each_keeps (classify_task T) P_classify) with (2 := Hc).
      now apply P_start. }
    destruct (executable_tasks st1) as [|y ys] eqn:Ey.
    + destruct (bind_Returned _ _ Hr1) as (st2 & Hs & Hr2).
      inversion Hr2; subst r. inversion E1; subst st2. eauto.
    + destruct (bind_Returned _ _ Hr1) as (st2 & Hs & Hr2).
      inversion Hr2; subst r.
      apply (IH st2 st'); auto.
      apply (for_each_keeps (run_task T) P_run) with (2 := Hs). exact HP1.
Qed.

End LoopSteps.

(** The lines [task_started] and then [task_completed] or
    [task_failed] print for a task, for a renderer that prints. *)
Definition console_lines (fail : option string) (completed : string -> bool)
    (x : string) : list string :=
  let hit := match fail with
             | Some n => String.eqb n x
             | None => false
             end in
  if hit then []
  else [("[STARTED] " ++ x)%string;
        if completed x then ("[COMPLETED] " ++ x)%string
        else ("[FAILED] " ++ x)%string].

Lemma console_hook_effect tag x (r : ConsoleRenderer) :
  let hit := match r.(fail_on_task) with
             | Some n => String.eqb n x
             | None => false
             end in
  let r' := absorb (console_hook tag x r) in
  r'.(fail_on_task) = r.(fail_on_task) /\
  r'.(stdout_broken) = r.(stdout_broken) /\
  (r.(enabled) = true -> r.(stdout_broken) = false ->
   r'.(enabled) = true /\
   r'.(stdout) = r.(stdout) ++
                 (if hit then [] else [("[" ++ tag ++ "] " ++ x)%string])) /\
  (r.(enabled) = false \/ r.(stdout_broken) = true ->
   (r'.(enabled) = false \/ r'.(stdout_broken) = true) /\
   r'.(stdout) = r.(stdout)).
Proof.
  unfold console_hook.
  destruct (match fail_on_task r with
            | Some n => String.eqb n x
            | None => false
            end); simpl.
  - rewrite app_nil_r. tauto.
  - destruct (enabled r) eqn:Ee, (stdout_broken r) eqn:Eb; simpl;
      rewrite ?Ee, ?Eb; intuition congruence.
Qed.

Lemma flat_map_pointwise {A B : Type} (f g : A -> list B) l :
  (forall a, In a l -> f a = g a) -> flat_map f l = flat_map g l.
Proof.
  induction l as [|a l IH]; simpl; intros H; auto.
  rewrite (H a) by now left. rewrite IH; auto.
Qed.

Section Console.

Context {py : Interpreter}.

Variable self : PipelineEngine.
Variable config : Config.
Hypothesis self_dict : NoDup (Py.keys self.(tasks)).

Local Abbreviation T := (run_store self config).
Local Abbreviation s := (run_seed config).

Variable r0 : ConsoleRenderer.

(** The renderer prints when it is enabled and its stream works. *)
Definition prints : bool := r0.(enabled) && negb r0.(stdout_broken).

Definition console_inv (st : Sched ConsoleRenderer) : Prop :=
  scheduler_inv T s st /\
  exists r, st.(sched_renderer) = Some r /\
    r.(fail_on_task) = r0.(fail_on_task) /\
    r.(stdout_broken) = r0.(stdout_broken) /\
    if prints
    then r.(enabled) = true /\
         r.(stdout) =
           r0.(stdout) ++
           flat_map (console_lines r0.(fail_on_task)
                       (is_task_completed st.(current_context)))
                    (executed st)
    else (r.(enabled) = false \/ r.(stdout_broken) = true) /\
         r.(stdout) = r0.(stdout).

Lemma console_inv_start st : console_inv st -> console_inv (start_round st).
Proof.
  intros [HI C]. split; [now apply inv_start | exact C].
Qed.

Lemma console_inv_classify x st st' :
  console_inv st -> classify_task T x st = Returned st' -> console_inv st'.
Proof.
  intros [HI C] E. apply classify_task_Returned in E. split.
  - eapply inv_classify; eauto. apply run_store_NoDup, self_dict.
  - destruct E as [task' _ _ (ts & _ & _ & ->)
                  | task' _ _ _ (ts & _ & _ & ->)
                  | task' _ _ _ _ -> | task' _ _ _ _ ->]; exact C.
Qed.

Lemma console_inv_run x st st' :
  console_inv st -> run_task T x st = Returned st' -> console_inv st'.
Proof.
  intros [HI C] E. split.
  { apply run_task_Returned in E. eapply inv_run; eauto.
    apply run_store_NoDup, self_dict. }
  unfold run_task in E.
  destruct (bind_Returned _ _ E) as (task & Hget & E1). clear E.
  destruct (bind_Returned _ _ E1) as (rem & Hrem & E2). clear E1.
  apply set_remove_Returned in Hrem. destruct Hrem as [Hx ->].
  destruct (_execute_task (sched_random st) task (current_context st))
    as [result rg] eqn:Ex.
  inversion E2; subst st'; clear E2.
  destruct (partition_remaining_fresh (run_store_NoDup self config self_dict)
              x (inv_partition HI) Hx) as [Hne _].
  pose proof (partition_results (inv_partition HI)) as Hk.
  destruct C as (r & Hr & Hf & Hb & Hout). rewrite Hr. simpl.
  set (r1 := absorb (console_hook "STARTED" x r)).
  set (tag := if TaskStatus_eqb (status result) COMPLETED
              then "COMPLETED" else "FAILED").
  set (r2 := absorb (console_hook tag x r1)).
  assert (Hr2 : (if TaskStatus_eqb (status result) COMPLETED
                 then Some (absorb (console_hook "COMPLETED" x r1))
                 else Some (absorb (console_hook "FAILED" x r1))) = Some r2).
  { unfold r2, tag. now destruct (TaskStatus_eqb (status result) COMPLETED). }
  rewrite Hr2. exists r2. split; [reflexivity|].
  destruct (console_hook_effect "STARTED" x r) as (F1 & B1 & P1 & N1).
  destruct (console_hook_effect tag x r1) as (F2 & B2 & P2 & N2).
  fold r1 in F1, B1, P1, N1. fold r2 in F2, B2, P2, N2.
  split; [congruence|]. split; [congruence|].
  unfold prints in *.
  destruct (enabled r0 && negb (stdout_broken r0)) eqn:Ep.
  - destruct Hout as [He Hs]. apply andb_true_iff in Ep.
    destruct Ep as [_ Ep]. apply negb_true_iff in Ep.
    rewrite <- Hb in Ep.
    destruct (P1 He Ep) as [He1 Hs1].
    assert (Eb1 : stdout_broken r1 = false) by congruence.
    destruct (P2 He1 Eb1) as [He2 Hs2].
    split; [exact He2|]. rewrite Hs2, Hs1, Hs, F1, Hf.
    unfold executed. simpl. rewrite flat_map_app. simpl.
    rewrite app_nil_r, <- !app_assoc. f_equal.
    rewrite (flat_map_pointwise
               (console_lines (fail_on_task r0)
                  (is_task_completed
                     {| seed := seed (current_context st);
                        task_results :=
                          Py.set x result (task_results (current_context st));
                        execution_order :=
                          execution_order (current_context st) ++ [x];
                        dlq := dlq (current_context st) |}))
               (console_lines (fail_on_task r0)
                  (is_task_completed (current_context st)))).
    + f_equal. unfold console_lines, is_task_completed. simpl.
      rewrite get_set_same.
      destruct (match fail_on_task r0 with
                | Some n => String.eqb n x
                | None => false
                end); [reflexivity|].
      unfold tag. simpl.
      now destruct (TaskStatus_eqb (status result) COMPLETED).
    + intros y Hy. unfold console_lines, is_task_completed. simpl.
      rewrite get_set_other; [reflexivity|].
      intros ->. apply Hne. exact Hy.
  - destruct Hout as [Hoff Hs].
    destruct (N1 Hoff) as [Hoff1 Hs1]. destruct (N2 Hoff1) as [Hoff2 Hs2].
    split; [exact Hoff2|]. congruence.
Qed.

Lemma run_console rep self' renderer' :
  run self config (Some r0) = Returned (rep, self', renderer') ->
  exists r, renderer' = Some r /\
    r.(fail_on_task) = r0.(fail_on_task) /\
    r.(stdout_broken) = r0.(stdout_broken) /\
    r.(stdout) =
      r0.(stdout) ++
      if prints
      then flat_map (console_lines r0.(fail_on_task)
                       (fun x => Py.contains x rep.(completed_tasks)))
                    rep.(report_execution_order)
      else [].
Proof.
  intros E. apply run_report in E.
  destruct E as (st' & E & Hrep & _ & Hrd).
  assert (H0 : console_inv (run_initial self config (Some r0))).
  { split; [apply run_initial_inv|]. exists r0.
    do 3 (split; [reflexivity|]). unfold executed. simpl.
    destruct prints eqn:Ep.
    - rewrite app_nil_r. split; [|reflexivity].
      unfold prints in Ep. apply andb_true_iff in Ep. tauto.
    - split; [|reflexivity]. unfold prints in Ep.
      destruct (enabled r0), (stdout_broken r0); simpl in Ep; auto;
        discriminate. }
  destruct (while_remaining_last T console_inv console_inv_start
              console_inv_classify console_inv_run _ _ _ H0 E)
    as (st1 & [HI C] & Hlast).
  assert (Hsame : st'.(sched_renderer) = st1.(sched_renderer) /\
                  st'.(current_context) = st1.(current_context)).
  { destruct Hlast as [->|Hst]; [auto|].
    destruct (dead_letter_stuck_keeps _ _ _ Hst) as (H1 & _).
    destruct (dead_letter_stuck_all _ _ Hst) as (H2 & _). auto. }
  destruct Hsame as [Hsr Hsc].
  destruct C as (r & Hr & Hf & Hb & Hout).
  exists r. split; [congruence|]. split; [exact Hf|]. split; [exact Hb|].
  assert (Ho : rep.(report_execution_order) = executed st1).
  { rewrite Hrep. unfold report_from, _generate_result, executed. simpl.
    now rewrite Hsc. }
  assert (Hc : rep.(completed_tasks) =
               names_with_status COMPLETED
                 (task_results (current_context st1))).
  { rewrite Hrep. unfold report_from, _generate_result. simpl.
    now rewrite Hsc. }
  destruct prints.
  - destruct Hout as [_ Hs]. rewrite Hs, Ho. f_equal.
    apply flat_map_pointwise. intros y Hy. unfold console_lines.
    assert (Hb' : is_task_completed (current_context st1) y =
                  Py.contains y (completed_tasks rep)).
    { assert (Hnd : NoDup (Py.keys (task_results (current_context st1)))).
      { rewrite (partition_results (inv_partition HI)).
        pose proof (partition_NoDup (run_store_NoDup self config self_dict)
                      (inv_partition HI)) as Hn.
        now apply NoDup_app_remove_r in Hn. }
      destruct (Py.contains y (completed_tasks rep)) eqn:Ec.
      - apply contains_In in Ec. rewrite Hc in Ec.
        apply (names_with_status_iff _ _ _ Hnd) in Ec.
        destruct Ec as (res & Hg & Hst). unfold is_task_completed.
        rewrite Hg, Hst. reflexivity.
      - destruct (is_task_completed (current_context st1) y) eqn:Ei; auto.
        apply is_task_completed_In in Ei. destruct Ei as [Ei _].
        rewrite <- Hc in Ei. apply contains_In in Ei. congruence. }
    now rewrite Hb'.
  - destruct Hout as [_ Hs]. now rewrite Hs, app_nil_r.
Qed.

End Console.

(** X17. During a run, a console renderer that is enabled and whose stream
    works prints, for each executed task in execution order, the line
    [[STARTED] name] and then [[COMPLETED] name] or [[FAILED] name],
    and nothing else: no line for a dead lettered task, and none for
    the task named by [fail_on_task], whose hooks raise. A renderer
    that is disabled, or whose stream raises, prints nothing. *)
Theorem console_output {py : Interpreter} (self : PipelineEngine)
    (config : Config) (r0 : ConsoleRenderer) rep self' renderer' :
  NoDup (Py.keys self.(tasks)) ->
  run self config (Some r0) = Returned (rep, self', renderer') ->
  exists r, renderer' = Some r /\
    r.(fail_on_task) = r0.(fail_on_task) /\
    r.(stdout_broken) = r0.(stdout_broken) /\
    r.(stdout) =
      r0.(stdout) ++
      if r0.(enabled) && negb r0.(stdout_broken)
      then flat_map (console_lines r0.(fail_on_task)
                       (fun x => Py.contains x rep.(completed_tasks)))
                    rep.(report_execution_order)
      else [].
Proof.
  intros Hd E. apply (run_console self config Hd r0 rep self' renderer' E).
Qed.

Lemma console_output_witness :
  exists rep e r,
    run (py := Sample.salted 0) PipelineEngine_init Sample.pipeline
        (Some (mkConsoleRenderer true (Some "task_a") [] false))
      = Returned (rep, e, Some r) /\
    r.(stdout) = ["[STARTED] task_b"; "[FAILED] task_b"].
Proof.
  destruct (run (py := Sample.salted 0) PipelineEngine_init Sample.pipeline
                (Some (mkConsoleRenderer true (Some "task_a") [] false)))
    as [[[rep e] rd]|ex] eqn:E; [|vm_compute in E; discriminate].
  destruct (@console_output (Sample.salted 0) PipelineEngine_init
              Sample.pipeline (mkConsoleRenderer true (Some "task_a") [] false)
              rep e rd (NoDup_nil _) E) as (r & -> & _ & _ & Hs).
  exists rep, e, r. split; [reflexivity|].
  rewrite Hs. vm_compute in E. inversion E. reflexivity.
Defined.

(** ** The order of the tasks in the store *)

Lemma name_le_antisym x y : name_le x y -> name_le y x -> x = y.
Proof.
  unfold name_le, String.leb. rewrite (String.compare_antisym x y).
  destruct (String.compare y x) eqn:E; simpl; try discriminate.
  intros _ _. apply String.compare_eq_iff in E. now subst.
Qed.

Lemma sorted_unique (l1 : list string) : forall l2,
  StronglySorted name_le l1 -> StronglySorted name_le l2 ->
  Permutation l1 l2 -> l1 = l2.
Proof.
  induction l1 as [|a l1 IH]; intros l2 H1 H2 Hp.
  - apply Permutation_nil in Hp. now subst.
  - destruct l2 as [|b l2].
    { apply Permutation_sym, Permutation_nil in Hp. discriminate. }
    inversion H1 as [|? ? S1 F1]; subst. inversion H2 as [|? ? S2 F2]; subst.
    rewrite Forall_forall in F1, F2.
    assert (Hab : a = b).
    { assert (Ha : In a (b :: l2)) by (apply (Permutation_in _ Hp); now left).
      assert (Hb : In b (a :: l1))
        by (apply (Permutation_in _ (Permutation_sym Hp)); now left).
      destruct Ha as [->|Ha]; [reflexivity|].
      destruct Hb as [->|Hb]; [reflexivity|].
      apply name_le_antisym; auto. }
    subst b. f_equal. apply IH; auto.
    now apply Permutation_cons_inv in Hp.
Qed.

Lemma sorted_of_permutation l1 l2 :
  Permutation l1 l2 -> Py.sorted l1 = Py.sorted l2.
Proof.
  intros Hp. apply sorted_unique; try apply sorted_sorted.
  rewrite !sorted_perm. exact Hp.
Qed.

Lemma discard_permutation x l1 l2 :
  Permutation l1 l2 -> Permutation (Py.discard x l1) (Py.discard x l2).
Proof.
  unfold Py.discard. induction 1; simpl.
  - constructor.
  - destruct (negb (String.eqb x x0)); auto.
  - destruct (negb (String.eqb x x0)), (negb (String.eqb x y)); auto.
    apply perm_swap.
  - etransitivity; eauto.
Qed.

Lemma contains_permutation x l1 l2 :
  Permutation l1 l2 -> Py.contains x l1 = Py.contains x l2.
Proof.
  intros Hp. destruct (Py.contains x l2) eqn:E.
  - apply contains_In. apply contains_In in E.
    now apply (Permutation_in _ (Permutation_sym Hp)).
  - apply contains_false. apply contains_false in E.
    intros H. apply E. now apply (Permutation_in _ Hp).
Qed.

Section Reorder.

Context {py : Interpreter} {R : Type} {renderer_hooks : Renderer R}.

Variables T1 T2 : Py.dict Task.
Hypothesis T1_distinct : NoDup (Py.keys T1).
Hypothesis same_tasks : Permutation T1 T2.

Lemma T2_distinct : NoDup (Py.keys T2).
Proof.
  eapply Permutation_NoDup; [|exact T1_distinct].
  unfold Py.keys. now apply Permutation_map.
Qed.

Lemma get_reordered x : Py.get x T1 = Py.get x T2.
Proof.
  destruct (Py.get x T1) as [v|] eqn:E1.
  - symmetry. apply In_get; [apply T2_distinct|].
    apply (Permutation_in _ same_tasks). now apply get_In.
  - destruct (Py.get x T2) as [v|] eqn:E2; auto.
    apply get_In in E2.
    apply (Permutation_in _ (Permutation_sym same_tasks)) in E2.
    apply (In_get _ _ _ T1_distinct) in E2. congruence.
Qed.

Lemma mem_reordered x : Py.mem x T1 = Py.mem x T2.
Proof. unfold Py.mem. now rewrite get_reordered. Qed.

Lemma check_dependencies_reordered ctx deps :
  check_dependencies T1 ctx deps = check_dependencies T2 ctx deps.
Proof.
  unfold check_dependencies. generalize (true, @nil string, @nil string).
  induction deps as [|dep deps IH]; intros acc; simpl; auto.
  rewrite IH. f_equal. unfold check_dependency.
  destruct acc as [[c m] f]. now rewrite mem_reordered.
Qed.

(** Two scheduler states that differ in the order in which the working
    sets hold their names at most. *)
Definition same_work (st1 st2 : Sched R) : Prop :=
  st1.(current_context) = st2.(current_context) /\
  st1.(sched_dlq) = st2.(sched_dlq) /\
  st1.(sched_random) = st2.(sched_random) /\
  Permutation st1.(remaining_tasks) st2.(remaining_tasks) /\
  st1.(executable_tasks) = st2.(executable_tasks) /\
  st1.(sched_renderer) = st2.(sched_renderer).

Lemma dead_letter_reordered x reason st1 st2 :
  same_work st1 st2 ->
  same_outcome same_work (dead_letter x reason st1) (dead_letter x reason st2).
Proof.
  intros (Hc & Hd & Hg & Hr & He & Hn). unfold dead_letter.
  rewrite Hd. destruct (add_failure _ x reason None); simpl; auto.
  unfold Py.set_remove. rewrite (contains_permutation x _ _ Hr).
  destruct (Py.contains x (remaining_tasks st2)); simpl; auto.
  repeat split; auto. now apply discard_permutation.
Qed.

Lemma classify_task_reordered x st1 st2 :
  same_work st1 st2 ->
  same_outcome same_work (classify_task T1 x st1) (classify_task T2 x st2).
Proof.
  intros H. unfold classify_task, Py.getitem.
  assert (Hc : current_context st1 = current_context st2) by apply H.
  rewrite get_reordered, Hc.
  destruct (Py.get x T2) as [task|]; simpl; auto.
  rewrite check_dependencies_reordered.
  destruct (check_dependencies T2 (current_context st2) (dependencies task))
    as [[c m] f].
  destruct m; [destruct f; [destruct c|]|];
    try now apply dead_letter_reordered.
  - destruct H as (? & Hd & Hg & Hr & He & Hn). simpl.
    repeat split; auto. now rewrite He.
  - exact H.
Qed.

Lemma dead_letter_stuck_reordered x st1 st2 :
  same_work st1 st2 ->
  same_outcome same_work (dead_letter_stuck x st1) (dead_letter_stuck x st2).
Proof.
  intros (Hc & Hd & Hg & Hr & He & Hn). unfold dead_letter_stuck.
  rewrite Hd. destruct (add_failure _ x circular_reason None); simpl; auto.
  repeat split; auto.
Qed.

Lemma run_task_reordered x st1 st2 :
  same_work st1 st2 ->
  same_outcome same_work (run_task T1 x st1) (run_task T2 x st2).
Proof.
  intros (Hc & Hd & Hg & Hr & He & Hn). unfold run_task, Py.getitem.
  rewrite get_reordered.
  destruct (Py.get x T2) as [task|]; simpl; auto.
  unfold Py.set_remove. rewrite (contains_permutation x _ _ Hr).
  destruct (Py.contains x (remaining_tasks st2)); simpl; auto.
  rewrite Hc, Hg, Hn.
  destruct (_execute_task (sched_random st2) task (current_context st2))
    as [result rg]. simpl.
  repeat split; auto. now apply discard_permutation.
Qed.

Lemma classification_reordered st1 st2 :
  same_work st1 st2 ->
  same_outcome same_work (classification T1 st1) (classification T2 st2).
Proof.
  intros H. unfold classification.
  assert (Hr : Permutation (remaining_tasks st1) (remaining_tasks st2))
    by apply H.
  rewrite (sorted_of_permutation _ _ Hr). apply same_outcome_for_each.
  - intros x a b. apply classify_task_reordered.
  - destruct H as (? & ? & ? & ? & ? & ?). repeat split; auto.
Qed.

Definition same_work_turn (r1 r2 : Sched R + Sched R) : Prop :=
  match r1, r2 with
  | inl a, inl b => same_work a b
  | inr a, inr b => same_work a b
  | _, _ => False
  end.

Lemma round_reordered st1 st2 :
  same_work st1 st2 ->
  same_outcome same_work_turn (round T1 st1) (round T2 st2).
Proof.
  intros H. unfold round.
  eapply same_outcome_bind; [apply classification_reordered; exact H|].
  intros a b Hab.
  assert (He : executable_tasks a = executable_tasks b) by apply Hab.
  assert (Hr : Permutation (remaining_tasks a) (remaining_tasks b))
    by apply Hab.
  rewrite He, (sorted_of_permutation _ _ Hr). destruct (executable_tasks b).
  - eapply same_outcome_bind.
    + apply same_outcome_for_each; [apply dead_letter_stuck_reordered | exact Hab].
    + intros a' b' H'. exact H'.
  - eapply same_outcome_bind.
    + apply same_outcome_for_each; [apply run_task_reordered | exact Hab].
    + intros a' b' H'. exact H'.
Qed.

Lemma while_remaining_reordered budget : forall st1 st2,
  same_work st1 st2 ->
  same_outcome same_work (while_remaining T1 budget st1)
                         (while_remaining T2 budget st2).
Proof.
  induction budget as [|n IH]; intros st1 st2 H; simpl;
    assert (Hr : Permutation (remaining_tasks st1) (remaining_tasks st2))
      by apply H;
    destruct (remaining_tasks st1) as [|x1 l1] eqn:E1;
    destruct (remaining_tasks st2) as [|x2 l2] eqn:E2; simpl; auto;
    try (apply Permutation_nil in Hr; discriminate);
    try (apply Permutation_sym, Permutation_nil in Hr; discriminate).
  eapply same_outcome_bind; [apply round_reordered; exact H|].
  intros [a|a] [b|b] Hab; simpl in *; auto; contradiction.
Qed.

Lemma execute_tasks_reordered d rg context (renderer : option R) :
  same_outcome same_work (_execute_tasks T1 d rg context renderer)
                         (_execute_tasks T2 d rg context renderer).
Proof.
  unfold _execute_tasks, while_budget. simpl.
  assert (Hk : Permutation (Py.keys T1) (Py.keys T2))
    by (unfold Py.keys; now apply Permutation_map).
  rewrite (Permutation_length Hk).
  eapply same_outcome_bind.
  - apply while_remaining_reordered. repeat split; auto.
  - intros a b (Hc & Hd & Hg & Hr & He & Hn). simpl.
    rewrite Hc, Hd. repeat split; auto.
Qed.

End Reorder.

(** X18. The order in which the store holds its tasks has no part in the
    report: two runs under the same seed whose stores hold the same
    tasks, in any order, end the same way and give the same report,
    with the same execution order and the same dead letter queue. *)
Theorem task_order_is_irrelevant {py : Interpreter} {R : Type}
    {renderer_hooks : Renderer R} (e1 e2 : PipelineEngine) (c1 c2 : Config)
    (renderer : option R) :
  NoDup (Py.keys (run_store e1 c1)) ->
  Permutation (run_store e1 c1) (run_store e2 c2) ->
  run_seed c1 = run_seed c2 ->
  report_of (run e1 c1 renderer) = report_of (run e2 c2 renderer).
Proof.
  intros Hd Hp Hs. unfold run. fold (run_seed c1) (run_seed c2).
  rewrite (parse_config_tasks
             {| tasks := tasks e1;
                dlq_system := Some (DLQSystem_init (run_seed c1));
                random_generator :=
                  Some (DeterministicRandom_init (run_seed c1)) |}
             e1 c1 eq_refl).
  rewrite (parse_config_tasks
             {| tasks := tasks e2;
                dlq_system := Some (DLQSystem_init (run_seed c2));
                random_generator :=
                  Some (DeterministicRandom_init (run_seed c2)) |}
             e2 c2 eq_refl).
  fold (run_store e1 c1) (run_store e2 c2). rewrite <- Hs.
  pose proof (execute_tasks_reordered (run_store e1 c1) (run_store e2 c2)
                Hd Hp (DLQSystem_init (run_seed c1))
                (DeterministicRandom_init (run_seed c1))
                {| seed := run_seed c1; task_results := [];
                   execution_order := []; dlq := [] |} renderer) as H.
  destruct (_execute_tasks (run_store e1 c1) _ _ _ renderer) as [st1|x1];
    destruct (_execute_tasks (run_store e2 c2) _ _ _ renderer) as [st2|x2];
    simpl in *; try contradiction; [|now subst].
  destruct H as (Hc & Hq & Hg & _). rewrite Hc, Hq, Hg.
  unfold _generate_result. cbn [tasks].
  now rewrite (Permutation_length Hp).
Qed.

Lemma task_order_witness :
  report_of (run (py := Sample.salted 0) PipelineEngine_init Sample.pipeline
                 (@None ConsoleRenderer)) =
  report_of (run (py := Sample.salted 0) PipelineEngine_init
                 Sample.pipeline_reversed (@None ConsoleRenderer)).
Proof.
  apply (@task_order_is_irrelevant (Sample.salted 0) ConsoleRenderer _
           PipelineEngine_init PipelineEngine_init Sample.pipeline
           Sample.pipeline_reversed None).
  - vm_compute. repeat constructor; simpl; intuition discriminate.
  - vm_compute. apply Permutation_rev.
  - reflexivity.
Defined.

(** ** The first pass of the scheduler *)

Lemma filter_sorted (f : string -> bool) l :
  StronglySorted name_le l -> StronglySorted name_le (filter f l).
Proof.
  induction 1 as [|a l Hl IH Ha]; simpl; [constructor|].
  destruct (f a); auto. constructor; auto.
  rewrite Forall_forall in *. intros y Hy. apply filter_In in Hy.
  apply Ha. tauto.
Qed.

Lemma sorted_of_sorted l : StronglySorted name_le l -> Py.sorted l = l.
Proof.
  intros H. apply sorted_unique; auto; [apply sorted_sorted | apply sorted_perm].
Qed.

Lemma filter_snoc {A : Type} (f : A -> bool) l a :
  filter f (l ++ [a]) = filter f l ++ (if f a then [a] else []).
Proof. rewrite filter_app. simpl. now destruct (f a). Qed.

(** A task that declares a dependency that is no task of the store. *)
Definition waits_for_missing (tasks : Py.dict Task) (x : string) : bool :=
  match Py.get x tasks with
  | Some task => existsb (fun dep => negb (Py.mem dep tasks)) task.(dependencies)
  | None => false
  end.

(** A task that declares no dependency. *)
Definition is_root (tasks : Py.dict Task) (x : string) : bool :=
  match Py.get x tasks with
  | Some task => match task.(dependencies) with [] => true | _ :: _ => false end
  | None => false
  end.

Lemma existsb_filter {A : Type} (f : A -> bool) l :
  existsb f l = match filter f l with [] => false | _ :: _ => true end.
Proof.
  induction l as [|a l IH]; simpl; auto.
  destruct (f a); simpl; auto.
Qed.

Section FirstPass.

Context {py : Interpreter} {R : Type} {renderer_hooks : Renderer R}.

Variable T : Py.dict Task.

(** The classification of the first pass, name by name: the context
    holds no result yet. *)
Definition first_pass (todo : list string) (st : Sched R) : Prop :=
  st.(current_context).(task_results) = [] /\
  st.(current_context).(execution_order) = [] /\
  exists done,
    done ++ todo = Py.sorted (Py.keys T) /\
    dlq_names st.(sched_dlq).(failures) = filter (waits_for_missing T) done /\
    st.(executable_tasks) = filter (is_root T) done.

Lemma first_pass_step x xs (st st' : Sched R) :
  first_pass (x :: xs) st -> classify_task T x st = Returned st' ->
  first_pass xs st'.
Proof.
  intros (Hres & Hord & done & Hsplit & Hq & He) E.
  apply classify_task_Returned in E.
  assert (Hsplit' : (done ++ [x]) ++ xs = Py.sorted (Py.keys T))
    by (rewrite <- app_assoc; exact Hsplit).
  assert (Hnf : forall task,
            failed_dependencies T (current_context st) task = []).
  { intros task. apply filter_nil. intros dep _.
    unfold is_task_failed. rewrite Hres. simpl. apply andb_false_r. }
  assert (Hroot : forall task,
            dependencies_completed T (current_context st) task =
            match task.(dependencies) with [] => true | _ :: _ => false end).
  { intros task. unfold dependencies_completed, is_task_completed.
    rewrite Hres. destruct (dependencies task); simpl; auto.
    now rewrite andb_false_r. }
  destruct E as [task Hget Hm (ts & _ & _ & ->)
                | task Hget _ Hf _
                | task Hget Hm _ Hc -> | task Hget Hm _ Hc ->].
  - split; [exact Hres|]. split; [exact Hord|].
    exists (done ++ [x]). split; [exact Hsplit'|]. simpl.
    unfold dlq_names. rewrite map_app, !filter_snoc. simpl.
    unfold waits_for_missing at 2, is_root at 2. rewrite Hget.
    rewrite existsb_filter. fold (missing_dependencies T task).
    destruct (missing_dependencies T task) as [|m ms] eqn:Em; [congruence|].
    assert (Hdeps : task.(dependencies) <> []).
    { intros H0. unfold missing_dependencies in Em. rewrite H0 in Em.
      discriminate. }
    destruct (dependencies task); [congruence|].
    rewrite app_nil_r. split; [|exact He]. f_equal. exact Hq.
  - exfalso. apply Hf, Hnf.
  - unfold add_executable. simpl. split; [exact Hres|]. split; [exact Hord|].
    exists (done ++ [x]). split; [exact Hsplit'|].
    rewrite !filter_snoc. unfold waits_for_missing at 2, is_root at 2.
    rewrite Hget, existsb_filter. fold (missing_dependencies T task).
    rewrite Hm, app_nil_r. rewrite Hroot in Hc.
    destruct (dependencies task); [|discriminate].
    split; [exact Hq|]. now rewrite He.
  - split; [exact Hres|]. split; [exact Hord|].
    exists (done ++ [x]). split; [exact Hsplit'|].
    rewrite !filter_snoc. unfold waits_for_missing at 2, is_root at 2.
    rewrite Hget, existsb_filter. fold (missing_dependencies T task).
    rewrite Hm, !app_nil_r. rewrite Hroot in Hc.
    destruct (dependencies task); [discriminate|].
    rewrite app_nil_r. split; [exact Hq | exact He].
Qed.

(** Later steps only append to the execution order and to the queue. *)
Definition extends (order names : list string) (st : Sched R) : Prop :=
  (exists l, executed st = order ++ l) /\
  (exists l, dead_names st = names ++ l).

Lemma extends_classify order names x (st st' : Sched R) :
  extends order names st -> classify_task T x st = Returned st' ->
  extends order names st'.
Proof.
  intros [[l Hl] [m Hm]] E. apply classify_task_Returned in E.
  destruct E as [task _ _ (ts & _ & _ & ->)
                | task _ _ _ (ts & _ & _ & ->)
                | task _ _ _ _ -> | task _ _ _ _ ->];
    split; eauto; unfold dead_names, dlq_names in *; simpl;
    rewrite map_app, Hm, <- app_assoc; eauto.
Qed.

Lemma extends_run order names x (st st' : Sched R) :
  extends order names st -> run_task T x st = Returned st' ->
  extends order names st'.
Proof.
  intros [[l Hl] [m Hm]] E. apply run_task_Returned in E.
  destruct E as (task & result & rg & rd & _ & _ & _ & ->).
  split; [|eauto]. unfold executed in *. simpl.
  rewrite Hl, <- app_assoc. eauto.
Qed.

Lemma extends_stuck order names xs (st st' : Sched R) :
  extends order names st ->
  for_each dead_letter_stuck xs st = Returned st' ->
  extends order names st'.
Proof.
  intros [[l Hl] [m Hm]] E.
  destruct (dead_letter_stuck_all _ _ E) as (Hc & _ & _ & _ & es & Hes & _).
  split.
  - unfold executed in *. rewrite Hc. eauto.
  - unfold dead_names, dlq_names in *. rewrite Hes, map_app, Hm, <- app_assoc.
    eauto.
Qed.

Lemma while_remaining_extends order names budget (st st' : Sched R) :
  extends order names st -> while_remaining T budget st = Returned st' ->
  extends order names st'.
Proof.
  intros H E.
  destruct (while_remaining_last T (extends order names)
              (fun st0 H0 => H0) (extends_classify order names)
              (extends_run order names) budget st st' H E)
    as (st1 & H1 & [->|Hs]); auto.
  eapply extends_stuck; eauto.
Qed.

Lemma run_tasks_append xs : forall (st st' : Sched R),
  for_each (run_task T) xs st = Returned st' ->
  executed st' = executed st ++ xs /\ dead_names st' = dead_names st.
Proof.
  induction xs as [|y xs IH]; intros st st' E; simpl in E.
  - inversion E. now rewrite app_nil_r.
  - destruct (bind_Returned _ _ E) as (st1 & Hb & E1).
    destruct (IH st1 st' E1) as [-> ->]. apply run_task_Returned in Hb.
    destruct Hb as (task' & result & rg & rd & _ & _ & _ & ->).
    unfold executed, dead_names; simpl. now rewrite <- app_assoc.
Qed.

Lemma first_pass_of_loop budget (renderer : option R) d rg s (st' : Sched R) :
  d.(failures) = [] ->
  while_remaining T budget
    (initial_state T d rg (mkExecutionContext s [] [] []) renderer)
    = Returned st' ->
  extends (filter (is_root T) (Py.sorted (Py.keys T)))
          (filter (waits_for_missing T) (Py.sorted (Py.keys T))) st'.
Proof.
  intros Hd E.
  remember (initial_state T d rg (mkExecutionContext s [] [] []) renderer)
    as st0 eqn:Est0.
  assert (Hrem : remaining_tasks st0 = Py.keys T) by (subst; reflexivity).
  assert (H0 : first_pass (Py.sorted (remaining_tasks st0)) (start_round st0)).
  { subst st0. split; [reflexivity|]. split; [reflexivity|]. exists []. simpl.
    rewrite Hd. auto. }
  assert (Hnone : remaining_tasks st0 = [] ->
                  extends (filter (is_root T) (Py.sorted (Py.keys T)))
                    (filter (waits_for_missing T) (Py.sorted (Py.keys T)))
                    st0).
  { intros Hnil. rewrite <- Hrem, Hnil. subst st0.
    unfold extends, executed, dead_names. simpl. rewrite Hd.
    split; exists []; reflexivity. }
  destruct budget as [|budget]; simpl in E;
    destruct (remaining_tasks st0) as [|k ks] eqn:Er;
    try discriminate;
    try (inversion E; subst st'; now apply Hnone).
  rewrite <- Er in H0. clear Hnone.
  destruct (bind_Returned _ _ E) as (r & Hr & E1). clear E.
  unfold round in Hr. destruct (bind_Returned _ _ Hr) as (st1 & Hc & Hr1).
  clear Hr. unfold classification in Hc.
  assert (H1 : first_pass [] st1)
    by (apply (for_each_inv (classify_task T) first_pass first_pass_step)
          with (2 := Hc); exact H0).
  destruct H1 as (Hres & Hord & done & Hsplit & Hq & He).
  rewrite app_nil_r in Hsplit. subst done.
  assert (X1 : extends [] (filter (waits_for_missing T)
                             (Py.sorted (Py.keys T))) st1).
  { split; [exists []; exact Hord|].
    exists []. rewrite app_nil_r. exact Hq. }
  destruct (executable_tasks st1) as [|y ys] eqn:Ey.
  - destruct (bind_Returned _ _ Hr1) as (st2 & Hs & Hr2).
    inversion Hr2; subst r. inversion E1; subst st2.
    rewrite <- He. eapply extends_stuck; eauto.
  - destruct (bind_Returned _ _ Hr1) as (st2 & Hs & Hr2).
    inversion Hr2; subst r. rewrite <- Ey in Hs.
    apply (while_remaining_extends _ _ budget st2 st'); [|exact E1].
    destruct (run_tasks_append _ _ _ Hs) as [Hx Hn].
    split.
    + exists []. rewrite app_nil_r, Hx. unfold executed.
      rewrite Hord, Ey, He. simpl.
      apply sorted_of_sorted, filter_sorted, sorted_sorted.
    + exists []. rewrite app_nil_r, Hn. unfold dead_names. exact Hq.
Qed.

End FirstPass.

(** X19. The first pass decides how the two lists of a report begin: the
    execution order begins with the tasks that declare no dependency,
    in the order of [sorted], and the dead letter queue begins with
    the tasks that declare a dependency that is no task of the store,
    in the order of [sorted]. *)
Theorem report_begins_with_first_pass {py : Interpreter} {R : Type}
    {renderer_hooks : Renderer R} (self : PipelineEngine) (config : Config)
    (renderer : option R) rep self' renderer' :
  run self config renderer = Returned (rep, self', renderer') ->
  (exists later,
     rep.(report_execution_order) =
     filter (is_root (run_store self config))
            (Py.sorted (Py.keys (run_store self config))) ++ later) /\
  (exists later,
     dlq_names rep.(report_dlq) =
     filter (waits_for_missing (run_store self config))
            (Py.sorted (Py.keys (run_store self config))) ++ later).
Proof.
  intros E. apply run_Returned in E.
  destruct E as (st' & E & (Ho & Hq & _) & _). rewrite Ho, Hq.
  fold (dead_names st').
  apply (first_pass_of_loop (run_store self config) _ renderer
           (DLQSystem_init (run_seed config))
           (DeterministicRandom_init (run_seed config)) (run_seed config)
           st' eq_refl E).
Qed.

Lemma report_begins_witness :
  exists rep e r,
    run (py := Sample.salted 0) PipelineEngine_init Sample.pipeline
        (@None ConsoleRenderer) = Returned (rep, e, r) /\
    (exists later, rep.(report_execution_order) = ["task_a"] ++ later) /\
    (exists later, dlq_names rep.(report_dlq) = ["task_c"] ++ later).
Proof.
  destruct (run (py := Sample.salted 0) PipelineEngine_init Sample.pipeline
                (@None ConsoleRenderer)) as [[[rep e] r]|ex] eqn:E;
    [|vm_compute in E; discriminate].
  exists rep, e, r. split; [reflexivity|].
  apply (@report_begins_with_first_pass (Sample.salted 0) ConsoleRenderer _
           PipelineEngine_init Sample.pipeline None rep e r E).
Defined.

(** ** A disabled renderer *)

Lemma disabled_hook tag x (r : ConsoleRenderer) :
  absorb (console_hook tag x (disable r)) = disable r.
Proof.
  unfold console_hook, disable. simpl.
  now destruct (match fail_on_task r with
                | Some n => String.eqb n x
                | None => false
                end).
Qed.

Section Disabled.

Context {py : Interpreter}.

Variable T : Py.dict Task.
Variable r0 : ConsoleRenderer.

Definition still_disabled (st : Sched ConsoleRenderer) : Prop :=
  st.(sched_renderer) = Some (disable r0).

Lemma still_disabled_classify x st st' :
  still_disabled st -> classify_task T x st = Returned st' ->
  still_disabled st'.
Proof.
  intros H E. apply classify_task_Returned in E.
  destruct E as [task' _ _ (ts & _ & _ & ->)
                | task' _ _ _ (ts & _ & _ & ->)
                | task' _ _ _ _ -> | task' _ _ _ _ ->]; exact H.
Qed.

Lemma still_disabled_run x st st' :
  still_disabled st -> run_task T x st = Returned st' -> still_disabled st'.
Proof.
  unfold still_disabled. intros H E. unfold run_task in E.
  destruct (bind_Returned _ _ E) as (task & Hget & E1). clear E.
  destruct (bind_Returned _ _ E1) as (rem & Hrem & E2). clear E1.
  destruct (_execute_task (sched_random st) task (current_context st))
    as [result rg].
  inversion E2; subst st'; clear E2. simpl. rewrite H. simpl.
  rewrite disabled_hook.
  destruct (TaskStatus_eqb (status result) COMPLETED); simpl;
    now rewrite disabled_hook.
Qed.

End Disabled.

(** X21. A console renderer that has been disabled comes out of a run as
    it went in: its hooks print nothing and change nothing, and the
    one that raises for [fail_on_task] is caught. *)
Theorem disabled_renderer_unchanged {py : Interpreter} (self : PipelineEngine)
    (config : Config) (r0 : ConsoleRenderer) rep self' renderer' :
  run self config (Some (disable r0)) = Returned (rep, self', renderer') ->
  renderer' = Some (disable r0).
Proof.
  intros E. apply run_report in E.
  destruct E as (st' & E & _ & _ & ->).
  destruct (while_remaining_last (run_store self config) (still_disabled r0)
              (fun st H => H)
              (still_disabled_classify (run_store self config) r0)
              (still_disabled_run (run_store self config) r0) _
              (run_initial self config (Some (disable r0))) st'
              eq_refl E) as (st1 & H1 & [->|Hs]); [exact H1|].
  destruct (dead_letter_stuck_keeps _ _ _ Hs) as (Hr & _).
  now rewrite Hr.
Qed.

Lemma disabled_renderer_witness :
  exists rep e,
    run (py := Sample.salted 0) PipelineEngine_init Sample.pipeline
        (Some (disable (mkConsoleRenderer true (Some "task_a") ["ready"] false)))
    = Returned (rep, e,
                Some (disable
                        (mkConsoleRenderer true (Some "task_a") ["ready"] false))).
Proof.
  destruct (run (py := Sample.salted 0) PipelineEngine_init Sample.pipeline
              (Some (disable
                       (mkConsoleRenderer true (Some "task_a") ["ready"] false))))
    as [[[rep e] rd]|ex] eqn:E; [|vm_compute in E; discriminate].
  exists rep, e.
  now rewrite (@disabled_renderer_unchanged (Sample.salted 0)
                 PipelineEngine_init Sample.pipeline
                 (mkConsoleRenderer true (Some "task_a") ["ready"] false)
                 rep e rd E).
Defined.

(** ** The engine after a run *)

Section After.

Context {py : Interpreter} {R : Type} {renderer_hooks : Renderer R}.

Variable self : PipelineEngine.
Variable config : Config.
Hypothesis self_dict : NoDup (Py.keys self.(tasks)).
Hypothesis self_keyed : keyed_by_name self.(tasks).

Local Abbreviation T := (run_store self config).
Local Abbreviation s := (run_seed config).

(** The table of the random source holds the keys of the executed
    tasks, in execution order. *)
Definition table_of_executed (st : Sched R) : Prop :=
  results_fresh self config st /\
  Py.keys st.(sched_random).(states) =
  map (fun x => (Py.str s ++ ":" ++ x)%string) (executed st).

Lemma table_of_executed_classify y (st st' : Sched R) :
  table_of_executed st -> classified T y st st' -> table_of_executed st'.
Proof.
  intros [W K] C. split; [eapply results_fresh_classify; eauto|].
  destruct C as [task' _ _ (ts & _ & _ & ->)
                | task' _ _ _ (ts & _ & _ & ->)
                | task' _ _ _ _ -> | task' _ _ _ _ ->]; exact K.
Qed.

Lemma table_of_executed_run y (st st' : Sched R) :
  scheduler_inv T s st -> table_of_executed st ->
  executed_task T y st st' -> table_of_executed st'.
Proof.
  intros HI [W K] X.
  split; [eapply results_fresh_run; eauto|].
  destruct W as (Hs & Hr & Hk & _).
  destruct X as (task' & result & rg & rd & Hget & Hy & Hex & ->).
  destruct (partition_remaining_fresh (run_store_NoDup self config self_dict)
              y (inv_partition HI) Hy) as [Hne _].
  pose proof (run_store_keyed self config self_keyed _ _ Hget) as Hname.
  assert (Hnone : Py.get (Py.str s ++ ":" ++ name task')%string
                         (states (sched_random st)) = None).
  { apply get_None_keys. intros Hin.
    destruct (Hk _ Hin) as (z & Hz & Ez).
    apply append_inj in Ez. apply (append_inj ":") in Ez.
    rewrite Hname in Ez. subst z. contradiction. }
  pose proof (execute_task_random (sched_random st) task'
                (current_context st)) as Hrg.
  rewrite Hex in Hrg. cbn [snd] in Hrg. rewrite Hs in Hrg.
  destruct (draw_fresh (sched_random st) _ Hnone) as (_ & _ & Hkeys).
  rewrite <- Hrg in Hkeys. unfold executed. simpl.
  rewrite Hkeys, map_app, K, Hname. reflexivity.
Qed.

Lemma run_leaves (renderer : option R) rep self' renderer' :
  run self config renderer = Returned (rep, self', renderer') ->
  self'.(tasks) = T /\
  exists d rg,
    self'.(dlq_system) = Some d /\ self'.(random_generator) = Some rg /\
    d.(failures) = rep.(report_dlq) /\
    d.(counter) = List.length rep.(report_dlq) /\ d.(dlq_seed) = s /\
    rg.(rnd_seed) = s /\
    Py.keys rg.(states) =
      map (fun x => (Py.str s ++ ":" ++ x)%string) rep.(report_execution_order).
Proof.
  intros E.
  destruct (run_rule_report self config self_dict table_of_executed)
    with (5 := E) as (st1 & st' & F).
  - intros st _ W. exact W.
  - intros y st st' _ W _ _ C. eapply table_of_executed_classify; eauto.
  - intros y st st' HI W _ _ C. eapply table_of_executed_run; eauto.
  - split; [|reflexivity]. unfold results_fresh, executed. simpl.
    repeat split; auto.
    + intros key [].
    + intros y r Hr. discriminate.
  - pose proof (last_end _ _ _ _ _ _ _ _ F) as G.
    destruct (end_reports G) as (Ho & Hq & _).
    destruct (end_dlq G) as (Hseed & Hcount & _).
    destruct (end_Q G) as [(_ & Hrs & _) K].
    rewrite (last_engine _ _ _ _ _ _ _ _ F). simpl. split; [reflexivity|].
    exists (sched_dlq st'), (sched_random st1).
    split; [reflexivity|]. split; [reflexivity|].
    rewrite Hq, Ho. repeat split; auto.
    unfold executed in *. now rewrite (end_context G).
Qed.

End After.



(** ** Runs in two interpreter processes *)

(** A failure rate for which no draw of [[0, 1)] decides the outcome:
    negative, 1.0 or more, or not a number. *)
Definition rate_decided (task : Task) : Prop :=
  PrimFloat.ltb task.(failure_rate) 0 = true \/
  PrimFloat.leb 1 task.(failure_rate) = true \/
  PrimFloat.eqb task.(failure_rate) task.(failure_rate) = false.

Section TwoProcesses.

Variables py1 py2 : Interpreter.
Hypothesis draws1 : random_in_unit_interval py1.
Hypothesis draws2 : random_in_unit_interval py2.

Context {R : Type} {renderer_hooks : Renderer R}.

Variable T : Py.dict Task.
Hypothesis T_decided : forall x task, Py.get x T = Some task -> rate_decided task.

Lemma execute_task_decided task ctx
    (rg1 : @DeterministicRandom py1) (rg2 : @DeterministicRandom py2) :
  rate_decided task ->
  fst (_execute_task rg1 task ctx) = fst (_execute_task rg2 task ctx).
Proof.
  intros H. unfold _execute_task.
  destruct (draw_in_unit_interval rg1
              (Py.str ctx.(seed) ++ ":" ++ task.(name))%string draws1)
    as [L1 U1].
  destruct (draw_in_unit_interval rg2
              (Py.str ctx.(seed) ++ ":" ++ task.(name))%string draws2)
    as [L2 U2].
  destruct (draw rg1 (Py.str (seed ctx) ++ ":" ++ name task)%string)
    as [x1 rg1'].
  destruct (draw rg2 (Py.str (seed ctx) ++ ":" ++ name task)%string)
    as [x2 rg2'].
  cbn [fst] in *.
  assert (E : PrimFloat.ltb (failure_rate task) x1 =
              PrimFloat.ltb (failure_rate task) x2).
  { destruct H as [H|[H|H]].
    - now rewrite (below_zero_ltb _ _ H L1), (below_zero_ltb _ _ H L2).
    - now rewrite (from_one_ltb _ _ H U1), (from_one_ltb _ _ H U2).
    - now rewrite (nan_ltb _ x1 H), (nan_ltb _ x2 H). }
  now rewrite E.
Qed.

(** Two scheduler states, one in each process, that differ in the
    random source at most. *)
Definition same_but_random (st1 : @Sched py1 R) (st2 : @Sched py2 R) : Prop :=
  st1.(current_context) = st2.(current_context) /\
  st1.(sched_dlq) = st2.(sched_dlq) /\
  st1.(remaining_tasks) = st2.(remaining_tasks) /\
  st1.(processed_tasks) = st2.(processed_tasks) /\
  st1.(executable_tasks) = st2.(executable_tasks) /\
  st1.(sched_renderer) = st2.(sched_renderer).

Lemma dead_letter_processes x reason st1 st2 :
  same_but_random st1 st2 ->
  same_outcome same_but_random (dead_letter x reason st1)
                               (dead_letter x reason st2).
Proof.
  intros (Hc & Hd & Hr & Hp & He & Hn). unfold dead_letter.
  rewrite Hd, Hr. destruct (add_failure _ x reason None); simpl; auto.
  destruct (Py.set_remove x _); simpl; auto.
  repeat split; auto. now rewrite Hp.
Qed.

Lemma classify_task_processes x st1 st2 :
  same_but_random st1 st2 ->
  same_outcome same_but_random (classify_task T x st1) (classify_task T x st2).
Proof.
  intros H. unfold classify_task.
  assert (Hc : current_context st1 = current_context st2) by apply H.
  rewrite Hc.
  destruct (Py.getitem x T) as [task|e]; simpl; auto.
  destruct (check_dependencies T (current_context st2) (dependencies task))
    as [[c m] f].
  destruct m; [destruct f; [destruct c|]|];
    try now apply dead_letter_processes.
  - destruct H as (? & Hd & Hr & Hp & He & Hn). simpl.
    repeat split; auto. now rewrite He.
  - exact H.
Qed.

Lemma dead_letter_stuck_processes x st1 st2 :
  same_but_random st1 st2 ->
  same_outcome same_but_random (dead_letter_stuck x st1)
                               (dead_letter_stuck x st2).
Proof.
  intros (Hc & Hd & Hr & Hp & He & Hn). unfold dead_letter_stuck.
  rewrite Hd. destruct (add_failure _ x circular_reason None); simpl; auto.
  repeat split; auto. now rewrite Hp.
Qed.

Lemma run_task_processes x st1 st2 :
  same_but_random st1 st2 ->
  same_outcome same_but_random (run_task T x st1) (run_task T x st2).
Proof.
  intros (Hc & Hd & Hr & Hp & He & Hn). unfold run_task, Py.getitem.
  destruct (Py.get x T) as [task|] eqn:Hget; simpl; auto.
  rewrite Hr. destruct (Py.set_remove x _); simpl; auto.
  pose proof (execute_task_decided task (current_context st2)
                (sched_random st1) (sched_random st2)
                (T_decided x task Hget)) as Hres.
  rewrite Hc.
  destruct (_execute_task (sched_random st1) task (current_context st2))
    as [result1 rg1].
  destruct (_execute_task (sched_random st2) task (current_context st2))
    as [result2 rg2].
  cbn [fst] in Hres. subst result2. simpl.
  repeat split; auto; try now rewrite Hp. now rewrite Hn.
Qed.

Definition same_but_random_turn (r1 : @Sched py1 R + @Sched py1 R)
    (r2 : @Sched py2 R + @Sched py2 R) : Prop :=
  match r1, r2 with
  | inl a, inl b => same_but_random a b
  | inr a, inr b => same_but_random a b
  | _, _ => False
  end.

Lemma round_processes st1 st2 :
  same_but_random st1 st2 ->
  same_outcome same_but_random_turn (round T st1) (round T st2).
Proof.
  intros H. unfold round, classification.
  assert (Hr0 : remaining_tasks st1 = remaining_tasks st2) by apply H.
  rewrite Hr0.
  eapply same_outcome_bind.
  - apply same_outcome_for_each;
      [intros x a b; apply classify_task_processes|].
    destruct H as (? & ? & ? & ? & ? & ?). repeat split; auto.
  - intros a b Hab.
    assert (He : executable_tasks a = executable_tasks b) by apply Hab.
    assert (Hr : remaining_tasks a = remaining_tasks b) by apply Hab.
    rewrite He, Hr. destruct (executable_tasks b).
    + eapply same_outcome_bind.
      * apply same_outcome_for_each;
          [apply dead_letter_stuck_processes | exact Hab].
      * intros a' b' H'. exact H'.
    + eapply same_outcome_bind.
      * apply same_outcome_for_each; [apply run_task_processes | exact Hab].
      * intros a' b' H'. exact H'.
Qed.

Lemma while_remaining_processes budget : forall st1 st2,
  same_but_random st1 st2 ->
  same_outcome same_but_random (while_remaining T budget st1)
                               (while_remaining T budget st2).
Proof.
  induction budget as [|n IH]; intros st1 st2 H; simpl;
    assert (Hr : remaining_tasks st1 = remaining_tasks st2) by apply H;
    rewrite Hr; destruct (remaining_tasks st2); simpl; auto.
  eapply same_outcome_bind; [apply round_processes; exact H|].
  intros [a|a] [b|b] Hab; simpl in *; auto; contradiction.
Qed.

Lemma execute_tasks_processes d context (renderer : option R)
    (rg1 : @DeterministicRandom py1) (rg2 : @DeterministicRandom py2) :
  same_outcome same_but_random (_execute_tasks T d rg1 context renderer)
                               (_execute_tasks T d rg2 context renderer).
Proof.
  unfold _execute_tasks.
  eapply same_outcome_bind.
  - apply while_remaining_processes. repeat split.
  - intros a b (Hc & Hd & Hr & Hp & He & Hn). simpl.
    rewrite Hc, Hd. repeat split; auto.
Qed.

End TwoProcesses.

(** X22. When no failure rate of the store lies in [[0, 1)] (each is
    negative, 1.0 or more, or not a number), the report does not depend
    on the interpreter process: two processes, whatever their [hash]
    and their generators, give the same report for the same store,
    configuration and renderer. *)
Theorem decided_rates_need_no_hash (py1 py2 : Interpreter) {R : Type}
    {renderer_hooks : Renderer R} (e1 : @PipelineEngine py1)
    (e2 : @PipelineEngine py2) (config : Config) (renderer : option R) :
  random_in_unit_interval py1 -> random_in_unit_interval py2 ->
  e1.(tasks) = e2.(tasks) ->
  (forall x task, Py.get x (run_store e1 config) = Some task ->
                  rate_decided task) ->
  report_of (run e1 config renderer) = report_of (run e2 config renderer).
Proof.
  intros H1 H2 Ht Hdec. unfold run_store in Hdec.
  rewrite parse_config_store in Hdec. unfold run.
  rewrite !parse_config_store. cbn [tasks]. rewrite <- Ht.
  set (T := fold_left _ _ (tasks e1)) in *.
  set (s := get_default (cfg_seed config) default_seed).
  pose proof (execute_tasks_processes py1 py2 H1 H2 T Hdec (DLQSystem_init s)
                {| seed := s; task_results := [];
                   execution_order := []; dlq := [] |} renderer
                (DeterministicRandom_init s) (DeterministicRandom_init s))
    as H.
  destruct (@_execute_tasks py1 R _ T _ _ _ renderer) as [st1|x1];
    destruct (@_execute_tasks py2 R _ T _ _ _ renderer) as [st2|x2];
    simpl in *; try contradiction; [|now subst].
  destruct H as (Hc & Hq & _). now rewrite Hc.
Qed.

Lemma decided_rates_witness :
  report_of (run (py := Sample.salted 0) PipelineEngine_init Sample.certain
                 (@None ConsoleRenderer)) =
  report_of (run (py := Sample.salted 1) PipelineEngine_init Sample.certain
                 (@None ConsoleRenderer)).
Proof.
  assert (Hr : forall salt, random_in_unit_interval (Sample.salted salt))
    by (intros salt g; simpl; destruct (Z.even g); split; reflexivity).
  apply (@decided_rates_need_no_hash (Sample.salted 0) (Sample.salted 1)
           ConsoleRenderer _ PipelineEngine_init PipelineEngine_init
           Sample.certain None (Hr 0%Z) (Hr 1%Z) eq_refl).
  intros x task Hget. apply get_In in Hget. vm_compute in Hget.
  destruct Hget as [H|[H|[H|[]]]]; inversion H; subst; unfold rate_decided;
    simpl; [left | right; left | right; right]; reflexivity.
Defined.
